(** * AdvantageScope: spatial telemetry rendering core

    Shallow embedding of
    - [OdometryController.getCommand] (telemetry-to-geometry extraction), and
    - [ThreeDimensionVisualizer] (asset lifecycle, coordinate frames, camera
      selection, rotation sequences),
    together with the properties the specification states about them.

    Number model.  JavaScript numbers are IEEE doubles.  The controller only
    adds, subtracts, multiplies, divides, rounds up and compares them, so
    they are embedded as exact rationals [Q] (executable).  The visualizer
    needs [Math.PI], [sin] and [cos]; its geometry is embedded in the real
    numbers [R], and the rational data it receives is injected with [Q2R].
    Rounding error is therefore outside the model. *)

From Stdlib Require Import String List ZArith QArith Qround Bool Lia Arith.
From Stdlib Require Import Reals Lra Qreals.
From Stdlib Require Import Permutation.
From Stdlib Require Lqa.
Import ListNotations.

Local Open Scope string_scope.
Local Open Scope list_scope.

(** ** Shared helpers *)

(** [a[i]] on a JavaScript number array; every access below is guarded by a
    length test in the source, so the default is never observed. *)
Definition at_index (v : list Q) (i : nat) : Q := nth i v 0%Q.

(** [x < y] on numbers, as a boolean. *)
Definition Qlt_bool (x y : Q) : bool := negb (Qle_bool y x).

(** * OdometryController *)

Module Odometry.

Local Open Scope Q_scope.

(** One index of a number-array log field: [timestamps[i]] and [values[i]].
    The log store keeps the two arrays at equal length, so the field is a
    list of entries. *)
Definition LogEntry : Type := Q * list Q.
Definition LogData : Type := list LogEntry.

(** Range bounds passed to [getNumberArray]. *)
Inductive Bound : Type :=
| NegInfinity
| Finite (t : Q)
| Infinity.

Definition Translation2d : Type := Q * Q.

Record Pose2d : Type := mkPose2d {
  translation : Translation2d;
  rotation : Q
}.

Record HeatmapSample : Type := mkHeatmapSample {
  timestamp : Q;
  value : Translation2d
}.

Definition HEATMAP_DT : Q := 1 # 10.
Definition TRAIL_LENGTH_SECS : Q := 5.

Section Controller.

(** [convert(value, from, to)] of [shared/units]. *)
Variable convert : Q -> string -> string -> Q.
(** [window.log.getNumberArray(key, start, end)]; [None] is [undefined]. *)
Variable getNumberArray : string -> Bound -> Bound -> option LogData.
(** Current values of the unit selectors. *)
Variable UNIT_DISTANCE UNIT_ROTATION : string.

(** Body of the [for (let i = 0; i < length; i += 3)] loop of
    [getCurrentValue]; [fuel] bounds the number of iterations. *)
Fixpoint posesFrom (fuel i : nat) (v : list Q) : list Pose2d :=
  match fuel with
  | O => []
  | S fuel' =>
      if (i <? length v)%nat then
        {| translation :=
             (convert (at_index v i) UNIT_DISTANCE "meters",
              convert (at_index v (i + 1)) UNIT_DISTANCE "meters");
           rotation := convert (at_index v (i + 2)) UNIT_ROTATION "radians" |}
        :: posesFrom fuel' (i + 3) v
      else []
  end.

(** [getCurrentValue(key)] at the controller's evaluation time. *)
Definition getCurrentValue (time : Q) (key : string) : list Pose2d :=
  match getNumberArray key (Finite time) (Finite time) with
  | Some ((t0, v0) :: _) =>
      if Qle_bool t0 time
         && ((length v0 =? 2)%nat || (length v0 mod 3 =? 0)%nat)
      then
        if (length v0 =? 2)%nat then
          [ {| translation :=
                 (convert (at_index v0 0) UNIT_DISTANCE "meters",
                  convert (at_index v0 1) UNIT_DISTANCE "meters");
               rotation := 0 |} ]
        else posesFrom (length v0) 0 v0
      else []
  | _ => []
  end.


(** *** Robot trails *)

(** The two boundary trims of the trail query result: [shift()] when the
    first timestamp is more than [TRAIL_LENGTH_SECS] before [time], then
    [pop()] when the last one is more than [TRAIL_LENGTH_SECS] after. *)
Definition trimFirst (time : Q) (d : LogData) : LogData :=
  match d with
  | (t0, _) :: rest => if Qlt_bool TRAIL_LENGTH_SECS (time - t0) then rest else d
  | [] => d
  end.

Definition trimLast (time : Q) (d : LogData) : LogData :=
  match rev d with
  | (tl, _) :: _ => if Qlt_bool TRAIL_LENGTH_SECS (tl - time) then removelast d else d
  | [] => d
  end.

Definition trimTrail (time : Q) (d : LogData) : LogData :=
  trimLast time (trimFirst time d).

(** [trailsTemp[i].push(p)], guarded by [if (i >= trailsTemp.length) continue]. *)
Fixpoint pushAt (i : nat) (p : Translation2d) (trails : list (list Translation2d))
  : list (list Translation2d) :=
  match trails, i with
  | [], _ => []
  | tr :: rest, O => (tr ++ [p]) :: rest
  | tr :: rest, S i' => tr :: pushAt i' p rest
  end.

(** One iteration of [trailLogData.values.forEach]. *)
Definition pushTrailValue (trails : list (list Translation2d)) (v : list Q)
  : list (list Translation2d) :=
  if (length v mod 3 =? 0)%nat then
    fold_left
      (fun acc i =>
         pushAt i (convert (at_index v (i * 3)) UNIT_DISTANCE "meters",
                   convert (at_index v (i * 3 + 1)) UNIT_DISTANCE "meters") acc)
      (seq 0 (length v / 3)) trails
  else trails.

(** The [// Get trails] block for one "Robot" field. *)
Definition getTrails (time : Q) (key : string) (currentRobotData : list Pose2d)
  : list (list Translation2d) :=
  let trailsTemp := map (fun _ => []) currentRobotData in
  match getNumberArray key (Finite (time - TRAIL_LENGTH_SECS))
                           (Finite (time + TRAIL_LENGTH_SECS)) with
  | Some trailLogData =>
      fold_left pushTrailValue (map snd (trimTrail time trailLogData)) trailsTemp
  | None => trailsTemp
  end.

(** *** Heatmaps *)

(** [getEnabledData(window.log)]: timestamps with the enabled flag, or
    [None] for [null]. *)
Definition EnabledData : Type := list (Q * bool).
Variable getEnabledData : option EnabledData.

(** The [// Check if enabled] block.  [None] is the [TypeError] raised by
    [enabledData!.timestamps] on [null]; [Some false] is an early
    [return] from the callback. *)
Definition checkEnabled (enabledFilter : bool) (enabledData : option EnabledData)
           (timestamp : Q) : option bool :=
  if enabledFilter then
    match enabledData with
    | None => None
    | Some e =>
        match find (fun x => Qle_bool (fst x) timestamp) (rev e) with
        | None => Some false
        | Some (_, enabled) => Some enabled
        end
    end
  else Some true.

(** The [// Generate samples] block for one raw sample.  The inner loop
    variable shadows the outer one, so the outer index is not used. *)
Definition generateSamples (distanceConversion timestamp nextTimestamp : Q)
           (value : list Q) : list HeatmapSample :=
  let sampleCount := Qceiling ((nextTimestamp - timestamp) / HEATMAP_DT) in
  flat_map
    (fun _outer : nat =>
       if (length value mod 3 =? 0)%nat then
         map (fun i : nat =>
                {| timestamp := timestamp + inject_Z (Z.of_nat i) * HEATMAP_DT;
                   value := (at_index value (i * 3) * distanceConversion,
                             at_index value (i * 3 + 1) * distanceConversion) |})
             (seq 0 (length value / 3))
       else [])
    (seq 0 (Z.to_nat sampleCount)).

(** [heatmapLogData.values.forEach((value, index) => ...)]; the samples
    pushed, or [None] when the callback raises. *)
Fixpoint resample (enabledFilter : bool) (enabledData : option EnabledData)
         (distanceConversion : Q) (d : LogData) : option (list HeatmapSample) :=
  match d with
  | [] => Some []
  | (timestamp, value) :: rest =>
      match checkEnabled enabledFilter enabledData timestamp with
      | None => None
      | Some ok =>
          let nextTimestamp :=
            match rest with
            | (t', _) :: _ => t'
            | [] => timestamp
            end in
          let pushed :=
            if ok then generateSamples distanceConversion timestamp nextTimestamp value
            else [] in
          match resample enabledFilter enabledData distanceConversion rest with
          | None => None
          | Some more => Some (pushed ++ more)
          end
      end
  end.

(** The "Heatmap" / "Heatmap (Enabled)" case for one field. *)
Definition heatmapField (enabledFilter : bool) (key : string)
  : option (list HeatmapSample) :=
  let enabledData := if enabledFilter then getEnabledData else None in
  let distanceConversion := convert 1 UNIT_DISTANCE "meters" in
  match getNumberArray key NegInfinity Infinity with
  | Some heatmapLogData => resample enabledFilter enabledData distanceConversion heatmapLogData
  | None => Some []
  end.

(** [heatmapData.sort((a, b) => a.timestamp - b.timestamp)]: a stable
    sort by timestamp. *)
Fixpoint insertByTimestamp (s : HeatmapSample) (l : list HeatmapSample)
  : list HeatmapSample :=
  match l with
  | [] => [s]
  | x :: rest =>
      if Qlt_bool (timestamp s) (timestamp x) then s :: l
      else x :: insertByTimestamp s rest
  end.

Definition sortByTimestamp (l : list HeatmapSample) : list HeatmapSample :=
  fold_left (fun acc s => insertByTimestamp s acc) l [].

(** One iteration of the [// Filter heatmap data] loop, on the pair
    ([heatmapDataValues], [lastTimestamp]). *)
Definition keepSample (lastTimestamp : Q) (sample : HeatmapSample) : bool :=
  Qeq_bool (timestamp sample) lastTimestamp
  || Qle_bool HEATMAP_DT (timestamp sample - lastTimestamp).

Definition filterStep (st : list Translation2d * Q) (sample : HeatmapSample)
  : list Translation2d * Q :=
  let (heatmapDataValues, lastTimestamp) := st in
  if keepSample lastTimestamp sample
  then (heatmapDataValues ++ [value sample], timestamp sample)
  else st.

(** The filter on an already sorted list: [lastTimestamp] starts at 0. *)
Definition filterSorted (heatmapData : list HeatmapSample) : list Translation2d * Q :=
  fold_left filterStep heatmapData ([], 0).

Definition filterHeatmap (heatmapData : list HeatmapSample) : list Translation2d :=
  fst (filterSorted (sortByTimestamp heatmapData)).

(** *** The command *)

(** The local arrays the field loop fills. *)
Record Collected : Type := mkCollected {
  robotData : list Pose2d;
  trailData : list (list Translation2d);
  ghostData : list Pose2d;
  trajectoryData : list (list Pose2d);
  visionTargetData : list Pose2d;
  heatmapData : list HeatmapSample;
  arrowFrontData : list Pose2d;
  arrowCenterData : list Pose2d;
  arrowBackData : list Pose2d
}.

Definition nothingCollected : Collected := mkCollected [] [] [] [] [] [] [] [] [].

(** One iteration of [this.getListFields()[0].forEach]; a field is a
    (key, type) pair.  [None] when the heatmap callback raises. *)
Definition collectField (time : Q) (acc : Collected) (field : string * string)
  : option Collected :=
  let (key, type) := field in
  let (r, tr, g, tj, vt, hm, af, ac, ab) := acc in
  if String.eqb type "Robot" then
    let currentRobotData := getCurrentValue time key in
    Some (mkCollected (r ++ currentRobotData) (tr ++ getTrails time key currentRobotData)
                      g tj vt hm af ac ab)
  else if String.eqb type "Ghost" then
    Some (mkCollected r tr (g ++ getCurrentValue time key) tj vt hm af ac ab)
  else if String.eqb type "Trajectory" then
    Some (mkCollected r tr g (tj ++ [getCurrentValue time key]) vt hm af ac ab)
  else if String.eqb type "Vision Target" then
    Some (mkCollected r tr g tj (vt ++ getCurrentValue time key) hm af ac ab)
  else if String.eqb type "Heatmap" || String.eqb type "Heatmap (Enabled)" then
    match heatmapField (String.eqb type "Heatmap (Enabled)") key with
    | Some pushed => Some (mkCollected r tr g tj vt (hm ++ pushed) af ac ab)
    | None => None
    end
  else if String.eqb type "Arrow (Front)" then
    Some (mkCollected r tr g tj vt hm (af ++ getCurrentValue time key) ac ab)
  else if String.eqb type "Arrow (Center)" then
    Some (mkCollected r tr g tj vt hm af (ac ++ getCurrentValue time key) ab)
  else if String.eqb type "Arrow (Back)" then
    Some (mkCollected r tr g tj vt hm af ac (ab ++ getCurrentValue time key))
  else Some acc.

Fixpoint collectFields (time : Q) (acc : Collected) (fields : list (string * string))
  : option Collected :=
  match fields with
  | [] => Some acc
  | f :: rest =>
      match collectField time acc f with
      | Some acc' => collectFields time acc' rest
      | None => None
      end
  end.

(** [getIsRedAlliance(window.log)] and the two alliance selectors. *)
Variable getIsRedAlliance : bool.
Variable ALLIANCE_BUMPERS ALLIANCE_ORIGIN : string.

Definition resolveAlliance (selector : string) : bool :=
  if String.eqb selector "auto" then getIsRedAlliance
  else if String.eqb selector "blue" then false
  else if String.eqb selector "red" then true
  else false.

(** The [poses] object of the command. *)
Record Poses : Type := mkPoses {
  robot : list Pose2d;
  trail : list (list Translation2d);
  ghost : list Pose2d;
  trajectory : list (list Pose2d);
  visionTarget : list Pose2d;
  heatmap : list Translation2d;
  arrowFront : list Pose2d;
  arrowCenter : list Pose2d;
  arrowBack : list Pose2d
}.

(** The command; its [options] field repeats the option inputs and is not
    modelled. *)
Record Command : Type := mkCommand {
  poses : Poses;
  allianceRedBumpers : bool;
  allianceRedOrigin : bool
}.

(** [getCommand(time)]; [fields] is [this.getListFields()[0]]. *)
Definition getCommand (fields : list (string * string)) (time : Q) : option Command :=
  match collectFields time nothingCollected fields with
  | Some c =>
      Some {| poses := {| robot := robotData c;
                          trail := trailData c;
                          ghost := ghostData c;
                          trajectory := trajectoryData c;
                          visionTarget := visionTargetData c;
                          heatmap := filterHeatmap (heatmapData c);
                          arrowFront := arrowFrontData c;
                          arrowCenter := arrowCenterData c;
                          arrowBack := arrowBackData c |};
              allianceRedBumpers := resolveAlliance ALLIANCE_BUMPERS;
              allianceRedOrigin := resolveAlliance ALLIANCE_ORIGIN |}
  | None => None
  end.

(** [ALLIANCE_KEYS] of [shared/log/LogUtil]. *)
Variable ALLIANCE_KEYS : list string.

(** [getAdditionalActiveFields()]. *)
Definition getAdditionalActiveFields : list string :=
  if String.eqb ALLIANCE_BUMPERS "auto" || String.eqb ALLIANCE_ORIGIN "auto"
  then ALLIANCE_KEYS
  else [].

End Controller.

End Odometry.

(** * THREE.js: the quaternion operations the visualizer calls *)

Module Three.

Local Open Scope R_scope.

Record Vector3 : Type := mkVector3 { vx : R; vy : R; vz : R }.

(** [THREE.Quaternion], fields in constructor order (x, y, z, w). *)
Record Quaternion : Type := mkQuaternion { qx : R; qy : R; qz : R; qw : R }.

(** [new THREE.Quaternion()]. *)
Definition identity : Quaternion := mkQuaternion 0 0 0 1.

(** [multiplyQuaternions(a, b)]: the Hamilton product [a * b]. *)
Definition multiplyQuaternions (a b : Quaternion) : Quaternion :=
  {| qx := qx a * qw b + qw a * qx b + qy a * qz b - qz a * qy b;
     qy := qy a * qw b + qw a * qy b + qz a * qx b - qx a * qz b;
     qz := qz a * qw b + qw a * qz b + qx a * qy b - qy a * qx b;
     qw := qw a * qw b - qx a * qx b - qy a * qy b - qz a * qz b |}.

(** [this.multiply(q)] is [this * q]; [this.premultiply(q)] is [q * this]. *)
Definition multiply (this q : Quaternion) : Quaternion := multiplyQuaternions this q.
Definition premultiply (this q : Quaternion) : Quaternion := multiplyQuaternions q this.

(** [setFromAxisAngle(axis, angle)]. *)
Definition setFromAxisAngle (axis : Vector3) (angle : R) : Quaternion :=
  let halfAngle := angle / 2 in
  let s := sin halfAngle in
  {| qx := vx axis * s; qy := vy axis * s; qz := vz axis * s; qw := cos halfAngle |}.

(** [invert()]: the conjugate (the quaternion is taken to have unit length). *)
Definition invert (q : Quaternion) : Quaternion :=
  {| qx := - qx q; qy := - qy q; qz := - qz q; qw := qw q |}.

Definition negate (v : Vector3) : Vector3 := mkVector3 (- vx v) (- vy v) (- vz v).

End Three.

(** * ThreeDimensionVisualizer

    The model keeps the field and robot slots, the camera mounts, the cone
    arrays, the children of the two coordinate groups, the camera selection
    and the scheduler's bookkeeping.  Lights, textures, cone meshes, the
    context-menu handler and the drawing of the composed scene read this
    state without changing it and are left out; where the camera block
    copies a world transform, the model records which object it was copied
    from. *)

Module Visualizer.

Import Three.

(** ** Asset catalog ([window.frcData]) and command *)

Definition Triple : Type := (Q * Q * Q)%type.

Record Config3d_Rotation : Type := mkRotation {
  axis : string;
  degrees : Q
}.

Record Config3d_Camera : Type := mkCamera {
  camera_name : string;
  camera_rotations : list Config3d_Rotation;
  camera_position : Triple;
  resolution : Q * Q;
  fov : Q
}.

Record Config3d_Robot : Type := mkRobotConfig {
  robot_title : string;
  robot_path : string;
  robot_rotations : list Config3d_Rotation;
  robot_position : Triple;
  cameras : list Config3d_Camera
}.

Record Config3d_Field : Type := mkFieldConfig {
  field_title : string;
  field_path : string;
  field_rotations : list Config3d_Rotation;
  widthInches : Q;
  heightInches : Q
}.

Record FRCData : Type := mkFRCData {
  field3ds : list Config3d_Field;
  robots : list Config3d_Robot
}.

(** [Pose3d]: position (X, Y, Z) and rotation (W, X, Y, Z). *)
Record Pose3d : Type := mkPose3d {
  position : Triple;
  rotation : Q * Q * Q * Q
}.

Record Options : Type := mkOptions {
  opt_field : string;
  opt_robot : string;
  opt_alliance : string
}.

Record Command : Type := mkCommand {
  options : Options;
  pose_robot : option Pose3d;
  pose_green : list Pose3d;
  pose_blue : list Pose3d;
  pose_yellow : list Pose3d
}.

(** ** Comparison by serialized value ([JSON.stringify(a) != JSON.stringify(b)]) *)

Fixpoint list_eqb {A : Type} (eqb : A -> A -> bool) (l1 l2 : list A) : bool :=
  match l1, l2 with
  | [], [] => true
  | x :: r1, y :: r2 => eqb x y && list_eqb eqb r1 r2
  | _, _ => false
  end.

Definition option_eqb {A : Type} (eqb : A -> A -> bool) (o1 o2 : option A) : bool :=
  match o1, o2 with
  | None, None => true
  | Some x, Some y => eqb x y
  | _, _ => false
  end.

Definition triple_eqb (a b : Triple) : bool :=
  let '(a1, a2, a3) := a in
  let '(b1, b2, b3) := b in
  Qeq_bool a1 b1 && Qeq_bool a2 b2 && Qeq_bool a3 b3.

Definition rotation_eqb (a b : Config3d_Rotation) : bool :=
  String.eqb (axis a) (axis b) && Qeq_bool (degrees a) (degrees b).

Definition camera_eqb (a b : Config3d_Camera) : bool :=
  String.eqb (camera_name a) (camera_name b)
  && list_eqb rotation_eqb (camera_rotations a) (camera_rotations b)
  && triple_eqb (camera_position a) (camera_position b)
  && Qeq_bool (fst (resolution a)) (fst (resolution b))
  && Qeq_bool (snd (resolution a)) (snd (resolution b))
  && Qeq_bool (fov a) (fov b).

Definition robotConfig_eqb (a b : Config3d_Robot) : bool :=
  String.eqb (robot_title a) (robot_title b)
  && String.eqb (robot_path a) (robot_path b)
  && list_eqb rotation_eqb (robot_rotations a) (robot_rotations b)
  && triple_eqb (robot_position a) (robot_position b)
  && list_eqb camera_eqb (cameras a) (cameras b).

Definition fieldConfig_eqb (a b : Config3d_Field) : bool :=
  String.eqb (field_title a) (field_title b)
  && String.eqb (field_path a) (field_path b)
  && list_eqb rotation_eqb (field_rotations a) (field_rotations b)
  && Qeq_bool (widthInches a) (widthInches b)
  && Qeq_bool (heightInches a) (heightInches b).

Definition frcData_eqb (a b : FRCData) : bool :=
  list_eqb fieldConfig_eqb (field3ds a) (field3ds b)
  && list_eqb robotConfig_eqb (robots a) (robots b).

Definition pose3d_eqb (a b : Pose3d) : bool :=
  triple_eqb (position a) (position b)
  && (let '(aw, ax, ay, az) := rotation a in
      let '(bw, bx, by_, bz) := rotation b in
      Qeq_bool aw bw && Qeq_bool ax bx && Qeq_bool ay by_ && Qeq_bool az bz).

Definition command_eqb (a b : Command) : bool :=
  String.eqb (opt_field (options a)) (opt_field (options b))
  && String.eqb (opt_robot (options a)) (opt_robot (options b))
  && String.eqb (opt_alliance (options a)) (opt_alliance (options b))
  && option_eqb pose3d_eqb (pose_robot a) (pose_robot b)
  && list_eqb pose3d_eqb (pose_green a) (pose_green b)
  && list_eqb pose3d_eqb (pose_blue a) (pose_blue b)
  && list_eqb pose3d_eqb (pose_yellow a) (pose_yellow b).

(** ** Scene objects *)

(** The transform of a [THREE.Object3D]. *)
Record Transform : Type := mkTransform {
  t_position : Vector3;
  t_quaternion : Quaternion
}.

Definition vector3_of (p : Triple) : Vector3 :=
  let '(x, y, z) := p in mkVector3 (Q2R x) (Q2R y) (Q2R z).

(** [new Quaternion(rotation[1], rotation[2], rotation[3], rotation[0])]. *)
Definition quaternion_of (r : Q * Q * Q * Q) : Quaternion :=
  let '(w, x, y, z) := r in mkQuaternion (Q2R x) (Q2R y) (Q2R z) (Q2R w).

Definition origin : Vector3 := mkVector3 0 0 0.

(** Objects that are attached to and removed from the coordinate groups are
    told apart by an identity [nat], allocated when the object is created. *)
Record FieldNode : Type := mkFieldNode {
  field_id : nat;
  field_source : string;          (* path the glTF scene was loaded from *)
  field_quaternion : Quaternion
}.

Record RobotNode : Type := mkRobotNode {
  robot_id : nat;
  robot_transform : Transform;    (* of the enclosing group *)
  model_source : string;          (* path the glTF scene was loaded from *)
  model_transform : Transform     (* of the glTF scene inside the group *)
}.

Record Cone : Type := mkCone {
  cone_id : nat;
  cone_transform : Transform
}.

(** A load issued with [GLTFLoader.load]; the callback closes over the asset
    descriptor that was current when the load was issued. *)
Inductive LoadRequest : Type :=
| FieldLoad (fieldConfig : Config3d_Field)
| RobotLoad (robotConfig : Config3d_Robot).

(** Which assignment to the telemetry-axes group the camera block made. *)
Inductive CoordinateOrigin : Type :=
| OriginDefault
| OriginRobot (robot : RobotNode).

(** Which assignment to the viewpoint the camera block made last. *)
Inductive Viewpoint : Type :=
| ViewFieldDefault
| ViewRobotDefault
| ViewMount (index : nat) (mount : Transform) (robot : option RobotNode).

(** The visualizer's fields, grouped by the part of [renderFrame] that owns
    them. *)
Record Scheduler : Type := mkScheduler {
  command : option Command;
  shouldRender : bool;
  lastFrameTime : Z;
  lastWidth : option Z;
  lastHeight : option Z;
  lastDevicePixelRatio : option Q;
  lastIsDark : option bool;
  lastPrefsMode : string
}.

Record Assets : Type := mkAssets {
  lastFrcDataString : option FRCData;   (* [None] is the initial "" *)
  lastFieldTitle : string;
  lastRobotTitle : string;
  lastRobotVisible : bool;
  field : option FieldNode;
  robot : option RobotNode;
  robotCameras : list Transform;
  (* loads issued and not yet completed, oldest first *)
  pending : list LoadRequest;
  (* identity given to the next object created *)
  nextId : nat
}.

Record Scene : Type := mkScene {
  (* children of wpilibCoordinateGroup, other than the field group *)
  coordinateChildren : list nat;
  (* children of wpilibFieldCoordinateGroup *)
  fieldCoordinateChildren : list nat;
  fieldCoordinateTransform : Transform;
  coordinateOrigin : CoordinateOrigin;
  greenCones : list Cone;
  blueCones : list Cone;
  yellowCones : list Cone
}.

Record CameraState : Type := mkCameraState {
  cameraIndex : Z;
  lastCameraIndex : Z;
  lastAspectRatio : option Q;
  controlsEnabled : bool;
  canvasFixed : bool;
  canvasAspectRatio : option Q;
  cameraFov : Q;
  viewpoint : Viewpoint
}.

Record State : Type := mkState {
  scheduler : Scheduler;
  assets : Assets;
  scene : Scene;
  view : CameraState
}.

(** What the frame reads from the window. *)
Record Env : Type := mkEnv {
  preferences : option string;     (* [window.preferences?.threeDimensionMode] *)
  clientWidth : Z;
  clientHeight : Z;
  devicePixelRatio : Q;
  isDark : bool;
  hidden : bool;                   (* [this.content.hidden] *)
  now : Z;                         (* [new Date().getTime()] *)
  frcData : option FRCData;        (* [window.frcData] *)
  (* whether a [controls.update()] of this frame finds the camera moved and
     dispatches "change"; the listener only sets a flag, so one answer
     serves both calls of the camera block *)
  controlsMoved : bool
}.

Definition EFFICIENCY_MAX_FPS : Q := 15.
Definition ORBIT_FOV : Q := 50.

Definition set_shouldRender (b : bool) (st : State) : State :=
  let s := scheduler st in
  {| scheduler := mkScheduler (command s) b (lastFrameTime s) (lastWidth s)
                              (lastHeight s) (lastDevicePixelRatio s)
                              (lastIsDark s) (lastPrefsMode s);
     assets := assets st; scene := scene st; view := view st |}.

(** ** Scene graph: [Object3D.add] and [Object3D.remove] on a children list *)

(** [remove(object)]: splice the object out if it is a child. *)
Fixpoint removeChild (id : nat) (children : list nat) : list nat :=
  match children with
  | [] => []
  | c :: rest => if (c =? id)%nat then rest else c :: removeChild id rest
  end.

(** [add(object)]: detach the object from its parent, then push it. *)
Definition addChild (id : nat) (children : list nat) : list nat :=
  removeChild id children ++ [id].

Section Model.

(** [convert(value, from, to)] of [shared/units]. *)
Variable convert : R -> string -> string -> R.

(** ** Rotation sequences *)

Definition axisVector (a : string) : Vector3 :=
  mkVector3 (if String.eqb a "x" then 1 else 0)
            (if String.eqb a "y" then 1 else 0)
            (if String.eqb a "z" then 1 else 0).

Definition unitRotation (rotation : Config3d_Rotation) : Quaternion :=
  setFromAxisAngle (axisVector (axis rotation))
                   (convert (Q2R (degrees rotation)) "degrees" "radians").

(** [getQuaternionFromRotSeq(rotations)]. *)
Definition getQuaternionFromRotSeq (rotations : list Config3d_Rotation) : Quaternion :=
  fold_left (fun quaternion rotation => premultiply quaternion (unitRotation rotation))
            rotations identity.

(** [rotateTranslationByRotation(position, rotation)]. *)
Definition rotateTranslationByRotation (position : Vector3) (rotation : Quaternion)
  : Vector3 :=
  let p := mkQuaternion (vx position) (vy position) (vz position) 0 in
  let qprime := multiply (multiply rotation p) (invert rotation) in
  mkVector3 (qx qprime) (qy qprime) (qz qprime).

(** ** Asset lifecycle *)

(** The [// Add field] block. *)
Definition addField (fieldTitle : string) (fieldConfig : Config3d_Field) (st : State)
  : State :=
  let a := assets st in
  let sc := scene st in
  if negb (String.eqb fieldTitle (lastFieldTitle a)) then
    {| scheduler := scheduler st;
       assets := mkAssets (lastFrcDataString a) fieldTitle (lastRobotTitle a)
                          (lastRobotVisible a) (field a) (robot a) (robotCameras a)
                          (pending a ++ [FieldLoad fieldConfig]) (nextId a);
       scene := mkScene (match field a with
                         | Some f => removeChild (field_id f) (coordinateChildren sc)
                         | None => coordinateChildren sc
                         end)
                        (fieldCoordinateChildren sc) (fieldCoordinateTransform sc)
                        (coordinateOrigin sc) (greenCones sc) (blueCones sc)
                        (yellowCones sc);
       view := view st |}
  else st.

(** Completion callback of the field load. *)
Definition fieldLoaded (fieldConfig : Config3d_Field) (st : State) : State :=
  let a := assets st in
  let sc := scene st in
  let node := {| field_id := nextId a;
                 field_source := field_path fieldConfig;
                 field_quaternion := getQuaternionFromRotSeq (field_rotations fieldConfig) |} in
  set_shouldRender true
    {| scheduler := scheduler st;
       assets := mkAssets (lastFrcDataString a) (lastFieldTitle a) (lastRobotTitle a)
                          (lastRobotVisible a) (Some node) (robot a) (robotCameras a)
                          (pending a) (S (nextId a));
       scene := mkScene (addChild (nextId a) (coordinateChildren sc))
                        (fieldCoordinateChildren sc) (fieldCoordinateTransform sc)
                        (coordinateOrigin sc) (greenCones sc) (blueCones sc)
                        (yellowCones sc);
       view := view st |}.

(** The [// Add robot] block. *)
Definition addRobot (robotTitle : string) (robotConfig : Config3d_Robot)
           (newFrcData : bool) (st : State) : State :=
  let a := assets st in
  let sc := scene st in
  if negb (String.eqb robotTitle (lastRobotTitle a)) || newFrcData then
    {| scheduler := scheduler st;
       assets := mkAssets (lastFrcDataString a) (lastFieldTitle a) robotTitle
                          (lastRobotVisible a) (field a) None []
                          (pending a ++ [RobotLoad robotConfig]) (nextId a);
       scene := mkScene (coordinateChildren sc)
                        (match robot a with
                         | Some r =>
                             if lastRobotVisible a
                             then removeChild (robot_id r) (fieldCoordinateChildren sc)
                             else fieldCoordinateChildren sc
                         | None => fieldCoordinateChildren sc
                         end)
                        (fieldCoordinateTransform sc)
                        (coordinateOrigin sc) (greenCones sc) (blueCones sc)
                        (yellowCones sc);
       view := view st |}
  else st.

Definition extraRotations : list Config3d_Rotation :=
  [ mkRotation "z" (-90); mkRotation "y" (-90) ].

(** The camera object created for one declared camera. *)
Definition cameraObject (camera : Config3d_Camera) : Transform :=
  {| t_position := vector3_of (camera_position camera);
     t_quaternion := getQuaternionFromRotSeq (extraRotations ++ camera_rotations camera) |}.

(** Completion callback of the robot load. *)
Definition robotLoaded (robotConfig : Config3d_Robot) (st : State) : State :=
  let a := assets st in
  let sc := scene st in
  let node := {| robot_id := nextId a;
                 robot_transform := mkTransform origin identity;
                 model_source := robot_path robotConfig;
                 model_transform :=
                   {| t_position := vector3_of (robot_position robotConfig);
                      t_quaternion := getQuaternionFromRotSeq (robot_rotations robotConfig) |} |} in
  set_shouldRender true
    {| scheduler := scheduler st;
       assets := mkAssets (lastFrcDataString a) (lastFieldTitle a) (lastRobotTitle a)
                          (lastRobotVisible a) (field a) (Some node)
                          (map cameraObject (cameras robotConfig))
                          (pending a) (S (nextId a));
       scene := mkScene (coordinateChildren sc)
                        (if lastRobotVisible a
                         then addChild (nextId a) (fieldCoordinateChildren sc)
                         else fieldCoordinateChildren sc)
                        (fieldCoordinateTransform sc)
                        (coordinateOrigin sc) (greenCones sc) (blueCones sc)
                        (yellowCones sc);
       view := view st |}.

(** ** Coordinate frames *)

(** The [// Update field coordinates] block: the transform given to
    [wpilibFieldCoordinateGroup]. *)
Definition fieldCoordinates (fieldConfig : Config3d_Field) (alliance : string)
  : Transform :=
  let isBlue := String.eqb alliance "blue" in
  {| t_quaternion := setFromAxisAngle (mkVector3 0 0 1) (if isBlue then 0 else PI);
     t_position :=
       mkVector3
         (convert (Q2R (widthInches fieldConfig / 2)) "inches" "meters"
          * (if isBlue then -1 else 1))
         (convert (Q2R (heightInches fieldConfig / 2)) "inches" "meters"
          * (if isBlue then -1 else 1))
         0 |}.

Definition updateFieldCoordinates (fieldConfig : Config3d_Field) (cmd : Command)
           (st : State) : State :=
  let sc := scene st in
  {| scheduler := scheduler st; assets := assets st;
     scene := mkScene (coordinateChildren sc) (fieldCoordinateChildren sc)
                      (fieldCoordinates fieldConfig (opt_alliance (options cmd)))
                      (coordinateOrigin sc) (greenCones sc) (blueCones sc)
                      (yellowCones sc);
     view := view st |}.

(** ** Robot pose *)

Definition poseTransform (pose : Pose3d) : Transform :=
  {| t_position := vector3_of (position pose);
     t_quaternion := quaternion_of (rotation pose) |}.

(** The [// Set robot position] block. *)
Definition setRobotPosition (cmd : Command) (st : State) : State :=
  let a := assets st in
  let sc := scene st in
  match robot a with
  | Some r =>
      let robotPose := pose_robot cmd in
      let children :=
        match robotPose with
        | Some _ =>
            if negb (lastRobotVisible a)
            then addChild (robot_id r) (fieldCoordinateChildren sc)
            else fieldCoordinateChildren sc
        | None =>
            if lastRobotVisible a
            then removeChild (robot_id r) (fieldCoordinateChildren sc)
            else fieldCoordinateChildren sc
        end in
      let r' :=
        match robotPose with
        | Some pose => mkRobotNode (robot_id r) (poseTransform pose)
                                   (model_source r) (model_transform r)
        | None => r
        end in
      {| scheduler := scheduler st;
         assets := mkAssets (lastFrcDataString a) (lastFieldTitle a) (lastRobotTitle a)
                            (match robotPose with Some _ => true | None => false end)
                            (field a) (Some r') (robotCameras a) (pending a) (nextId a);
         scene := mkScene (coordinateChildren sc) children
                          (fieldCoordinateTransform sc) (coordinateOrigin sc)
                          (greenCones sc) (blueCones sc) (yellowCones sc);
         view := view st |}
  | None => st
  end.

(** ** Cones *)

(** [updateCones(poseData, objectArray, ...)]: pop the extra cones off the
    end of the array and out of the group, create and attach the missing
    ones, then give every cone its pose.  Returns the array, the group's
    children and the next free identity. *)
Definition updateCones (poseData : list Pose3d) (objectArray : list Cone)
           (children : list nat) (next : nat) : list Cone * list nat * nat :=
  let n := length poseData in
  let kept := firstn n objectArray in
  let popped := rev (skipn n objectArray) in
  let children1 := fold_left (fun ch c => removeChild (cone_id c) ch) popped children in
  let created := map (fun id => mkCone id (mkTransform origin identity))
                     (seq next (n - length kept)) in
  let children2 := fold_left (fun ch c => addChild (cone_id c) ch) created children1 in
  (map (fun pc => mkCone (cone_id (snd pc)) (poseTransform (fst pc)))
       (combine poseData (kept ++ created)),
   children2,
   (next + (n - length kept))%nat).

(** The [// Update all sets of cones] block. *)
Definition updateAllCones (cmd : Command) (st : State) : State :=
  let a := assets st in
  let sc := scene st in
  let '(green, ch1, n1) :=
    updateCones (pose_green cmd) (greenCones sc) (fieldCoordinateChildren sc) (nextId a) in
  let '(blue, ch2, n2) := updateCones (pose_blue cmd) (blueCones sc) ch1 n1 in
  let '(yellow, ch3, n3) := updateCones (pose_yellow cmd) (yellowCones sc) ch2 n2 in
  {| scheduler := scheduler st;
     assets := mkAssets (lastFrcDataString a) (lastFieldTitle a) (lastRobotTitle a)
                        (lastRobotVisible a) (field a) (robot a) (robotCameras a)
                        (pending a) n3;
     scene := mkScene (coordinateChildren sc) ch3 (fieldCoordinateTransform sc)
                      (coordinateOrigin sc) green blue yellow;
     view := view st |}.

(** ** Camera *)

(** The index after [// Reset camera index if invalid]. *)
Definition resetCameraIndex (index : Z) (mounts : list Transform) : Z :=
  if (Z.of_nat (length mounts) <=? index)%Z then (-1)%Z else index.

(** [this.controls.update()] inside the camera block.  OrbitControls
    dispatches "change" when it finds the camera moved since its last
    update, and the listener the constructor registered for that event
    sets [shouldRender]. *)
Definition controlsUpdate (moved : bool) (s : Scheduler) : Scheduler :=
  if moved
  then mkScheduler (command s) true (lastFrameTime s) (lastWidth s) (lastHeight s)
                   (lastDevicePixelRatio s) (lastIsDark s) (lastPrefsMode s)
  else s.

(** The [// Set camera for fixed views] block.  [None] is the [TypeError]
    raised by [cameraConfig.resolution] when [robotConfig.cameras] has no
    entry at the index. *)
Definition setCamera (moved : bool) (robotConfig : Config3d_Robot) (st : State)
  : option State :=
  let a := assets st in
  let sc := scene st in
  let v := view st in
  let index := resetCameraIndex (cameraIndex v) (robotCameras a) in
  let orbitalCamera := (index <? 0)%Z in
  let s1 :=
    if negb (Bool.eqb orbitalCamera (controlsEnabled v))
    then controlsUpdate moved (scheduler st)
    else scheduler st in
  if orbitalCamera then
    let origin' :=
      if (index =? -1)%Z then OriginDefault
      else match robot a with
           | Some r => OriginRobot r
           | None => coordinateOrigin sc
           end in
    let viewpoint' :=
      if negb (index =? lastCameraIndex v)%Z then
        if (index =? -1)%Z then ViewFieldDefault else ViewRobotDefault
      else viewpoint v in
    let s2 :=
      if negb (index =? lastCameraIndex v)%Z then controlsUpdate moved s1 else s1 in
    Some {| scheduler := s2; assets := a;
            scene := mkScene (coordinateChildren sc) (fieldCoordinateChildren sc)
                             (fieldCoordinateTransform sc) origin'
                             (greenCones sc) (blueCones sc) (yellowCones sc);
            view := mkCameraState index index None true false None ORBIT_FOV viewpoint' |}
  else
    match nth_error (cameras robotConfig) (Z.to_nat index) with
    | None => None
    | Some cameraConfig =>
        let aspectRatio := (fst (resolution cameraConfig) / snd (resolution cameraConfig))%Q in
        let viewpoint' :=
          if lastRobotVisible a then
            match nth_error (robotCameras a) (Z.to_nat index) with
            | Some cameraObj => ViewMount (Z.to_nat index) cameraObj (robot a)
            | None => viewpoint v
            end
          else viewpoint v in
        Some {| scheduler := s1; assets := a; scene := sc;
                view := mkCameraState index index (Some aspectRatio) false true
                                      (Some aspectRatio)
                                      (fov cameraConfig * aspectRatio / 2)%Q
                                      viewpoint' |}
    end.

(** ** The frame *)

(** The two checks at the top of [renderFrame]: render mode, then size,
    pixel ratio and theme. *)
Definition checkTriggers (env : Env) (s : Scheduler) : Scheduler :=
  let s1 :=
    match preferences env with
    | Some mode =>
        if negb (String.eqb mode (lastPrefsMode s))
        then mkScheduler (command s) true (lastFrameTime s) (lastWidth s)
                         (lastHeight s) (lastDevicePixelRatio s) (lastIsDark s) mode
        else s
    | None => s
    end in
  if negb (option_eqb Z.eqb (Some (clientWidth env)) (lastWidth s1))
     || negb (option_eqb Z.eqb (Some (clientHeight env)) (lastHeight s1))
     || negb (option_eqb Qeq_bool (Some (devicePixelRatio env)) (lastDevicePixelRatio s1))
     || negb (option_eqb Bool.eqb (Some (isDark env)) (lastIsDark s1))
  then mkScheduler (command s1) true (lastFrameTime s1) (Some (clientWidth env))
                   (Some (clientHeight env)) (Some (devicePixelRatio env))
                   (Some (isDark env)) (lastPrefsMode s1)
  else s1.

Definition findField (env : Env) (fieldTitle : string) : option Config3d_Field :=
  match frcData env with
  | Some d => find (fun fieldData => String.eqb (field_title fieldData) fieldTitle) (field3ds d)
  | None => None
  end.

Definition findRobot (env : Env) (robotTitle : string) : option Config3d_Robot :=
  match frcData env with
  | Some d => find (fun robotData => String.eqb (robot_title robotData) robotTitle) (robots d)
  | None => None
  end.

(** The [// Check for new FRC data] block: the flag and the updated state. *)
Definition checkFrcData (env : Env) (st : State) : bool * State :=
  let a := assets st in
  let newFrcData := negb (option_eqb frcData_eqb (frcData env) (lastFrcDataString a)) in
  (newFrcData,
   if newFrcData then
     {| scheduler := scheduler st;
        assets := mkAssets (frcData env) (lastFieldTitle a) (lastRobotTitle a)
                           (lastRobotVisible a) (field a) (robot a) (robotCameras a)
                           (pending a) (nextId a);
        scene := scene st; view := view st |}
   else st).

(** [renderFrame] from [// Get config] to the end of the camera block.
    Drawing the composed scene on the canvas changes none of the fields
    modelled here. *)
Definition renderScene (env : Env) (cmd : Command) (st : State) : option State :=
  let fieldTitle := opt_field (options cmd) in
  let robotTitle := opt_robot (options cmd) in
  match findField env fieldTitle, findRobot env robotTitle with
  | Some fieldConfig, Some robotConfig =>
      let (newFrcData, st1) := checkFrcData env st in
      let st2 := addField fieldTitle fieldConfig st1 in
      let st3 := addRobot robotTitle robotConfig newFrcData st2 in
      let st4 := updateFieldCoordinates fieldConfig cmd st3 in
      let st5 := setRobotPosition cmd st4 in
      let st6 := updateAllCones cmd st5 in
      setCamera (controlsMoved env) robotConfig st6
  | _, _ => Some st
  end.

(** [renderFrame()]; [None] when the frame raises. *)
Definition renderFrame (env : Env) (st : State) : option State :=
  let s := checkTriggers env (scheduler st) in
  let st1 := mkState s (assets st) (scene st) (view st) in
  match command s with
  | None => Some st1
  | Some cmd =>
      if hidden env then Some st1
      else if option_eqb String.eqb (preferences env) (Some "efficiency")
              && Qlt_bool (inject_Z (now env - lastFrameTime s))
                          (1000 / EFFICIENCY_MAX_FPS)%Q
      then Some st1
      else if negb (shouldRender s) then Some st1
      else
        renderScene env cmd
          (mkState (mkScheduler (command s) false (now env) (lastWidth s)
                                (lastHeight s) (lastDevicePixelRatio s)
                                (lastIsDark s) (lastPrefsMode s))
                   (assets st) (scene st) (view st))
  end.

(** [render(command)]: the new state and the returned aspect ratio. *)
Definition render (cmd : option Command) (st : State) : State * option Q :=
  let s := scheduler st in
  (mkState (mkScheduler cmd
                        (if negb (option_eqb command_eqb cmd (command s))
                         then true else shouldRender s)
                        (lastFrameTime s) (lastWidth s) (lastHeight s)
                        (lastDevicePixelRatio s) (lastIsDark s) (lastPrefsMode s))
           (assets st) (scene st) (view st),
   lastAspectRatio (view st)).

(** [set3DCamera(index)]. *)
Definition set3DCamera (index : Z) (st : State) : State :=
  let v := view st in
  set_shouldRender true
    (mkState (scheduler st) (assets st) (scene st)
             (mkCameraState index (lastCameraIndex v) (lastAspectRatio v)
                            (controlsEnabled v) (canvasFixed v)
                            (canvasAspectRatio v) (cameraFov v) (viewpoint v))).

(** ** Load completion *)

Fixpoint removeNth {A : Type} (k : nat) (l : list A) : list A :=
  match l, k with
  | [], _ => []
  | _ :: rest, O => rest
  | x :: rest, S k' => x :: removeNth k' rest
  end.

Definition dropPending (k : nat) (st : State) : State :=
  let a := assets st in
  {| scheduler := scheduler st;
     assets := mkAssets (lastFrcDataString a) (lastFieldTitle a) (lastRobotTitle a)
                        (lastRobotVisible a) (field a) (robot a) (robotCameras a)
                        (removeNth k (pending a)) (nextId a);
     scene := scene st; view := view st |}.

(** The [k]-th pending load completes and its callback runs. *)
Definition completeLoad (k : nat) (st : State) : State :=
  match nth_error (pending (assets st)) k with
  | Some (FieldLoad fieldConfig) => fieldLoaded fieldConfig (dropPending k st)
  | Some (RobotLoad robotConfig) => robotLoaded robotConfig (dropPending k st)
  | None => st
  end.

(** ** The visualizer as a transition system *)

Inductive Event : Type :=
| Render (cmd : option Command)      (* [render(command)] *)
| Set3DCamera (index : Z)            (* [set3DCamera(index)] *)
| ControlsChange                     (* the orbit controls' "change" event *)
| Frame (env : Env)                  (* one animation frame *)
| LoadCompleted (k : nat)            (* the loader calls back for pending load [k] *)
| LoadFailed (k : nat).              (* pending load [k] fails: no callback was given *)

Definition step (st : State) (e : Event) : option State :=
  match e with
  | Render cmd => Some (fst (render cmd st))
  | Set3DCamera index => Some (set3DCamera index st)
  | ControlsChange => Some (set_shouldRender true st)
  | Frame env => renderFrame env st
  | LoadCompleted k => Some (completeLoad k st)
  | LoadFailed k => Some (dropPending k st)
  end.

Fixpoint run (st : State) (events : list Event) : option State :=
  match events with
  | [] => Some st
  | e :: rest =>
      match step st e with
      | Some st' => run st' rest
      | None => None
      end
  end.

(** The state the constructor leaves. *)
Definition initial : State :=
  {| scheduler := mkScheduler None false 0 (Some 0%Z) (Some 0%Z) None None "";
     assets := mkAssets None "" "" false None None [] [] 0;
     scene := mkScene [] [] (mkTransform origin identity) OriginDefault [] [] [];
     view := mkCameraState (-1) (-1) None true false None ORBIT_FOV ViewFieldDefault |}.

Definition reachable (st : State) : Prop :=
  exists events, run initial events = Some st.

End Model.

End Visualizer.

(** * Vocabulary of the statements *)

Module OdometrySpec.

Import Odometry.
Local Open Scope Q_scope.

(** A flattened sequence of (x, y, heading) triples. *)
Fixpoint flattenTriples (triples : list (Q * Q * Q)) : list Q :=
  match triples with
  | [] => []
  | (x, y, h) :: rest => x :: y :: h :: flattenTriples rest
  end.

(** The pose one (x, y, heading) triple becomes. *)
Definition tripleToPose (convert : Q -> string -> string -> Q)
           (UNIT_DISTANCE UNIT_ROTATION : string) (t : Q * Q * Q) : Pose2d :=
  let '(x, y, h) := t in
  {| translation := (convert x UNIT_DISTANCE "meters", convert y UNIT_DISTANCE "meters");
     rotation := convert h UNIT_ROTATION "radians" |}.

(** Number of iterations of the outer sample loop of the heatmap case. *)
Definition sampleCount (timestamp nextTimestamp : Q) : nat :=
  Z.to_nat (Qceiling ((nextTimestamp - timestamp) / HEATMAP_DT)).

(** The minimum-spacing filter as the specification words it: the first
    sample is always kept, and a later sample is kept exactly when its
    timestamp is at least [HEATMAP_DT] after the previously kept one. *)
Fixpoint spacingAfter (lastKept : Q) (samples : list HeatmapSample) : list Translation2d :=
  match samples with
  | [] => []
  | s :: rest =>
      if Qle_bool HEATMAP_DT (timestamp s - lastKept)
      then value s :: spacingAfter (timestamp s) rest
      else spacingAfter lastKept rest
  end.

Definition minimumSpacing (samples : list HeatmapSample) : list Translation2d :=
  match samples with
  | [] => []
  | s :: rest => value s :: spacingAfter (timestamp s) rest
  end.

(** The samples, rather than their values, that the filter loop keeps;
    [snd] is [lastTimestamp]. *)
Definition keptStep (st : list HeatmapSample * Q) (sample : HeatmapSample)
  : list HeatmapSample * Q :=
  if keepSample (snd st) sample then (fst st ++ [sample], timestamp sample) else st.

Definition keptSamples (samples : list HeatmapSample) : list HeatmapSample :=
  fst (fold_left keptStep samples ([], 0)).

(** Timestamp of the previously kept sample; 0 before any sample is kept. *)
Definition previousKept (samples : list HeatmapSample) : Q :=
  last (map timestamp (keptSamples samples)) 0.



(** Timestamps in ascending order. *)
Fixpoint ascending (samples : list HeatmapSample) : Prop :=
  match samples with
  | [] => True
  | s :: rest =>
      (match rest with [] => True | s' :: _ => timestamp s <= timestamp s' end)
      /\ ascending rest
  end.

End OdometrySpec.

Module VisualizerSpec.

Import Three Visualizer.
Local Open Scope R_scope.

(** Modelled from the spec: [convert(value, from, to)] of [shared/units],
    which is not among the sources.  The specification fixes the two
    conversions the visualizer asks for: degrees to radians and inches to
    meters. *)
Definition unitsConvert (value : R) (from to : string) : R :=
  if String.eqb from "degrees" && String.eqb to "radians" then value * PI / 180
  else if String.eqb from "inches" && String.eqb to "meters" then value * (254 / 10000)
  else value.


(** A transform shows a telemetry pose: its position is the pose's
    (x, y, z), and its rotation is the pose's quaternion, which the
    telemetry lists scalar first, as (w, x, y, z). *)
Definition placedAt (pose : Pose3d) (t : Transform) : Prop :=
  let '(x, y, z) := position pose in
  let '(w, i, j, k) := rotation pose in
  t_position t = mkVector3 (Q2R x) (Q2R y) (Q2R z)
  /\ t_quaternion t = mkQuaternion (Q2R i) (Q2R j) (Q2R k) (Q2R w).

Definition coneIds (sc : Scene) : list nat :=
  map cone_id (greenCones sc ++ blueCones sc ++ yellowCones sc).

(** Scene-graph invariant of the visualizer: children are distinct, every
    identity in use was allocated, and the current robot node is a child of
    the field coordinate group exactly when the robot was last visible. *)
Definition sceneInvariant (st : State) : Prop :=
  let a := assets st in
  let sc := scene st in
  NoDup (coordinateChildren sc)
  /\ NoDup (fieldCoordinateChildren sc)
  /\ (forall id, In id (coordinateChildren sc) -> (id < nextId a)%nat)
  /\ (forall id, In id (fieldCoordinateChildren sc) -> (id < nextId a)%nat)
  /\ (forall id, In id (coneIds sc) -> (id < nextId a)%nat)
  /\ (forall r, robot a = Some r ->
        (robot_id r < nextId a)%nat
        /\ ~ In (robot_id r) (coneIds sc)
        /\ (In (robot_id r) (fieldCoordinateChildren sc) <-> lastRobotVisible a = true)).

Definition isRobotLoad (req : LoadRequest) : bool :=
  match req with
  | RobotLoad _ => true
  | FieldLoad _ => false
  end.

(** The pending loads after the two asset blocks of a frame. *)
Definition pendingAfter (fieldTitle robotTitle : string) (fieldConfig : Config3d_Field)
           (robotConfig : Config3d_Robot) (newFrcData : bool) (a : Assets)
  : list LoadRequest :=
  (pending a
   ++ (if negb (String.eqb fieldTitle (lastFieldTitle a)) then [FieldLoad fieldConfig] else []))
  ++ (if negb (String.eqb robotTitle (lastRobotTitle a)) || newFrcData
      then [RobotLoad robotConfig] else []).

(** The state of a rendered frame when it reaches the camera block. *)
Definition beforeCamera (convert : R -> string -> string -> R) (env : Env) (cmd : Command)
           (fieldConfig : Config3d_Field) (robotConfig : Config3d_Robot) (st : State)
  : State :=
  let (newFrcData, st1) := checkFrcData env st in
  updateAllCones cmd
    (setRobotPosition cmd
       (updateFieldCoordinates convert fieldConfig cmd
          (addRobot (opt_robot (options cmd)) robotConfig newFrcData
             (addField (opt_field (options cmd)) fieldConfig st1)))).

End VisualizerSpec.

(** * A session used in the examples *)

Module Scenario.

Import Three Visualizer VisualizerSpec.

Definition camera (name : string) : Config3d_Camera :=
  mkCamera name [mkRotation "y" 10] (0, 0, 1 # 2)%Q (640, 480)%Q 60.

Definition robotZ : Config3d_Robot :=
  mkRobotConfig "Z" "robots/z.glb" [mkRotation "z" 90] (0, 0, 0)%Q
                [camera "front"; camera "back"].

Definition robotA : Config3d_Robot :=
  mkRobotConfig "A" "robots/a.glb" [mkRotation "x" 90] (0, 0, 0)%Q
                [camera "front"; camera "back"].

Definition robotB : Config3d_Robot :=
  mkRobotConfig "B" "robots/b.glb" [] (0, 0, 0)%Q [camera "front"].

Definition field1 : Config3d_Field :=
  mkFieldConfig "F1" "fields/f1.glb" [mkRotation "x" 90] 651 315.

Definition field2 : Config3d_Field :=
  mkFieldConfig "F2" "fields/f2.glb" [] 648 324.

Definition catalog : FRCData := mkFRCData [field1; field2] [robotZ; robotA; robotB].

(** The window at time [now]: visible, default rendering mode. *)
Definition window (now : Z) : Env :=
  mkEnv (Some "cinematic") 800 600 1 false false now (Some catalog) true.

Definition pose : Pose3d := mkPose3d (1, 2, 0)%Q (1, 0, 0, 0)%Q.

Definition commandFor (fieldTitle robotTitle : string) (robotPose : option Pose3d) : Command :=
  mkCommand (mkOptions fieldTitle robotTitle "blue") robotPose [] [] [].

(** Field "F1" and robot "Z" are requested, both loads complete, and the
    next frame shows the robot at [pose]. *)
Definition robotShown : list Event :=
  [ Render (Some (commandFor "F1" "Z" (Some pose))); Frame (window 100);
    LoadCompleted 0; LoadCompleted 0; Frame (window 200) ].

(** Then a command without robot pose is drawn. *)
Definition robotHidden : list Event :=
  robotShown ++ [ Render (Some (commandFor "F1" "Z" None)); Frame (window 300) ].

(** Then robot "A" is requested and, before its load completes, robot "B". *)
Definition robotSuperseded : list Event :=
  robotShown
  ++ [ Render (Some (commandFor "F1" "A" (Some pose))); Frame (window 300);
       Render (Some (commandFor "F1" "B" (Some pose))); Frame (window 400) ].

(** Or, instead, field "F2" is requested. *)
Definition fieldReplaced : list Event :=
  robotShown
  ++ [ Render (Some (commandFor "F2" "Z" (Some pose))); Frame (window 300) ].

(** The state a run ends in ([initial] if a frame raised). *)
Definition stateAfter (events : list Event) : State :=
  match run unitsConvert initial events with
  | Some st => st
  | None => initial
  end.

End Scenario.

(** * Vocabulary of the further statements *)

Module OdometryCoverage.

Import Odometry.
Local Open Scope Q_scope.

(** The point the trail of robot [i] gains from one trail value. *)
Definition trailPoint (convert : Q -> string -> string -> Q) (UNIT_DISTANCE : string)
           (i : nat) (v : list Q) : Translation2d :=
  (convert (at_index v (i * 3)) UNIT_DISTANCE "meters",
   convert (at_index v (i * 3 + 1)) UNIT_DISTANCE "meters").

(** Does a trail value hold a pose for robot [i]? *)
Definition holdsPose (i : nat) (v : list Q) : bool :=
  (length v mod 3 =? 0)%nat && (i <? length v / 3)%nat.

(** Every sample passes the spacing test against the sample before it, the
    first one against [previous]. *)
Fixpoint spacedFrom (previous : Q) (samples : list HeatmapSample) : Prop :=
  match samples with
  | [] => True
  | s :: rest =>
      (timestamp s == previous \/ HEATMAP_DT <= timestamp s - previous)
      /\ spacedFrom (timestamp s) rest
  end.

(** The test [field.type == type] of the field loop. *)
Definition hasType (type : string) (field : string * string) : bool :=
  String.eqb (snd field) type.

(** Two samples with the same timestamp. *)
Definition simultaneous (t : Q) (s : HeatmapSample) : bool :=
  Qeq_bool (timestamp s) t.

(** The samples the filter loop keeps from [samples] when [lastTimestamp]
    is the timestamp it starts from. *)
Fixpoint keptFrom (lastTimestamp : Q) (samples : list HeatmapSample) : list HeatmapSample :=
  match samples with
  | [] => []
  | s :: rest =>
      if keepSample lastTimestamp s then s :: keptFrom (timestamp s) rest
      else keptFrom lastTimestamp rest
  end.

Section FieldLoop.

Variable convert : Q -> string -> string -> Q.
Variable getNumberArray : string -> Bound -> Bound -> option LogData.
Variable UNIT_DISTANCE UNIT_ROTATION : string.
Variable getEnabledData : option EnabledData.

(** A field on which the heatmap case of the field loop raises. *)
Definition raisingField (field : string * string) : Prop :=
  snd field = "Heatmap (Enabled)" /\ getEnabledData = None
  /\ exists d, getNumberArray (fst field) NegInfinity Infinity = Some d /\ d <> [].

(** The poses a field decodes to at [time]. *)
Definition decoded (time : Q) (field : string * string) : list Pose2d :=
  getCurrentValue convert getNumberArray UNIT_DISTANCE UNIT_ROTATION time (fst field).

(** The trails of a field's robots at [time]. *)
Definition trailsOf (time : Q) (field : string * string) : list (list Translation2d) :=
  getTrails convert getNumberArray UNIT_DISTANCE time (fst field) (decoded time field).

Definition isHeatmap (field : string * string) : bool :=
  hasType "Heatmap" field || hasType "Heatmap (Enabled)" field.

(** The samples a heatmap field pushes; none when its callback raises. *)
Definition samplesOf (field : string * string) : list HeatmapSample :=
  match heatmapField convert getNumberArray UNIT_DISTANCE getEnabledData
                     (hasType "Heatmap (Enabled)" field) (fst field) with
  | Some pushed => pushed
  | None => []
  end.

(** The arrays of the field loop, by field type and in field order. *)
Definition collectedBy (time : Q) (fields : list (string * string)) : Collected :=
  {| robotData := flat_map (decoded time) (filter (hasType "Robot") fields);
     trailData := flat_map (trailsOf time) (filter (hasType "Robot") fields);
     ghostData := flat_map (decoded time) (filter (hasType "Ghost") fields);
     trajectoryData := map (decoded time) (filter (hasType "Trajectory") fields);
     visionTargetData := flat_map (decoded time) (filter (hasType "Vision Target") fields);
     heatmapData := flat_map samplesOf (filter isHeatmap fields);
     arrowFrontData := flat_map (decoded time) (filter (hasType "Arrow (Front)") fields);
     arrowCenterData := flat_map (decoded time) (filter (hasType "Arrow (Center)") fields);
     arrowBackData := flat_map (decoded time) (filter (hasType "Arrow (Back)") fields) |}.

End FieldLoop.

(** Field by field concatenation of two sets of arrays. *)
Definition appendCollected (a b : Collected) : Collected :=
  {| robotData := robotData a ++ robotData b;
     trailData := trailData a ++ trailData b;
     ghostData := ghostData a ++ ghostData b;
     trajectoryData := trajectoryData a ++ trajectoryData b;
     visionTargetData := visionTargetData a ++ visionTargetData b;
     heatmapData := heatmapData a ++ heatmapData b;
     arrowFrontData := arrowFrontData a ++ arrowFrontData b;
     arrowCenterData := arrowCenterData a ++ arrowCenterData b;
     arrowBackData := arrowBackData a ++ arrowBackData b |}.

End OdometryCoverage.

Module VisualizerCoverage.

Import Three Visualizer.
Local Open Scope R_scope.

(** Squared norm of a quaternion and squared length of a vector. *)
Definition normSquared (q : Quaternion) : R :=
  qx q * qx q + qy q * qy q + qz q * qz q + qw q * qw q.

Definition lengthSquared (v : Vector3) : R :=
  vx v * vx v + vy v * vy v + vz v * vz v.

(** The axis names [Config3d_Rotation] declares. *)
Definition knownAxis (rotation : Config3d_Rotation) : Prop :=
  axis rotation = "x" \/ axis rotation = "y" \/ axis rotation = "z".

(** Two readings of the window that agree on everything the redraw triggers
    look at; the clock, the visibility and the asset catalog may differ. *)
Definition sameWindow (env env' : Env) : Prop :=
  preferences env' = preferences env
  /\ clientWidth env' = clientWidth env
  /\ clientHeight env' = clientHeight env
  /\ devicePixelRatio env' = devicePixelRatio env
  /\ isDark env' = isDark env.

(** The scheduler holds the render mode, size, pixel ratio and theme of the
    window, so that no redraw trigger fires. *)
Definition triggersSettled (env : Env) (s : Scheduler) : Prop :=
  match preferences env with
  | Some mode => mode = lastPrefsMode s
  | None => True
  end
  /\ lastWidth s = Some (clientWidth env)
  /\ lastHeight s = Some (clientHeight env)
  /\ (exists ratio, lastDevicePixelRatio s = Some ratio
                    /\ Qeq_bool (devicePixelRatio env) ratio = true)
  /\ lastIsDark s = Some (isDark env).

(** Did the camera block of a frame from [st] to [st'] call
    [controls.update()]?  It does when it flips the orbit controls' enabled
    flag, and, in orbit, when the index differs from the last frame's. *)
Definition controlsUpdated (st st' : State) : bool :=
  negb (Bool.eqb (controlsEnabled (view st')) (controlsEnabled (view st)))
  || (controlsEnabled (view st')
      && negb (cameraIndex (view st') =? lastCameraIndex (view st))%Z).

(** Is the event an animation frame? *)
Definition isFrame (e : Event) : bool :=
  match e with
  | Frame _ => true
  | _ => false
  end.

End VisualizerCoverage.

Module CoverageScenario.

Import Three Visualizer VisualizerSpec Scenario.

(** After robot "B" superseded robot "A", the load of "B" completes before
    the load of "A"; then the second camera is selected and a frame runs. *)
Definition staleMounts : list Event :=
  robotSuperseded ++ [ LoadCompleted 1; LoadCompleted 0; Set3DCamera 1 ].

Definition staleMountsFrame : list Event :=
  staleMounts ++ [ Frame (window 500) ].

(** A first command: field "F1", robot "Z", red alliance, one green and
    two yellow cones. *)
Definition coneCommand : Command :=
  mkCommand (mkOptions "F1" "Z" "red") (Some pose) [pose] [] [pose; pose].

Definition commandSent : list Event := [ Render (Some coneCommand) ].

End CoverageScenario.

Module OdometryScenario.

Import Odometry.
Local Open Scope Q_scope.

Definition convert (value : Q) (_ _ : string) : Q := value.

(** A log with two robots under "/pose", logged at 0 s and 1 s. *)
Definition log (key : string) (_ _ : Bound) : option LogData :=
  if String.eqb key "/pose"
  then Some [(0, [1; 2; 3; 4; 5; 6]); (1, [2; 3; 4; 5; 6; 7])]
  else None.

Definition fields : list (string * string) :=
  [("/pose", "Robot"); ("/pose", "Trajectory"); ("/none", "Ghost"); ("/pose", "Note")].

End OdometryScenario.

(** * Properties *)

Lemma Qlt_bool_iff (x y : Q) : Qlt_bool x y = true <-> (x < y)%Q.
Proof.
  unfold Qlt_bool. rewrite negb_true_iff. split; intro H.
  - apply Qnot_le_lt. intro L. apply Qle_bool_iff in L. congruence.
  - destruct (Qle_bool y x) eqn:E; [|reflexivity].
    apply Qle_bool_iff in E. exfalso. exact (Qlt_not_le _ _ H E).
Qed.

Lemma Qlt_bool_false_iff (x y : Q) : Qlt_bool x y = false <-> (y <= x)%Q.
Proof.
  unfold Qlt_bool. rewrite negb_false_iff. apply Qle_bool_iff.
Qed.

(** ** Point-role decoding *)

Section DecodingFacts.

Import Odometry OdometrySpec.
Local Open Scope Q_scope.

Variable convert : Q -> string -> string -> Q.
Variable getNumberArray : string -> Bound -> Bound -> option LogData.
Variable UNIT_DISTANCE UNIT_ROTATION : string.

Lemma flattenTriples_length triples :
  length (flattenTriples triples) = (3 * length triples)%nat.
Proof.
  induction triples as [|[[x y] h] rest IH]; simpl; [reflexivity|].
  rewrite IH. lia.
Qed.

(** Reading three entries starting at the end of a prefix. *)
Lemma at_index_after (pre rest : list Q) k :
  at_index (pre ++ rest) (length pre + k) = at_index rest k.
Proof.
  unfold at_index. rewrite app_nth2 by lia. f_equal. lia.
Qed.

(** The loop, started where the remaining triples begin, decodes them;
    any fuel at least their number is enough. *)
Lemma posesFrom_triples triples :
  forall pre fuel,
    (length triples <= fuel)%nat ->
    posesFrom convert UNIT_DISTANCE UNIT_ROTATION fuel (length pre)
              (pre ++ flattenTriples triples)
    = map (tripleToPose convert UNIT_DISTANCE UNIT_ROTATION) triples.
Proof.
  induction triples as [|[[x y] h] rest IH]; intros pre fuel Hfuel.
  - simpl. rewrite app_nil_r. destruct fuel; simpl; [reflexivity|].
    rewrite Nat.ltb_irrefl. reflexivity.
  - destruct fuel as [|fuel]; [simpl in Hfuel; lia|].
    cbn [posesFrom flattenTriples map].
    assert (Hlt : (length pre <? length (pre ++ x :: y :: h :: flattenTriples rest))%nat = true).
    { apply Nat.ltb_lt. rewrite length_app. simpl. lia. }
    rewrite Hlt. f_equal.
    + unfold tripleToPose.
      rewrite <- (Nat.add_0_r (length pre)) at 1.
      rewrite !at_index_after. reflexivity.
    + replace (pre ++ x :: y :: h :: flattenTriples rest)
        with ((pre ++ [x; y; h]) ++ flattenTriples rest)
        by (rewrite <- app_assoc; reflexivity).
      replace (length pre + 3)%nat with (length (pre ++ [x; y; h]))
        by (rewrite length_app; reflexivity).
      apply IH. simpl in Hfuel. lia.
Qed.

(** Every array whose length is a multiple of 3 is a flattened sequence
    of triples. *)
Lemma multiple_of_three_flatten :
  forall n (v : list Q), length v = (3 * n)%nat -> exists triples, v = flattenTriples triples.
Proof.
  induction n as [|n IH]; intros v Hlen.
  - destruct v; [exists []; reflexivity | simpl in Hlen; lia].
  - destruct v as [|x [|y [|h rest]]]; simpl in Hlen; try lia.
    destruct (IH rest) as [triples ->]; [lia|].
    exists ((x, y, h) :: triples). reflexivity.
Qed.

(** C6.  A sample at or before the evaluation time is decoded by a point
    role as follows: a length-2 sample yields exactly one pose with the
    converted translation and rotation 0; a sample whose length is a
    multiple of 3 is a flattened sequence of (x, y, heading) triples and
    yields one pose per triple, in order; a sample of any other length
    yields the empty pose list. *)
Theorem getCurrentValue_decoding
        (time : Q) (key : string) (t0 : Q) (v : list Q) (rest : LogData)
        (Hquery : getNumberArray key (Finite time) (Finite time) = Some ((t0, v) :: rest))
        (Hbefore : t0 <= time) :
  let decoded :=
    getCurrentValue convert getNumberArray UNIT_DISTANCE UNIT_ROTATION time key in
  (forall x y, v = [x; y] ->
     decoded = [ {| translation := (convert x UNIT_DISTANCE "meters",
                                    convert y UNIT_DISTANCE "meters");
                    rotation := 0 |} ])
  /\ ((length v mod 3 = 0)%nat ->
      exists triples,
        v = flattenTriples triples
        /\ decoded = map (tripleToPose convert UNIT_DISTANCE UNIT_ROTATION) triples)
  /\ (length v <> 2%nat -> (length v mod 3 <> 0)%nat -> decoded = []).
Proof.
  intro decoded. subst decoded. unfold getCurrentValue. rewrite Hquery.
  apply Qle_bool_iff in Hbefore. rewrite Hbefore. cbn [andb].
  repeat split.
  - intros x y ->. reflexivity.
  - intro Hmod.
    destruct (multiple_of_three_flatten (length v / 3) v) as [triples Hv].
    { pose proof (Nat.div_mod_eq (length v) 3). lia. }
    exists triples. split; [exact Hv|].
    assert (Hnot2 : (length v =? 2)%nat = false).
    { apply Nat.eqb_neq. intro H2. rewrite H2 in Hmod. discriminate Hmod. }
    rewrite Hnot2. cbn [orb].
    apply Nat.eqb_eq in Hmod. rewrite Hmod.
    rewrite Hv. rewrite flattenTriples_length.
    apply (posesFrom_triples triples []). lia.
  - intros Hnot2 Hmod.
    apply Nat.eqb_neq in Hnot2. apply Nat.eqb_neq in Hmod.
    rewrite Hnot2, Hmod. reflexivity.
Qed.

End DecodingFacts.

(** A 14-number sample decodes to no pose. *)
Lemma getCurrentValue_decoding_witness :
  let convert := fun (x : Q) (_ _ : string) => x in
  let sample := [1; 2; 3; 4; 5; 6; 7; 8; 9; 10; 11; 12; 13; 14]%Q in
  let log := fun (_ : string) (_ _ : Odometry.Bound) => Some [(0%Q, sample)] in
  (0 <= 1)%Q
  /\ Odometry.getCurrentValue convert log "meters" "radians" 1 "/Pose" = [].
Proof.
  intros convert sample log. split; [discriminate|].
  apply (getCurrentValue_decoding convert log "meters" "radians" 1 "/Pose" 0 sample []
           eq_refl).
  - discriminate.
  - simpl. discriminate.
  - vm_compute. discriminate.
Defined.

(** ** Trail trimming *)

Section TrailFacts.

Import Odometry.
Local Open Scope Q_scope.

Lemma trimFirst_cases (time : Q) (d : LogData) :
  (d = [] /\ trimFirst time d = [])
  \/ (exists s r, d = s :: r
      /\ ((TRAIL_LENGTH_SECS < time - fst s /\ trimFirst time d = r)
          \/ (time - fst s <= TRAIL_LENGTH_SECS /\ trimFirst time d = d))).
Proof.
  destruct d as [|[t0 v0] r]; [left; split; reflexivity|].
  right. exists (t0, v0), r. split; [reflexivity|].
  unfold trimFirst. destruct (Qlt_bool TRAIL_LENGTH_SECS (time - t0)) eqn:E.
  - left. split; [apply Qlt_bool_iff; exact E | reflexivity].
  - right. split; [apply Qlt_bool_false_iff; exact E | reflexivity].
Qed.

Lemma trimLast_cases (time : Q) (d : LogData) :
  (d = [] /\ trimLast time d = [])
  \/ (exists r l, d = r ++ [l]
      /\ ((TRAIL_LENGTH_SECS < fst l - time /\ trimLast time d = r)
          \/ (fst l - time <= TRAIL_LENGTH_SECS /\ trimLast time d = d))).
Proof.
  destruct d as [|x d'] using rev_ind; [left; split; reflexivity|].
  clear IHd'. right. destruct x as [tl vl]. exists d', (tl, vl).
  split; [reflexivity|].
  unfold trimLast. rewrite rev_app_distr. cbn [rev app].
  destruct (Qlt_bool TRAIL_LENGTH_SECS (tl - time)) eqn:E.
  - left. split; [apply Qlt_bool_iff; exact E | apply removelast_last].
  - right. split; [apply Qlt_bool_false_iff; exact E | reflexivity].
Qed.

(** A sample cannot be more than the trail length on both sides of [time]. *)
Lemma not_both_sides (time t : Q) :
  TRAIL_LENGTH_SECS < time - t -> TRAIL_LENGTH_SECS < t - time -> False.
Proof.
  unfold TRAIL_LENGTH_SECS. intros H1 H2.
  assert (H : 5 + 5 < (time - t) + (t - time)) by (apply Qplus_lt_le_compat; [exact H1 | apply Qlt_le_weak; exact H2]).
  assert (E : (time - t) + (t - time) == 0) by ring.
  rewrite E in H. revert H. apply Qle_not_lt. discriminate.
Qed.

Lemma last_unique {A : Type} (r r' : list A) (x y : A) :
  r ++ [x] = r' ++ [y] -> x = y.
Proof. intro H. apply app_inj_tail in H. tauto. Qed.

Ltac trim_goals :=
  split; [ | split; [ simpl; lia | split; [ simpl; lia | split ] ] ].
Ltac trim_iff s0 H r0 Hgt :=
  intros s0; split; [ intro H | intros [[r0 H] Hgt] ].

Lemma trimTrail_scenario (t : Q) (v1 v2 v3 v4 : list Q) :
  trimTrail t [(t - 6, v1); (t - 3, v2); (t + 2, v3); (t + 7, v4)]
  = [(t - 3, v2); (t + 2, v3)].
Proof.
  intros. unfold trimTrail, trimFirst.
  assert (H1 : Qlt_bool TRAIL_LENGTH_SECS (t - (t - 6)) = true).
  { apply Qlt_bool_iff. unfold TRAIL_LENGTH_SECS.
    assert (E : t - (t - 6) == 6) by ring. rewrite E. reflexivity. }
  rewrite H1. unfold trimLast. cbn [rev app].
  assert (H2 : Qlt_bool TRAIL_LENGTH_SECS (t + 7 - t) = true).
  { apply Qlt_bool_iff. unfold TRAIL_LENGTH_SECS.
    assert (E : t + 7 - t == 7) by ring. rewrite E. reflexivity. }
  rewrite H2. reflexivity.
Qed.

(** C8.  Trimming the trail query result removes at most one sample at
    each end: the result is the query result without a prefix and a
    suffix of length at most 1; the first returned sample is removed
    exactly when it is more than [TRAIL_LENGTH_SECS] before [time], the
    last returned sample exactly when it is more than
    [TRAIL_LENGTH_SECS] after [time].  For returned timestamps
    [t-6, t-3, t+2, t+7] the kept samples are exactly those at
    [t-3, t+2]. *)
Theorem trimTrail_boundary :
  (forall (time : Q) (d : LogData),
      exists pre post,
        d = pre ++ trimTrail time d ++ post
        /\ (length pre <= 1)%nat /\ (length post <= 1)%nat
        /\ (forall s, pre = [s] <->
                        (exists r, d = s :: r) /\ TRAIL_LENGTH_SECS < time - fst s)
        /\ (forall s, post = [s] <->
                        (exists r, d = r ++ [s]) /\ TRAIL_LENGTH_SECS < fst s - time))
  /\ (forall (t : Q) (v1 v2 v3 v4 : list Q),
        trimTrail t [(t - 6, v1); (t - 3, v2); (t + 2, v3); (t + 7, v4)]
        = [(t - 3, v2); (t + 2, v3)]).
Proof.
  split; [|exact trimTrail_scenario].
  intros time d.
  unfold trimTrail.
  destruct (trimFirst_cases time d) as [[Hd Hf] | (s & r & Hd & [[Hc Hf] | [Hc Hf]])];
    rewrite Hf.
  - exists [], []. subst d. trim_goals.
    + reflexivity.
    + trim_iff s0 H r0 Hgt; discriminate H.
    + trim_iff s0 H r0 Hgt; [discriminate H | destruct r0; discriminate H].
  - destruct (trimLast_cases time r) as [[Hr Hl] | (r' & l & Hr & [[Hc2 Hl] | [Hc2 Hl]])];
      rewrite Hl; subst d r.
    + exists [s], []. trim_goals.
      * reflexivity.
      * trim_iff s0 H r0 Hgt.
        -- injection H as <-. split; [exists []; reflexivity | exact Hc].
        -- congruence.
      * trim_iff s0 H r0 Hgt; [discriminate H|].
        apply (last_unique [] r0) in H. subst s0.
        destruct (not_both_sides _ _ Hc Hgt).
    + exists [s], [l]. trim_goals.
      * reflexivity.
      * trim_iff s0 H r0 Hgt.
        -- injection H as <-. split; [exists (r' ++ [l]); reflexivity | exact Hc].
        -- congruence.
      * trim_iff s0 H r0 Hgt.
        -- injection H as <-. split; [exists (s :: r'); reflexivity | exact Hc2].
        -- apply (last_unique (s :: r') r0) in H. congruence.
    + exists [s], []. trim_goals.
      * now rewrite app_nil_r.
      * trim_iff s0 H r0 Hgt.
        -- injection H as <-. split; [exists (r' ++ [l]); reflexivity | exact Hc].
        -- congruence.
      * trim_iff s0 H r0 Hgt; [discriminate H|].
        apply (last_unique (s :: r') r0) in H. subst s0.
        exfalso. exact (Qlt_not_le _ _ Hgt Hc2).
  - destruct (trimLast_cases time d) as [[Hr Hl] | (r' & l & Hr & [[Hc2 Hl] | [Hc2 Hl]])];
      rewrite Hl.
    + congruence.
    + exists [], [l]. trim_goals.
      * exact Hr.
      * trim_iff s0 H r0 Hgt; [discriminate H|].
        exfalso. rewrite Hd in H. injection H as <- _.
        exact (Qlt_not_le _ _ Hgt Hc).
      * trim_iff s0 H r0 Hgt.
        -- injection H as <-. split; [exists r'; exact Hr | exact Hc2].
        -- rewrite Hr in H. apply last_unique in H. congruence.
    + exists [], []. trim_goals.
      * now rewrite app_nil_r.
      * trim_iff s0 H r0 Hgt; [discriminate H|].
        exfalso. rewrite Hd in H. injection H as <- _.
        exact (Qlt_not_le _ _ Hgt Hc).
      * trim_iff s0 H r0 Hgt; [discriminate H|].
        exfalso. rewrite Hr in H. apply last_unique in H. subst s0.
        exact (Qlt_not_le _ _ Hgt Hc2).
Qed.

End TrailFacts.

(** ** Heatmap spacing filter *)

Section FilterFacts.

Import Odometry OdometrySpec.
Local Open Scope Q_scope.

(** The values pushed are those of the kept samples, and [lastTimestamp]
    is the same in both loops. *)
Lemma filter_kept_simulation (l : list HeatmapSample) :
  forall (kept : list HeatmapSample) (lastTimestamp : Q),
    fold_left filterStep l (map value kept, lastTimestamp)
    = (map value (fst (fold_left keptStep l (kept, lastTimestamp))),
       snd (fold_left keptStep l (kept, lastTimestamp))).
Proof.
  induction l as [|s l IH]; intros kept lastTimestamp; [reflexivity|].
  cbn [fold_left]. unfold filterStep at 2, keptStep at 2 4. cbn [fst snd].
  destruct (keepSample lastTimestamp s).
  - rewrite <- IH. rewrite map_app. reflexivity.
  - apply IH.
Qed.

(** [lastTimestamp] is the timestamp of the sample kept last. *)
Lemma kept_last_timestamp (l : list HeatmapSample) :
  forall (kept : list HeatmapSample) (lastTimestamp : Q),
    lastTimestamp = last (map timestamp kept) 0 ->
    snd (fold_left keptStep l (kept, lastTimestamp))
    = last (map timestamp (fst (fold_left keptStep l (kept, lastTimestamp)))) 0.
Proof.
  induction l as [|s l IH]; intros kept lastTimestamp Hlast; [exact Hlast|].
  cbn [fold_left]. unfold keptStep at 2 4. cbn [fst snd].
  destruct (keepSample lastTimestamp s).
  - apply IH. rewrite map_app. cbn [map]. rewrite last_last. reflexivity.
  - apply IH. exact Hlast.
Qed.

Lemma filterSorted_kept (l : list HeatmapSample) :
  filterSorted l = (map value (keptSamples l), previousKept l).
Proof.
  unfold filterSorted, previousKept, keptSamples.
  change (@nil Translation2d) with (map value []).
  rewrite (filter_kept_simulation l [] 0). f_equal.
  apply kept_last_timestamp. reflexivity.
Qed.

Lemma keepSample_iff (lastTimestamp : Q) (s : HeatmapSample) :
  keepSample lastTimestamp s = true
  <-> (timestamp s == lastTimestamp \/ HEATMAP_DT <= timestamp s - lastTimestamp).
Proof.
  unfold keepSample. rewrite orb_true_iff, Qeq_bool_iff, Qle_bool_iff. reflexivity.
Qed.

(** Inserting a sample that is not earlier than any other puts it last. *)
Lemma insert_latest (s : HeatmapSample) (l : list HeatmapSample) :
  Forall (fun x => timestamp x <= timestamp s) l ->
  insertByTimestamp s l = l ++ [s].
Proof.
  induction 1 as [|x l Hx _ IH]; [reflexivity|].
  cbn [insertByTimestamp app].
  apply Qlt_bool_false_iff in Hx. rewrite Hx, IH. reflexivity.
Qed.

Lemma ascending_app_last (l : list HeatmapSample) (s : HeatmapSample) :
  ascending (l ++ [s]) ->
  ascending l /\ Forall (fun x => timestamp x <= timestamp s) l.
Proof.
  induction l as [|x l IH]; intro H; [split; [exact I | constructor]|].
  cbn [app ascending] in H. destruct H as [Hhead Htail].
  destruct (IH Htail) as [Hasc Hall]. split.
  - cbn [ascending]. split; [|exact Hasc].
    destruct l as [|y l]; [exact I | exact Hhead].
  - constructor; [|exact Hall].
    destruct l as [|y l]; [exact Hhead|].
    cbn [app] in Hhead. inversion Hall as [|? ? Hy _]; subst.
    eapply Qle_trans; [exact Hhead | exact Hy].
Qed.

(** Sorting leaves an ascending list as it is. *)
Lemma sort_ascending (l : list HeatmapSample) :
  ascending l -> sortByTimestamp l = l.
Proof.
  unfold sortByTimestamp.
  induction l as [|s l IH] using rev_ind; intro H; [reflexivity|].
  destruct (ascending_app_last l s H) as [Hasc Hall].
  rewrite fold_left_app. cbn [fold_left]. rewrite (IH Hasc).
  apply insert_latest. exact Hall.
Qed.

(** One more sample at the end of the list: the loop compares it with
    [lastTimestamp] as left by the samples before it. *)
Lemma keptSamples_step (pre : list HeatmapSample) (s : HeatmapSample) :
  keptSamples (pre ++ [s])
  = if keepSample (previousKept pre) s then keptSamples pre ++ [s] else keptSamples pre.
Proof.
  unfold keptSamples at 1. rewrite fold_left_app. cbn [fold_left].
  unfold keptStep at 1.
  assert (Hsnd : snd (fold_left keptStep pre ([], 0)) = previousKept pre)
    by (apply kept_last_timestamp; reflexivity).
  rewrite Hsnd.
  destruct (keepSample (previousKept pre) s); reflexivity.
Qed.

(** C4 (amended).  On a timestamp-sorted list the values the filter returns
    are those of the samples it keeps, in order.  A sample that comes after
    a kept sample is kept if and only if its timestamp equals the
    previously kept sample's timestamp or is at least [HEATMAP_DT] after
    it.  While no sample has been kept, a sample stamped 0 or at least
    [HEATMAP_DT] is kept. *)
Theorem heatmap_filter_rule (pre : list HeatmapSample) (s : HeatmapSample)
        (Hsorted : ascending (pre ++ [s])) :
  filterHeatmap pre = map value (keptSamples pre)
  /\ (forall front k,
        keptSamples pre = front ++ [k] ->
        (timestamp s == timestamp k \/ HEATMAP_DT <= timestamp s - timestamp k ->
         keptSamples (pre ++ [s]) = keptSamples pre ++ [s]
         /\ filterHeatmap (pre ++ [s]) = filterHeatmap pre ++ [value s])
        /\ (~ (timestamp s == timestamp k \/ HEATMAP_DT <= timestamp s - timestamp k) ->
            keptSamples (pre ++ [s]) = keptSamples pre
            /\ filterHeatmap (pre ++ [s]) = filterHeatmap pre))
  /\ (keptSamples pre = [] ->
      timestamp s == 0 \/ HEATMAP_DT <= timestamp s ->
      keptSamples (pre ++ [s]) = [s] /\ filterHeatmap (pre ++ [s]) = [value s]).
Proof.
  destruct (ascending_app_last pre s Hsorted) as [Hpre _].
  unfold filterHeatmap.
  rewrite (sort_ascending _ Hsorted), (sort_ascending _ Hpre).
  rewrite !filterSorted_kept. cbn [fst].
  pose proof (keptSamples_step pre s) as Hstep.
  split; [reflexivity|]. split.
  - intros front k Hkept.
    assert (Hprev : previousKept pre = timestamp k).
    { unfold previousKept. rewrite Hkept, map_app. cbn [map]. apply last_last. }
    rewrite Hprev in Hstep. split.
    + intro Hkeep. apply keepSample_iff in Hkeep.
      rewrite Hstep, Hkeep. split; [reflexivity|].
      rewrite map_app. reflexivity.
    + intro Hdrop.
      destruct (keepSample (timestamp k) s) eqn:E.
      * exfalso. apply Hdrop. apply keepSample_iff. exact E.
      * rewrite Hstep. split; reflexivity.
  - intros Hnone Hkeep.
    assert (Hprev : previousKept pre = 0).
    { unfold previousKept. rewrite Hnone. reflexivity. }
    rewrite Hprev in Hstep.
    assert (Hk : keepSample 0 s = true).
    { apply keepSample_iff. destruct Hkeep as [H0 | Hdt]; [left; exact H0|].
      right. assert (E : timestamp s - 0 == timestamp s) by ring.
      rewrite E. exact Hdt. }
    rewrite Hstep, Hk, Hnone. split; reflexivity.
Qed.

End FilterFacts.

(** Two samples with the same timestamp: the second is kept as well. *)
Lemma heatmap_filter_rule_witness :
  let a := Odometry.mkHeatmapSample 1 (1, 1)%Q in
  let b := Odometry.mkHeatmapSample 1 (2, 2)%Q in
  OdometrySpec.ascending ([a] ++ [b])
  /\ OdometrySpec.keptSamples [a] = [] ++ [a]
  /\ Odometry.filterHeatmap ([a] ++ [b])
     = Odometry.filterHeatmap [a] ++ [Odometry.value b].
Proof.
  intros a b.
  assert (Hsorted : OdometrySpec.ascending ([a] ++ [b])).
  { simpl. repeat split. discriminate. }
  assert (Hkept : OdometrySpec.keptSamples [a] = [] ++ [a]) by reflexivity.
  split; [exact Hsorted|]. split; [exact Hkept|].
  destruct (heatmap_filter_rule [a] b Hsorted) as (_ & Hafter & _).
  destruct (Hafter [] a Hkept) as [Hkeep _].
  apply Hkeep. left. reflexivity.
Defined.

(** C4 as stated fails on the code: a sample carrying the previously kept
    sample's timestamp is kept, and a first sample stamped strictly between
    0 and [HEATMAP_DT] is dropped. *)
Lemma minimumSpacing_counterexample :
  let same := [Odometry.mkHeatmapSample 1 (1, 1)%Q; Odometry.mkHeatmapSample 1 (2, 2)%Q] in
  let early := [Odometry.mkHeatmapSample (1 # 20) (3, 3)%Q] in
  (OdometrySpec.ascending same
   /\ Odometry.filterHeatmap same = [(1, 1)%Q; (2, 2)%Q]
   /\ Odometry.filterHeatmap same <> OdometrySpec.minimumSpacing same)
  /\ (OdometrySpec.ascending early
      /\ Odometry.filterHeatmap early = []
      /\ Odometry.filterHeatmap early <> OdometrySpec.minimumSpacing early).
Proof.
  cbv zeta. repeat split; try reflexivity; try (simpl; discriminate);
    vm_compute; discriminate.
Qed.

(** ** Heatmap resampling *)

Section ResampleFacts.

Import Odometry OdometrySpec.
Local Open Scope Q_scope.










Lemma sampleCount_none (timestamp nextTimestamp : Q) :
  nextTimestamp <= timestamp -> sampleCount timestamp nextTimestamp = O.
Proof.
  intros H. unfold sampleCount.
  assert (Hq : (nextTimestamp - timestamp) / HEATMAP_DT <= 0).
  { unfold HEATMAP_DT. unfold Qdiv.
    setoid_replace (/ (1 # 10)) with 10 by reflexivity. Lqa.lra. }
  apply Qceiling_resp_le in Hq. change (Qceiling 0) with 0%Z in Hq. lia.
Qed.

Lemma generateSamples_none (c timestamp nextTimestamp : Q) (v : list Q) :
  nextTimestamp <= timestamp -> generateSamples c timestamp nextTimestamp v = [].
Proof.
  intros H. unfold generateSamples.
  change (Z.to_nat (Qceiling ((nextTimestamp - timestamp) / HEATMAP_DT)))
    with (sampleCount timestamp nextTimestamp).
  rewrite (sampleCount_none _ _ H). reflexivity.
Qed.








End ResampleFacts.



(** ** Rotation sequences *)

Section RotationFacts.

Import Three Visualizer VisualizerSpec.
Local Open Scope R_scope.

Variable convert : R -> string -> string -> R.

Lemma quaternion_eq (a b : Quaternion) :
  qx a = qx b -> qy a = qy b -> qz a = qz b -> qw a = qw b -> a = b.
Proof. destruct a, b. simpl. intros -> -> -> ->. reflexivity. Qed.

Lemma multiplyQuaternions_assoc (a b c : Quaternion) :
  multiplyQuaternions a (multiplyQuaternions b c)
  = multiplyQuaternions (multiplyQuaternions a b) c.
Proof. apply quaternion_eq; simpl; ring. Qed.

Lemma multiplyQuaternions_identity_r (a : Quaternion) :
  multiplyQuaternions a identity = a.
Proof. apply quaternion_eq; simpl; ring. Qed.

Lemma multiplyQuaternions_identity_l (a : Quaternion) :
  multiplyQuaternions identity a = a.
Proof. apply quaternion_eq; simpl; ring. Qed.

(** Running the loop from any start multiplies the start on the right. *)
Lemma rotationLoop_start (rotations : list Config3d_Rotation) :
  forall start,
    fold_left (fun quaternion rotation => premultiply quaternion (unitRotation convert rotation))
              rotations start
    = multiplyQuaternions (getQuaternionFromRotSeq convert rotations) start.
Proof.
  unfold getQuaternionFromRotSeq.
  induction rotations as [|r rest IH]; intro start; cbn [fold_left].
  - symmetry. apply multiplyQuaternions_identity_l.
  - rewrite (IH (premultiply start (unitRotation convert r))).
    rewrite (IH (premultiply identity (unitRotation convert r))).
    unfold premultiply.
    rewrite multiplyQuaternions_identity_r. apply multiplyQuaternions_assoc.
Qed.

Lemma invert_product (a b : Quaternion) :
  invert (multiplyQuaternions a b) = multiplyQuaternions (invert b) (invert a).
Proof. apply quaternion_eq; cbn [invert multiplyQuaternions qx qy qz qw]; ring. Qed.

(** [q * (x, y, z, 0) * invert q] has no scalar part: it is the rotated
    vector. *)
Lemma rotate_pure (v : Vector3) (q : Quaternion) :
  multiplyQuaternions (multiplyQuaternions q (mkQuaternion (vx v) (vy v) (vz v) 0))
                      (invert q)
  = (let r := rotateTranslationByRotation v q in mkQuaternion (vx r) (vy r) (vz r) 0).
Proof.
  apply quaternion_eq; cbn [rotateTranslationByRotation vx vy vz qx qy qz qw];
    try reflexivity.
  cbn [multiplyQuaternions invert qx qy qz qw]. ring.
Qed.

(** Rotating by a product rotates by the right factor first. *)
Lemma rotate_product (v : Vector3) (a b : Quaternion) :
  rotateTranslationByRotation v (multiplyQuaternions a b)
  = rotateTranslationByRotation (rotateTranslationByRotation v b) a.
Proof.
  unfold rotateTranslationByRotation at 1 2. unfold multiply.
  rewrite invert_product.
  rewrite <- (multiplyQuaternions_assoc a b).
  rewrite (multiplyQuaternions_assoc _ (invert b) (invert a)).
  rewrite <- (multiplyQuaternions_assoc a (multiplyQuaternions b _) (invert b)).
  rewrite rotate_pure. reflexivity.
Qed.


End RotationFacts.

Section RotationCounterexample.

Import Three Visualizer VisualizerSpec.
Local Open Scope R_scope.







End RotationCounterexample.

(** ** Field frame *)

Section FieldFrameFacts.

Import Three Visualizer VisualizerSpec.
Local Open Scope R_scope.

Variable convert : R -> string -> string -> R.

Lemma no_turn : setFromAxisAngle (mkVector3 0 0 1) 0 = identity.
Proof.
  unfold setFromAxisAngle, identity. cbn [vx vy vz].
  replace (0 / 2) with 0 by field. rewrite sin_0, cos_0.
  apply quaternion_eq; cbn [qx qy qz qw]; ring.
Qed.

Lemma half_turn : setFromAxisAngle (mkVector3 0 0 1) PI = mkQuaternion 0 0 1 0.
Proof.
  unfold setFromAxisAngle. cbn [vx vy vz]. rewrite sin_PI2, cos_PI2.
  apply quaternion_eq; cbn [qx qy qz qw]; ring.
Qed.

(** C7.  For one field configuration, the field frame of alliance "blue"
    has the identity rotation and the frame of alliance "red" is that
    rotation followed by a half-turn about the vertical (z) axis, which
    negates x and y and keeps z; the red translation is half the field's
    width and height converted to meters, and the blue translation is its
    exact negation. *)
Theorem fieldCoordinates_alliance (fieldConfig : Config3d_Field) :
  let blue := fieldCoordinates convert fieldConfig "blue" in
  let red := fieldCoordinates convert fieldConfig "red" in
  t_quaternion blue = identity
  /\ (forall v, rotateTranslationByRotation v (t_quaternion blue) = v)
  /\ t_quaternion red
     = multiplyQuaternions (setFromAxisAngle (mkVector3 0 0 1) PI) (t_quaternion blue)
  /\ (forall v, rotateTranslationByRotation v (t_quaternion red)
                = mkVector3 (- vx v) (- vy v) (vz v))
  /\ t_position red
     = mkVector3 (convert (Q2R (widthInches fieldConfig / 2)) "inches" "meters")
                 (convert (Q2R (heightInches fieldConfig / 2)) "inches" "meters")
                 0
  /\ t_position blue = negate (t_position red)
  /\ t_position red = negate (t_position blue).
Proof.
  intros blue red. subst blue red. unfold fieldCoordinates.
  cbn [String.eqb Ascii.eqb Bool.eqb t_quaternion t_position].
  rewrite no_turn, half_turn.
  split; [reflexivity|]. split.
  { intros [x y z]. unfold rotateTranslationByRotation, multiply, multiplyQuaternions,
      invert, identity. cbn [qx qy qz qw vx vy vz]. f_equal; ring. }
  split; [symmetry; apply multiplyQuaternions_identity_r|]. split.
  { intros [x y z]. unfold rotateTranslationByRotation, multiply, multiplyQuaternions,
      invert. cbn [qx qy qz qw vx vy vz]. f_equal; ring. }
  unfold negate. cbn [vx vy vz].
  repeat split; f_equal; ring.
Qed.

End FieldFrameFacts.

(** ** Scene graph *)

Section SceneGraphFacts.

Import Three Visualizer VisualizerSpec.

Lemma removeChild_subset (id x : nat) (children : list nat) :
  In x (removeChild id children) -> In x children.
Proof.
  induction children as [|c rest IH]; cbn [removeChild]; [tauto|].
  destruct (c =? id)%nat; cbn [In]; tauto.
Qed.

Lemma removeChild_other (id x : nat) (children : list nat) :
  x <> id -> In x children -> In x (removeChild id children).
Proof.
  intro Hne. induction children as [|c rest IH]; cbn [removeChild In]; [tauto|].
  destruct (c =? id)%nat eqn:E.
  - apply Nat.eqb_eq in E. intros [H|H]; [congruence | exact H].
  - cbn [In]. tauto.
Qed.

Lemma removeChild_NoDup (id : nat) (children : list nat) :
  NoDup children -> NoDup (removeChild id children).
Proof.
  induction 1 as [|c rest Hc Hnd IH]; cbn [removeChild]; [constructor|].
  destruct (c =? id)%nat; [exact Hnd|].
  constructor; [|exact IH]. intro H. apply Hc. eapply removeChild_subset. exact H.
Qed.

Lemma removeChild_gone (id : nat) (children : list nat) :
  NoDup children -> ~ In id (removeChild id children).
Proof.
  induction 1 as [|c rest Hc Hnd IH]; cbn [removeChild]; [tauto|].
  destruct (c =? id)%nat eqn:E.
  - apply Nat.eqb_eq in E. subst c. exact Hc.
  - apply Nat.eqb_neq in E. cbn [In]. intros [H|H]; [congruence | exact (IH H)].
Qed.

Lemma addChild_In (id x : nat) (children : list nat) :
  In x (addChild id children) <-> x = id \/ In x children.
Proof.
  unfold addChild. rewrite in_app_iff. cbn [In]. split.
  - intros [H | [H | []]]; [right; eapply removeChild_subset; exact H | left; congruence].
  - intros [H | H]; [right; left; congruence|].
    destruct (Nat.eq_dec x id) as [E | E]; [right; left; congruence|].
    left. apply removeChild_other; assumption.
Qed.

Lemma addChild_NoDup (id : nat) (children : list nat) :
  NoDup children -> NoDup (addChild id children).
Proof.
  intro Hnd. unfold addChild.
  apply NoDup_app; [apply removeChild_NoDup; exact Hnd | repeat constructor; cbn [In]; tauto |].
  intros x Hx [E | []]. subst x. exact (removeChild_gone id children Hnd Hx).
Qed.

(** Removing a run of cones from the group. *)
Lemma removeAll_In (popped : list Cone) :
  forall (children : list nat) (x : nat),
    In x (fold_left (fun ch c => removeChild (cone_id c) ch) popped children) ->
    In x children.
Proof.
  induction popped as [|c rest IH]; intros children x; cbn [fold_left]; [tauto|].
  intro H. eapply removeChild_subset. apply IH. exact H.
Qed.

Lemma removeAll_other (popped : list Cone) :
  forall (children : list nat) (x : nat),
    ~ In x (map cone_id popped) -> In x children ->
    In x (fold_left (fun ch c => removeChild (cone_id c) ch) popped children).
Proof.
  induction popped as [|c rest IH]; intros children x; cbn [fold_left map In]; [tauto|].
  intros Hnot Hin. apply IH; [tauto|]. apply removeChild_other; [|exact Hin].
  intro E. apply Hnot. left. congruence.
Qed.

Lemma removeAll_NoDup (popped : list Cone) :
  forall children,
    NoDup children ->
    NoDup (fold_left (fun ch c => removeChild (cone_id c) ch) popped children).
Proof.
  induction popped as [|c rest IH]; intros children Hnd; cbn [fold_left]; [exact Hnd|].
  apply IH. apply removeChild_NoDup. exact Hnd.
Qed.

(** Attaching a run of new cones to the group. *)
Lemma addAll_In (created : list Cone) :
  forall (children : list nat) (x : nat),
    In x (fold_left (fun ch c => addChild (cone_id c) ch) created children)
    <-> In x (map cone_id created) \/ In x children.
Proof.
  induction created as [|c rest IH]; intros children x; cbn [fold_left map In]; [tauto|].
  rewrite IH, addChild_In. split; intros H; repeat destruct H as [H|H]; auto.
Qed.

Lemma addAll_NoDup (created : list Cone) :
  forall children,
    NoDup children ->
    NoDup (fold_left (fun ch c => addChild (cone_id c) ch) created children).
Proof.
  induction created as [|c rest IH]; intros children Hnd; cbn [fold_left]; [exact Hnd|].
  apply IH. apply addChild_NoDup. exact Hnd.
Qed.

Lemma created_ids (next count : nat) :
  map cone_id (map (fun id => mkCone id (mkTransform origin identity)) (seq next count))
  = seq next count.
Proof. rewrite map_map. cbn [cone_id]. apply map_id. Qed.

Lemma in_firstn {A : Type} (n : nat) (l : list A) (x : A) :
  In x (firstn n l) -> In x l.
Proof. intro H. rewrite <- (firstn_skipn n l). apply in_or_app. left. exact H. Qed.

Lemma in_skipn {A : Type} (n : nat) (l : list A) (x : A) :
  In x (skipn n l) -> In x l.
Proof. intro H. rewrite <- (firstn_skipn n l). apply in_or_app. right. exact H. Qed.

(** What one call of [updateCones] does to the identities. *)
Lemma updateCones_ids (poseData : list Pose3d) (objectArray : list Cone)
      (children : list nat) (next : nat) :
  let '(array', children', next') := updateCones poseData objectArray children next in
  (next <= next')%nat
  /\ (forall x, In x (map cone_id array') ->
                In x (map cone_id objectArray) \/ (next <= x < next')%nat)
  /\ (forall x, In x children' -> In x children \/ (next <= x < next')%nat)
  /\ (forall x, ~ In x (map cone_id objectArray) -> In x children -> In x children')
  /\ (NoDup children -> NoDup children').
Proof.
  unfold updateCones.
  set (n := length poseData).
  set (kept := firstn n objectArray).
  set (popped := rev (skipn n objectArray)).
  set (created := map (fun id => mkCone id (mkTransform origin identity))
                      (seq next (n - length kept))).
  assert (Hcreated : forall x, In x (map cone_id created) <-> (next <= x < next + (n - length kept))%nat).
  { intro x. subst created. rewrite created_ids, in_seq. reflexivity. }
  split; [lia|]. split; [|split; [|split]].
  - intros x Hx. rewrite map_map in Hx. apply in_map_iff in Hx.
    destruct Hx as [[pose c] [<- Hin]]. apply in_combine_r in Hin. cbn [cone_id snd].
    apply in_app_or in Hin. destruct Hin as [Hin | Hin].
    + left. apply in_map. subst kept. eapply in_firstn. exact Hin.
    + right. apply Hcreated. apply in_map. exact Hin.
  - intros x Hx. apply addAll_In in Hx. destruct Hx as [Hx | Hx].
    + right. apply Hcreated. exact Hx.
    + left. eapply removeAll_In. exact Hx.
  - intros x Hnot Hin. apply addAll_In. right. apply removeAll_other; [|exact Hin].
    intro Hp. apply Hnot. subst popped. rewrite map_rev in Hp. apply in_rev in Hp.
    apply in_map_iff in Hp. destruct Hp as [c [<- Hc]]. apply in_map.
    eapply in_skipn. exact Hc.
  - intro Hnd. apply addAll_NoDup, removeAll_NoDup. exact Hnd.
Qed.

End SceneGraphFacts.

(** ** The scene invariant holds in every reachable state *)

Section InvariantFacts.

Import Three Visualizer VisualizerSpec.

Variable convert : R -> string -> string -> R.

Ltac open_invariant H :=
  destruct H as (Hnd1 & Hnd2 & Hid1 & Hid2 & Hcone & Hrobot).

Ltac show_invariant :=
  unfold sceneInvariant, coneIds;
  cbn [assets scene coordinateChildren fieldCoordinateChildren greenCones blueCones
       yellowCones nextId robot lastRobotVisible scheduler view].

(** The invariant reads only the scene and the assets. *)
Lemma invariant_same_scene (st st' : State) :
  assets st' = assets st -> scene st' = scene st ->
  sceneInvariant st -> sceneInvariant st'.
Proof.
  unfold sceneInvariant, coneIds. intros -> ->. tauto.
Qed.

Lemma set_shouldRender_invariant (b : bool) (st : State) :
  sceneInvariant st -> sceneInvariant (set_shouldRender b st).
Proof. apply invariant_same_scene; reflexivity. Qed.

Lemma addField_invariant (fieldTitle : string) (fieldConfig : Config3d_Field) (st : State) :
  sceneInvariant st -> sceneInvariant (addField fieldTitle fieldConfig st).
Proof.
  intro Hinv. unfold addField.
  destruct (negb (String.eqb fieldTitle (lastFieldTitle (assets st)))); [|exact Hinv].
  open_invariant Hinv. show_invariant.
  repeat split; try assumption.
  - destruct (field (assets st)); [apply removeChild_NoDup|]; exact Hnd1.
  - intros id Hin. apply Hid1.
    destruct (field (assets st)); [eapply removeChild_subset|]; exact Hin.
  - apply (Hrobot r H).
  - apply (Hrobot r H).
  - apply (Hrobot r H).
  - apply (Hrobot r H).
Qed.

Lemma fieldLoaded_invariant (fieldConfig : Config3d_Field) (st : State) :
  sceneInvariant st -> sceneInvariant (fieldLoaded convert fieldConfig st).
Proof.
  intro Hinv. unfold fieldLoaded. apply set_shouldRender_invariant.
  open_invariant Hinv. show_invariant.
  repeat split; try assumption.
  - apply addChild_NoDup. exact Hnd1.
  - intros id Hin. apply addChild_In in Hin. destruct Hin as [-> | Hin]; [lia|].
    specialize (Hid1 id Hin). lia.
  - intros id Hin. specialize (Hid2 id Hin). lia.
  - intros id Hin. specialize (Hcone id Hin). lia.
  - destruct (Hrobot r H) as (Hlt & _). lia.
  - apply (Hrobot r H).
  - apply (Hrobot r H).
  - apply (Hrobot r H).
Qed.

Lemma addRobot_invariant (robotTitle : string) (robotConfig : Config3d_Robot)
      (newFrcData : bool) (st : State) :
  sceneInvariant st -> sceneInvariant (addRobot robotTitle robotConfig newFrcData st).
Proof.
  intro Hinv. unfold addRobot.
  destruct (negb (String.eqb robotTitle (lastRobotTitle (assets st))) || newFrcData);
    [|exact Hinv].
  open_invariant Hinv. show_invariant.
  repeat split; try assumption; try discriminate.
  - destruct (robot (assets st)); [|exact Hnd2].
    destruct (lastRobotVisible (assets st)); [apply removeChild_NoDup|]; exact Hnd2.
  - intros id Hin. apply Hid2.
    destruct (robot (assets st)); [|exact Hin].
    destruct (lastRobotVisible (assets st)); [eapply removeChild_subset|]; exact Hin.
Qed.

Lemma robotLoaded_invariant (robotConfig : Config3d_Robot) (st : State) :
  sceneInvariant st -> sceneInvariant (robotLoaded convert robotConfig st).
Proof.
  intro Hinv. unfold robotLoaded. apply set_shouldRender_invariant.
  open_invariant Hinv. show_invariant.
  split; [exact Hnd1|]. split.
  { destruct (lastRobotVisible (assets st)); [apply addChild_NoDup|]; exact Hnd2. }
  split. { intros id Hin. specialize (Hid1 id Hin). lia. }
  split.
  { intros id Hin. destruct (lastRobotVisible (assets st)).
    - apply addChild_In in Hin. destruct Hin as [-> | Hin]; [lia|].
      specialize (Hid2 id Hin). lia.
    - specialize (Hid2 id Hin). lia. }
  split. { intros id Hin. specialize (Hcone id Hin). lia. }
  intros r Hr. injection Hr as <-. cbn [robot_id].
  split; [lia|]. split.
  { intro Hin. specialize (Hcone _ Hin). lia. }
  destruct (lastRobotVisible (assets st)).
  - split; [reflexivity|]. intros _. apply addChild_In. left. reflexivity.
  - split; [|discriminate]. intro Hin. specialize (Hid2 _ Hin). lia.
Qed.

Lemma updateFieldCoordinates_invariant (fieldConfig : Config3d_Field) (cmd : Command)
      (st : State) :
  sceneInvariant st -> sceneInvariant (updateFieldCoordinates convert fieldConfig cmd st).
Proof. intro Hinv. exact Hinv. Qed.

Lemma setRobotPosition_invariant (cmd : Command) (st : State) :
  sceneInvariant st -> sceneInvariant (setRobotPosition cmd st).
Proof.
  intro Hinv. unfold setRobotPosition.
  destruct (robot (assets st)) as [r|] eqn:Hr; [|exact Hinv].
  open_invariant Hinv. destruct (Hrobot r Hr) as (Hlt & Hnotcone & Hvis).
  show_invariant.
  split; [exact Hnd1|]. split.
  { destruct (pose_robot cmd), (lastRobotVisible (assets st)); cbn [negb];
      try exact Hnd2; [apply addChild_NoDup | apply removeChild_NoDup]; exact Hnd2. }
  split; [exact Hid1|]. split.
  { intros id Hin.
    destruct (pose_robot cmd), (lastRobotVisible (assets st)); cbn [negb] in Hin;
      try (apply Hid2; exact Hin).
    - apply addChild_In in Hin. destruct Hin as [-> | Hin]; [exact Hlt | apply Hid2; exact Hin].
    - apply Hid2. eapply removeChild_subset. exact Hin. }
  split; [exact Hcone|].
  intros r' Hr'. injection Hr' as <-.
  assert (Hid : robot_id (match pose_robot cmd with
                          | Some pose => mkRobotNode (robot_id r) (poseTransform pose)
                                                     (model_source r) (model_transform r)
                          | None => r
                          end) = robot_id r) by (destruct (pose_robot cmd); reflexivity).
  rewrite Hid. split; [exact Hlt|]. split; [exact Hnotcone|].
  destruct (pose_robot cmd), (lastRobotVisible (assets st)); cbn [negb].
  - tauto.
  - split; [reflexivity|]. intros _. apply addChild_In. left. reflexivity.
  - split; [|discriminate]. intro Hin. exfalso.
    exact (removeChild_gone _ _ Hnd2 Hin).
  - tauto.
Qed.

Lemma updateAllCones_invariant (cmd : Command) (st : State) :
  sceneInvariant st -> sceneInvariant (updateAllCones cmd st).
Proof.
  intro Hinv. open_invariant Hinv. unfold updateAllCones.
  pose proof (updateCones_ids (pose_green cmd) (greenCones (scene st))
                              (fieldCoordinateChildren (scene st)) (nextId (assets st))) as H1.
  destruct (updateCones (pose_green cmd) (greenCones (scene st))
                        (fieldCoordinateChildren (scene st)) (nextId (assets st)))
    as [[green ch1] n1].
  pose proof (updateCones_ids (pose_blue cmd) (blueCones (scene st)) ch1 n1) as H2.
  destruct (updateCones (pose_blue cmd) (blueCones (scene st)) ch1 n1) as [[blue ch2] n2].
  pose proof (updateCones_ids (pose_yellow cmd) (yellowCones (scene st)) ch2 n2) as H3.
  destruct (updateCones (pose_yellow cmd) (yellowCones (scene st)) ch2 n2)
    as [[yellow ch3] n3].
  destruct H1 as (Hn1 & Hc1 & Hch1 & Hkeep1 & Hnd1').
  destruct H2 as (Hn2 & Hc2 & Hch2 & Hkeep2 & Hnd2').
  destruct H3 as (Hn3 & Hc3 & Hch3 & Hkeep3 & Hnd3').
  assert (Hcones : forall id, In id (map cone_id (green ++ blue ++ yellow)) ->
                              In id (coneIds (scene st))
                              \/ (nextId (assets st) <= id < n3)%nat).
  { intros id Hin. unfold coneIds. rewrite !map_app, !in_app_iff in *.
    destruct Hin as [Hin | [Hin | Hin]].
    - destruct (Hc1 id Hin); [tauto | right; lia].
    - destruct (Hc2 id Hin); [tauto | right; lia].
    - destruct (Hc3 id Hin); [tauto | right; lia]. }
  assert (Hchildren : forall id, In id ch3 ->
                                 In id (fieldCoordinateChildren (scene st))
                                 \/ (nextId (assets st) <= id < n3)%nat).
  { intros id Hin.
    destruct (Hch3 id Hin) as [Hin2 | ?]; [|right; lia].
    destruct (Hch2 id Hin2) as [Hin1 | ?]; [|right; lia].
    destruct (Hch1 id Hin1) as [Hin0 | ?]; [left; exact Hin0 | right; lia]. }
  show_invariant.
  split; [exact Hnd1|]. split; [auto|].
  split. { intros id Hin. specialize (Hid1 id Hin). lia. }
  split. { intros id Hin. destruct (Hchildren id Hin) as [H | H]; [specialize (Hid2 id H)|]; lia. }
  split. { intros id Hin. destruct (Hcones id Hin) as [H | H]; [specialize (Hcone id H)|]; lia. }
  intros r Hr. destruct (Hrobot r Hr) as (Hlt & Hnotcone & Hvis).
  split; [lia|]. split.
  { intro Hin. destruct (Hcones _ Hin) as [H | H]; [exact (Hnotcone H) | lia]. }
  rewrite <- Hvis. split.
  - intro Hin. destruct (Hchildren _ Hin) as [H | H]; [exact H | lia].
  - intro Hin. unfold coneIds in Hnotcone. rewrite !map_app, !in_app_iff in Hnotcone.
    apply Hkeep3; [tauto|]. apply Hkeep2; [tauto|]. apply Hkeep1; [tauto|]. exact Hin.
Qed.

Lemma setCamera_invariant (moved : bool) (robotConfig : Config3d_Robot) (st st' : State) :
  setCamera moved robotConfig st = Some st' -> sceneInvariant st -> sceneInvariant st'.
Proof.
  unfold setCamera.
  destruct (resetCameraIndex (cameraIndex (view st)) (robotCameras (assets st)) <? 0)%Z.
  - intro H. injection H as <-. intro Hinv. exact Hinv.
  - destruct (nth_error (cameras robotConfig) _); [|discriminate].
    intro H. injection H as <-. intro Hinv. exact Hinv.
Qed.

Lemma checkFrcData_invariant (env : Env) (st : State) :
  sceneInvariant st -> sceneInvariant (snd (checkFrcData env st)).
Proof.
  intro Hinv. unfold checkFrcData. cbn [snd].
  destruct (negb _); exact Hinv.
Qed.

Lemma renderScene_invariant (env : Env) (cmd : Command) (st st' : State) :
  renderScene convert env cmd st = Some st' -> sceneInvariant st -> sceneInvariant st'.
Proof.
  unfold renderScene.
  destruct (findField env _) as [fieldConfig|]; [|intro H; injection H as <-; tauto].
  destruct (findRobot env _) as [robotConfig|]; [|intro H; injection H as <-; tauto].
  pose proof (checkFrcData_invariant env st) as Hfrc.
  destruct (checkFrcData env st) as [newFrcData st1]. cbn [snd] in Hfrc.
  intros Hcam Hinv. eapply setCamera_invariant; [exact Hcam|].
  apply updateAllCones_invariant, setRobotPosition_invariant,
    updateFieldCoordinates_invariant, addRobot_invariant, addField_invariant, Hfrc, Hinv.
Qed.

Lemma renderFrame_invariant (env : Env) (st st' : State) :
  renderFrame convert env st = Some st' -> sceneInvariant st -> sceneInvariant st'.
Proof.
  unfold renderFrame.
  destruct (command (checkTriggers env (scheduler st))) as [cmd|];
    [|intro H; injection H as <-; apply invariant_same_scene; reflexivity].
  destruct (hidden env);
    [intro H; injection H as <-; apply invariant_same_scene; reflexivity|].
  destruct (_ && _);
    [intro H; injection H as <-; apply invariant_same_scene; reflexivity|].
  destruct (negb _);
    [intro H; injection H as <-; apply invariant_same_scene; reflexivity|].
  intros H Hinv. eapply renderScene_invariant; [exact H|].
  revert Hinv. apply invariant_same_scene; reflexivity.
Qed.

Lemma dropPending_invariant (k : nat) (st : State) :
  sceneInvariant st -> sceneInvariant (dropPending k st).
Proof. intro Hinv. exact Hinv. Qed.

Lemma completeLoad_invariant (k : nat) (st : State) :
  sceneInvariant st -> sceneInvariant (completeLoad convert k st).
Proof.
  intro Hinv. unfold completeLoad.
  destruct (nth_error (pending (assets st)) k) as [[fieldConfig | robotConfig]|].
  - apply fieldLoaded_invariant, dropPending_invariant, Hinv.
  - apply robotLoaded_invariant, dropPending_invariant, Hinv.
  - exact Hinv.
Qed.

Lemma step_invariant (e : Event) (st st' : State) :
  step convert st e = Some st' -> sceneInvariant st -> sceneInvariant st'.
Proof.
  destruct e as [cmd | index | | env | k | k]; cbn [step].
  - intro H. injection H as <-. apply invariant_same_scene; reflexivity.
  - intro H. injection H as <-. apply invariant_same_scene; reflexivity.
  - intro H. injection H as <-. apply set_shouldRender_invariant.
  - apply renderFrame_invariant.
  - intro H. injection H as <-. apply completeLoad_invariant.
  - intro H. injection H as <-. apply dropPending_invariant.
Qed.

Lemma initial_invariant : sceneInvariant initial.
Proof.
  unfold sceneInvariant, coneIds. cbn.
  repeat split; try constructor; try contradiction; try discriminate.
Qed.

Lemma run_invariant (events : list Event) :
  forall st st',
    run convert st events = Some st' -> sceneInvariant st -> sceneInvariant st'.
Proof.
  induction events as [|e rest IH]; intros st st'; cbn [run].
  - intro H. injection H as <-. tauto.
  - destruct (step convert st e) as [st1|] eqn:Hstep; [|discriminate].
    intros Hrun Hinv. apply (IH st1 st' Hrun). eapply step_invariant; eassumption.
Qed.

(** Every reachable state satisfies the scene invariant. *)
Lemma reachable_invariant (st : State) :
  reachable convert st -> sceneInvariant st.
Proof.
  intros [events Hrun]. eapply run_invariant; [exact Hrun | exact initial_invariant].
Qed.

End InvariantFacts.

(** ** What a rendered frame does to the assets *)

Section FrameFacts.

Import Three Visualizer VisualizerSpec.

Variable convert : R -> string -> string -> R.

(** The camera block leaves the assets and the children alone. *)
Lemma setCamera_assets (moved : bool) (robotConfig : Config3d_Robot) (st st' : State) :
  setCamera moved robotConfig st = Some st' ->
  assets st' = assets st
  /\ coordinateChildren (scene st') = coordinateChildren (scene st)
  /\ fieldCoordinateChildren (scene st') = fieldCoordinateChildren (scene st).
Proof.
  unfold setCamera.
  destruct (resetCameraIndex (cameraIndex (view st)) (robotCameras (assets st)) <? 0)%Z.
  - intro H. injection H as <-. repeat split.
  - destruct (nth_error (cameras robotConfig) _); [|discriminate].
    intro H. injection H as <-. repeat split.
Qed.

(** The cone block changes, of the assets, only the next free identity. *)
Lemma updateAllCones_assets (cmd : Command) (st : State) :
  let st' := updateAllCones cmd st in
  robot (assets st') = robot (assets st)
  /\ field (assets st') = field (assets st)
  /\ robotCameras (assets st') = robotCameras (assets st)
  /\ lastRobotVisible (assets st') = lastRobotVisible (assets st)
  /\ lastRobotTitle (assets st') = lastRobotTitle (assets st)
  /\ lastFieldTitle (assets st') = lastFieldTitle (assets st)
  /\ pending (assets st') = pending (assets st)
  /\ coordinateChildren (scene st') = coordinateChildren (scene st).
Proof.
  unfold updateAllCones.
  destruct (updateCones (pose_green cmd) _ _ _) as [[green ch1] n1].
  destruct (updateCones (pose_blue cmd) _ _ _) as [[blue ch2] n2].
  destruct (updateCones (pose_yellow cmd) _ _ _) as [[yellow ch3] n3].
  repeat split.
Qed.

(** Effect of each block on the fields the statements below read. *)
Lemma checkFrcData_effect (env : Env) (st : State) :
  let st1 := snd (checkFrcData env st) in
  scene st1 = scene st /\ view st1 = view st
  /\ pending (assets st1) = pending (assets st)
  /\ field (assets st1) = field (assets st)
  /\ robot (assets st1) = robot (assets st)
  /\ lastRobotVisible (assets st1) = lastRobotVisible (assets st)
  /\ robotCameras (assets st1) = robotCameras (assets st)
  /\ lastRobotTitle (assets st1) = lastRobotTitle (assets st)
  /\ lastFieldTitle (assets st1) = lastFieldTitle (assets st)
  /\ nextId (assets st1) = nextId (assets st).
Proof.
  unfold checkFrcData. cbn [snd]. destruct (negb _); repeat split.
Qed.

Lemma addField_effect (fieldTitle : string) (fieldConfig : Config3d_Field) (st : State) :
  let st' := addField fieldTitle fieldConfig st in
  let changed := negb (String.eqb fieldTitle (lastFieldTitle (assets st))) in
  view st' = view st
  /\ pending (assets st')
     = pending (assets st) ++ (if changed then [FieldLoad fieldConfig] else [])
  /\ field (assets st') = field (assets st)
  /\ robot (assets st') = robot (assets st)
  /\ lastRobotVisible (assets st') = lastRobotVisible (assets st)
  /\ robotCameras (assets st') = robotCameras (assets st)
  /\ lastRobotTitle (assets st') = lastRobotTitle (assets st)
  /\ nextId (assets st') = nextId (assets st)
  /\ fieldCoordinateChildren (scene st') = fieldCoordinateChildren (scene st)
  /\ coordinateChildren (scene st')
     = (if changed
        then match field (assets st) with
             | Some f => removeChild (field_id f) (coordinateChildren (scene st))
             | None => coordinateChildren (scene st)
             end
        else coordinateChildren (scene st)).
Proof.
  unfold addField. destruct (negb _); cbn -[removeChild]; rewrite ?app_nil_r; repeat split.
Qed.

Lemma addRobot_effect (robotTitle : string) (robotConfig : Config3d_Robot)
      (newFrcData : bool) (st : State) :
  let st' := addRobot robotTitle robotConfig newFrcData st in
  let reload := negb (String.eqb robotTitle (lastRobotTitle (assets st))) || newFrcData in
  view st' = view st
  /\ pending (assets st')
     = pending (assets st) ++ (if reload then [RobotLoad robotConfig] else [])
  /\ field (assets st') = field (assets st)
  /\ robot (assets st') = (if reload then None else robot (assets st))
  /\ lastRobotVisible (assets st') = lastRobotVisible (assets st)
  /\ robotCameras (assets st') = (if reload then [] else robotCameras (assets st))
  /\ nextId (assets st') = nextId (assets st)
  /\ coordinateChildren (scene st') = coordinateChildren (scene st)
  /\ fieldCoordinateChildren (scene st')
     = (if reload
        then match robot (assets st) with
             | Some r =>
                 if lastRobotVisible (assets st)
                 then removeChild (robot_id r) (fieldCoordinateChildren (scene st))
                 else fieldCoordinateChildren (scene st)
             | None => fieldCoordinateChildren (scene st)
             end
        else fieldCoordinateChildren (scene st)).
Proof.
  unfold addRobot. destruct (_ || _); cbn -[removeChild]; rewrite ?app_nil_r; repeat split.
Qed.

Lemma setRobotPosition_effect (cmd : Command) (st : State) :
  let st' := setRobotPosition cmd st in
  view st' = view st
  /\ pending (assets st') = pending (assets st)
  /\ field (assets st') = field (assets st)
  /\ robotCameras (assets st') = robotCameras (assets st)
  /\ nextId (assets st') = nextId (assets st)
  /\ coordinateChildren (scene st') = coordinateChildren (scene st)
  /\ robot (assets st')
     = match robot (assets st), pose_robot cmd with
       | Some r, Some pose =>
           Some (mkRobotNode (robot_id r) (poseTransform pose)
                             (model_source r) (model_transform r))
       | other, _ => other
       end
  /\ lastRobotVisible (assets st')
     = match robot (assets st), pose_robot cmd with
       | Some _, Some _ => true
       | Some _, None => false
       | None, _ => lastRobotVisible (assets st)
       end.
Proof.
  unfold setRobotPosition.
  destruct (robot (assets st)) as [r|] eqn:Hr;
    [|destruct (pose_robot cmd); repeat split; exact Hr].
  destruct (pose_robot cmd); cbn -[removeChild addChild]; repeat split.
Qed.

Lemma renderScene_beforeCamera (env : Env) (cmd : Command) (st : State)
      (fieldConfig : Config3d_Field) (robotConfig : Config3d_Robot) :
  findField env (opt_field (options cmd)) = Some fieldConfig ->
  findRobot env (opt_robot (options cmd)) = Some robotConfig ->
  renderScene convert env cmd st
  = setCamera (controlsMoved env) robotConfig (beforeCamera convert env cmd fieldConfig robotConfig st).
Proof.
  intros Hfield Hrobot. unfold renderScene, beforeCamera. rewrite Hfield, Hrobot.
  destruct (checkFrcData env st). reflexivity.
Qed.

(** The assets when a rendered frame reaches the camera block. *)
Lemma beforeCamera_assets (env : Env) (cmd : Command) (st : State)
      (fieldConfig : Config3d_Field) (robotConfig : Config3d_Robot) :
  let st' := beforeCamera convert env cmd fieldConfig robotConfig st in
  let a := assets st in
  let newFrcData := fst (checkFrcData env st) in
  let reload := negb (String.eqb (opt_robot (options cmd)) (lastRobotTitle a)) || newFrcData in
  view st' = view st
  /\ pending (assets st')
     = pendingAfter (opt_field (options cmd)) (opt_robot (options cmd))
                    fieldConfig robotConfig newFrcData a
  /\ field (assets st') = field a
  /\ robot (assets st')
     = (if reload then None
        else match robot a, pose_robot cmd with
             | Some r, Some pose =>
                 Some (mkRobotNode (robot_id r) (poseTransform pose)
                                   (model_source r) (model_transform r))
             | other, _ => other
             end)
  /\ lastRobotVisible (assets st')
     = (if reload then lastRobotVisible a
        else match robot a, pose_robot cmd with
             | Some _, Some _ => true
             | Some _, None => false
             | None, _ => lastRobotVisible a
             end)
  /\ robotCameras (assets st') = (if reload then [] else robotCameras a)
  /\ coordinateChildren (scene st')
     = (if negb (String.eqb (opt_field (options cmd)) (lastFieldTitle a))
        then match field a with
             | Some f => removeChild (field_id f) (coordinateChildren (scene st))
             | None => coordinateChildren (scene st)
             end
        else coordinateChildren (scene st)).
Proof.
  unfold beforeCamera.
  pose proof (checkFrcData_effect env st) as H1.
  destruct (checkFrcData env st) as [newFrcData st1]. cbn [fst snd] in *.
  destruct H1 as (Hs1 & Hv1 & Hp1 & Hf1 & Hr1 & Hvis1 & Hc1 & Hrt1 & Hft1 & Hn1).
  set (st2 := addField (opt_field (options cmd)) fieldConfig st1).
  destruct (addField_effect (opt_field (options cmd)) fieldConfig st1)
    as (Hv2 & Hp2 & Hf2 & Hr2 & Hvis2 & Hc2 & Hrt2 & Hn2 & Hfc2 & Hcc2).
  fold st2 in Hv2, Hp2, Hf2, Hr2, Hvis2, Hc2, Hrt2, Hn2, Hfc2, Hcc2.
  set (st3 := addRobot (opt_robot (options cmd)) robotConfig newFrcData st2).
  destruct (addRobot_effect (opt_robot (options cmd)) robotConfig newFrcData st2)
    as (Hv3 & Hp3 & Hf3 & Hr3 & Hvis3 & Hc3 & Hn3 & Hcc3 & Hfc3).
  fold st3 in Hv3, Hp3, Hf3, Hr3, Hvis3, Hc3, Hn3, Hcc3, Hfc3.
  set (st4 := updateFieldCoordinates convert fieldConfig cmd st3).
  set (st5 := setRobotPosition cmd st4).
  destruct (setRobotPosition_effect cmd st4)
    as (Hv5 & Hp5 & Hf5 & Hc5 & Hn5 & Hcc5 & Hr5 & Hvis5).
  fold st5 in Hv5, Hp5, Hf5, Hc5, Hn5, Hcc5, Hr5, Hvis5.
  destruct (updateAllCones_assets cmd st5)
    as (Hr6 & Hf6 & Hc6 & Hvis6 & _ & _ & Hp6 & Hcc6).
  assert (Hv6 : view (updateAllCones cmd st5) = view st5).
  { unfold updateAllCones.
    destruct (updateCones (pose_green cmd) _ _ _) as [[green ch1] n1].
    destruct (updateCones (pose_blue cmd) _ _ _) as [[blue ch2] n2].
    destruct (updateCones (pose_yellow cmd) _ _ _) as [[yellow ch3] n3].
    reflexivity. }
  change (assets st4) with (assets st3) in *.
  change (scene st4) with
    (mkScene (coordinateChildren (scene st3)) (fieldCoordinateChildren (scene st3))
             (fieldCoordinates convert fieldConfig (opt_alliance (options cmd)))
             (coordinateOrigin (scene st3)) (greenCones (scene st3))
             (blueCones (scene st3)) (yellowCones (scene st3))) in *.
  cbn [coordinateChildren] in Hcc5.
  change (view st4) with (view st3) in *.
  rewrite Hrt2, Hrt1 in Hp3, Hr3, Hc3.
  rewrite Hft1 in Hp2, Hcc2.
  cbv zeta.
  split; [rewrite Hv6, Hv5, Hv3, Hv2, Hv1; reflexivity|].
  split; [unfold pendingAfter; rewrite Hp6, Hp5, Hp3, Hp2, Hp1; reflexivity|].
  split; [rewrite Hf6, Hf5, Hf3, Hf2, Hf1; reflexivity|].
  split; [rewrite Hr6, Hr5, Hr3, Hr2, Hr1; destruct (_ || _); reflexivity|].
  split.
  { rewrite Hvis6, Hvis5, Hr3, Hvis3, Hvis2, Hvis1, Hr2, Hr1.
    destruct (_ || _); reflexivity. }
  split; [rewrite Hc6, Hc5, Hc3, Hc2, Hc1; reflexivity|].
  rewrite Hcc6, Hcc5, Hcc3, Hcc2, Hs1, Hf1. reflexivity.
Qed.

(** The assets at the end of a rendered frame. *)
Lemma renderScene_assets (env : Env) (cmd : Command) (st st' : State)
      (fieldConfig : Config3d_Field) (robotConfig : Config3d_Robot) :
  findField env (opt_field (options cmd)) = Some fieldConfig ->
  findRobot env (opt_robot (options cmd)) = Some robotConfig ->
  renderScene convert env cmd st = Some st' ->
  let a := assets st in
  let newFrcData := fst (checkFrcData env st) in
  let reload := negb (String.eqb (opt_robot (options cmd)) (lastRobotTitle a)) || newFrcData in
  pending (assets st')
  = pendingAfter (opt_field (options cmd)) (opt_robot (options cmd))
                 fieldConfig robotConfig newFrcData a
  /\ field (assets st') = field a
  /\ robot (assets st')
     = (if reload then None
        else match robot a, pose_robot cmd with
             | Some r, Some pose =>
                 Some (mkRobotNode (robot_id r) (poseTransform pose)
                                   (model_source r) (model_transform r))
             | other, _ => other
             end)
  /\ lastRobotVisible (assets st')
     = (if reload then lastRobotVisible a
        else match robot a, pose_robot cmd with
             | Some _, Some _ => true
             | Some _, None => false
             | None, _ => lastRobotVisible a
             end)
  /\ robotCameras (assets st') = (if reload then [] else robotCameras a)
  /\ coordinateChildren (scene st')
     = (if negb (String.eqb (opt_field (options cmd)) (lastFieldTitle a))
        then match field a with
             | Some f => removeChild (field_id f) (coordinateChildren (scene st))
             | None => coordinateChildren (scene st)
             end
        else coordinateChildren (scene st)).
Proof.
  intros Hfield Hrobot Hframe.
  rewrite (renderScene_beforeCamera env cmd st fieldConfig robotConfig Hfield Hrobot) in Hframe.
  apply setCamera_assets in Hframe. destruct Hframe as (-> & -> & _).
  destruct (beforeCamera_assets env cmd st fieldConfig robotConfig)
    as (_ & H1 & H2 & H3 & H4 & H5 & H6).
  repeat split; assumption.
Qed.

Lemma checkTriggers_keeps (env : Env) (s : Scheduler) :
  let s' := checkTriggers env s in
  command s' = command s
  /\ lastFrameTime s' = lastFrameTime s
  /\ (shouldRender s = true -> shouldRender s' = true).
Proof.
  cbv zeta. unfold checkTriggers.
  destruct (preferences env) as [mode|];
    [destruct (negb (String.eqb mode (lastPrefsMode s)))|];
    match goal with
    | |- context [if ?b then _ else _] => destruct b
    end; cbn [command lastFrameTime shouldRender]; repeat split; auto.
Qed.

(** A frame on a visible view with a command and a pending redraw request,
    not held back by the frame-rate limit, runs [renderScene]. *)
Lemma renderFrame_requested (env : Env) (cmd : Command) (st : State) :
  command (scheduler st) = Some cmd ->
  hidden env = false ->
  option_eqb String.eqb (preferences env) (Some "efficiency")
  && Qlt_bool (inject_Z (now env - lastFrameTime (scheduler st)))
              (1000 / EFFICIENCY_MAX_FPS)%Q = false ->
  shouldRender (scheduler st) = true ->
  exists s0,
    command s0 = Some cmd /\ shouldRender s0 = false /\ lastFrameTime s0 = now env
    /\ renderFrame convert env st
       = renderScene convert env cmd (mkState s0 (assets st) (scene st) (view st)).
Proof.
  intros Hcmd Hvisible Hrate Hrequest.
  destruct (checkTriggers_keeps env (scheduler st)) as (Hc & Ht & Hr).
  unfold renderFrame. rewrite Hc, Hcmd, Hvisible, Ht, Hrate, (Hr Hrequest). cbn [negb].
  eexists. split; [|split; [|split; [|reflexivity]]]; reflexivity.
Qed.

(** A frame either returns before the scene is touched or runs
    [renderScene] on the visualizer's assets, scene and camera state. *)
Lemma renderFrame_renders (env : Env) (st st' : State) :
  renderFrame convert env st = Some st' ->
  (assets st' = assets st /\ scene st' = scene st /\ view st' = view st)
  \/ (exists cmd st0,
         command (checkTriggers env (scheduler st)) = Some cmd
         /\ assets st0 = assets st /\ scene st0 = scene st /\ view st0 = view st
         /\ renderScene convert env cmd st0 = Some st').
Proof.
  unfold renderFrame.
  destruct (command (checkTriggers env (scheduler st))) as [cmd|] eqn:Hcmd;
    [|intro H; injection H as <-; left; repeat split].
  destruct (hidden env); [intro H; injection H as <-; left; repeat split|].
  destruct (_ && _); [intro H; injection H as <-; left; repeat split|].
  destruct (negb _); [intro H; injection H as <-; left; repeat split|].
  intro H. right. exists cmd.
  match type of H with
  | renderScene _ _ _ ?st0 = _ => exists st0
  end.
  split; [reflexivity|]. split; [reflexivity|]. split; [reflexivity|].
  split; [reflexivity | exact H].
Qed.

End FrameFacts.

(** Evaluation of a concrete session; the geometry stays symbolic. *)
Ltac evaluate :=
  lazy -[Visualizer.getQuaternionFromRotSeq Visualizer.fieldCoordinates
         Visualizer.poseTransform Visualizer.vector3_of Visualizer.quaternion_of
         Visualizer.cameraObject Visualizer.origin Three.identity].

(** ** Robot visibility *)

Section RobotPoseFacts.

Import Three Visualizer VisualizerSpec.

Variable convert : R -> string -> string -> R.

(** [position.set(...pose.position)] and the quaternion built from
    [rotation[1], rotation[2], rotation[3], rotation[0]]. *)
Lemma poseTransform_placed (pose : Pose3d) : placedAt pose (poseTransform pose).
Proof.
  destruct pose as [[[x y] z] [[[w i] j] k]]. split; reflexivity.
Qed.

Lemma robot_loads_unchanged (a : Assets) (fieldTitle robotTitle : string)
      (fieldConfig : Config3d_Field) (robotConfig : Config3d_Robot) :
  filter isRobotLoad (pendingAfter fieldTitle robotTitle fieldConfig robotConfig false a)
  = (if negb (String.eqb robotTitle (lastRobotTitle a))
     then filter isRobotLoad (pending a) ++ [RobotLoad robotConfig]
     else filter isRobotLoad (pending a)).
Proof.
  unfold pendingAfter. rewrite !filter_app, orb_false_r.
  destruct (negb (String.eqb fieldTitle (lastFieldTitle a)));
    destruct (negb (String.eqb robotTitle (lastRobotTitle a)));
    cbn [filter isRobotLoad]; rewrite ?app_nil_r; reflexivity.
Qed.

(** C10.  In a rendered frame that starts from a state satisfying the scene
    invariant (every reachable state does) and ends with a robot node
    loaded: when the command carries no robot pose, the node is not a child
    of the field coordinate group afterwards and the robot is recorded as
    not visible;
    when it carries a pose, the node is a child of the group and recorded
    as visible, it is the node that was loaded before the frame (same
    identity and model) with its position set to the pose's (x, y, z) and
    its rotation to the pose's quaternion (w, x, y, z), no robot load was
    issued by the frame, and if the robot was not visible before the frame
    the node was not attached then. *)
Theorem robot_follows_pose
        (env : Env) (cmd : Command) (st st' : State)
        (fieldConfig : Config3d_Field) (robotConfig : Config3d_Robot) (r : RobotNode)
        (Hinv : sceneInvariant st)
        (Hfield : findField env (opt_field (options cmd)) = Some fieldConfig)
        (Hrobot : findRobot env (opt_robot (options cmd)) = Some robotConfig)
        (Hframe : renderScene convert env cmd st = Some st')
        (Hloaded : robot (assets st') = Some r) :
  (pose_robot cmd = None ->
   ~ In (robot_id r) (fieldCoordinateChildren (scene st'))
   /\ lastRobotVisible (assets st') = false)
  /\ (forall pose,
         pose_robot cmd = Some pose ->
         In (robot_id r) (fieldCoordinateChildren (scene st'))
         /\ lastRobotVisible (assets st') = true
         /\ placedAt pose (robot_transform r)
         /\ (exists r0, robot (assets st) = Some r0
                        /\ robot_id r = robot_id r0
                        /\ model_source r = model_source r0
                        /\ model_transform r = model_transform r0)
         /\ filter isRobotLoad (pending (assets st'))
            = filter isRobotLoad (pending (assets st))
         /\ (lastRobotVisible (assets st) = false ->
             ~ In (robot_id r) (fieldCoordinateChildren (scene st)))).
Proof.
  pose proof (renderScene_invariant convert env cmd st st' Hframe Hinv) as Hinv'.
  destruct (renderScene_assets convert env cmd st st' fieldConfig robotConfig
                               Hfield Hrobot Hframe)
    as (Hpending & _ & Hnode & Hvisible & _).
  cbv zeta in Hpending, Hnode, Hvisible.
  destruct Hinv' as (_ & _ & _ & _ & _ & Hattached').
  destruct (Hattached' r Hloaded) as (_ & _ & Hiff').
  rewrite Hloaded in Hnode.
  destruct (negb (String.eqb (opt_robot (options cmd)) (lastRobotTitle (assets st)))
            || fst (checkFrcData env st)) eqn:Hreload; [discriminate Hnode|].
  apply orb_false_iff in Hreload. destruct Hreload as [Htitle Hdata].
  rewrite Hdata in Hpending.
  destruct (robot (assets st)) as [r0|] eqn:Hr0; [|discriminate Hnode].
  split.
  - intro Hnone. rewrite Hnone in Hvisible. split; [|exact Hvisible].
    rewrite Hiff', Hvisible. discriminate.
  - intros pose Hpose. rewrite Hpose in Hvisible, Hnode.
    injection Hnode as Hnode. subst r. cbn [robot_id robot_transform model_source model_transform].
    cbn [robot_id] in Hiff'.
    split; [apply Hiff'; exact Hvisible|]. split; [exact Hvisible|].
    split; [apply poseTransform_placed|]. split; [exists r0; repeat split|]. split.
    + rewrite Hpending, robot_loads_unchanged, Htitle. reflexivity.
    + intro Hbefore. destruct Hinv as (_ & _ & _ & _ & _ & Hattached).
      destruct (Hattached r0 Hr0) as (_ & _ & Hiff).
      rewrite Hiff, Hbefore. discriminate.
Qed.

End RobotPoseFacts.

Lemma stateAfter_run (events : list Visualizer.Event) :
  Visualizer.run VisualizerSpec.unitsConvert Visualizer.initial events <> None ->
  Visualizer.run VisualizerSpec.unitsConvert Visualizer.initial events
  = Some (Scenario.stateAfter events).
Proof.
  unfold Scenario.stateAfter.
  destruct (Visualizer.run _ _ events); [reflexivity | congruence].
Qed.

Lemma stateAfter_invariant (events : list Visualizer.Event) :
  Visualizer.run VisualizerSpec.unitsConvert Visualizer.initial events <> None ->
  VisualizerSpec.sceneInvariant (Scenario.stateAfter events).
Proof.
  intro H. apply (reachable_invariant VisualizerSpec.unitsConvert).
  exists events. apply stateAfter_run. exact H.
Qed.

(** The robot of the example session disappears when a frame has no pose,
    and a later frame with a pose attaches the same node again, placed at
    the pose, without a new load. *)
Lemma robot_follows_pose_witness :
  let shown := Scenario.stateAfter Scenario.robotShown in
  let hidden := Scenario.stateAfter Scenario.robotHidden in
  exists st1 r1 st2 r2,
    VisualizerSpec.sceneInvariant shown
    /\ Visualizer.renderScene VisualizerSpec.unitsConvert (Scenario.window 300)
                              (Scenario.commandFor "F1" "Z" None) shown = Some st1
    /\ Visualizer.robot (Visualizer.assets st1) = Some r1
    /\ ~ In (Visualizer.robot_id r1)
            (Visualizer.fieldCoordinateChildren (Visualizer.scene st1))
    /\ Visualizer.lastRobotVisible (Visualizer.assets st1) = false
    /\ VisualizerSpec.sceneInvariant hidden
    /\ Visualizer.lastRobotVisible (Visualizer.assets hidden) = false
    /\ Visualizer.renderScene VisualizerSpec.unitsConvert (Scenario.window 400)
                              (Scenario.commandFor "F1" "Z" (Some Scenario.pose)) hidden
       = Some st2
    /\ Visualizer.robot (Visualizer.assets st2) = Some r2
    /\ In (Visualizer.robot_id r2)
          (Visualizer.fieldCoordinateChildren (Visualizer.scene st2))
    /\ Visualizer.t_position (Visualizer.robot_transform r2)
       = Three.mkVector3 (Q2R 1) (Q2R 2) (Q2R 0)
    /\ Visualizer.t_quaternion (Visualizer.robot_transform r2)
       = Three.mkQuaternion (Q2R 0) (Q2R 0) (Q2R 0) (Q2R 1)
    /\ filter VisualizerSpec.isRobotLoad (Visualizer.pending (Visualizer.assets st2))
       = filter VisualizerSpec.isRobotLoad (Visualizer.pending (Visualizer.assets hidden)).
Proof.
  intros shown hidden.
  assert (Hinv1 : VisualizerSpec.sceneInvariant shown).
  { apply stateAfter_invariant. evaluate. discriminate. }
  assert (Hinv2 : VisualizerSpec.sceneInvariant hidden).
  { apply stateAfter_invariant. evaluate. discriminate. }
  assert (Hframe1 : exists st1, Visualizer.renderScene VisualizerSpec.unitsConvert
                                  (Scenario.window 300)
                                  (Scenario.commandFor "F1" "Z" None) shown = Some st1
                                /\ exists r1, Visualizer.robot (Visualizer.assets st1)
                                              = Some r1).
  { eexists. split; [evaluate; reflexivity|]. eexists. evaluate. reflexivity. }
  assert (Hframe2 : exists st2, Visualizer.renderScene VisualizerSpec.unitsConvert
                                  (Scenario.window 400)
                                  (Scenario.commandFor "F1" "Z" (Some Scenario.pose))
                                  hidden = Some st2
                                /\ exists r2, Visualizer.robot (Visualizer.assets st2)
                                              = Some r2).
  { eexists. split; [evaluate; reflexivity|]. eexists. evaluate. reflexivity. }
  assert (Hbefore : Visualizer.lastRobotVisible (Visualizer.assets hidden) = false)
    by (evaluate; reflexivity).
  destruct Hframe1 as (st1 & Hframe1 & r1 & Hloaded1).
  destruct Hframe2 as (st2 & Hframe2 & r2 & Hloaded2).
  destruct (robot_follows_pose VisualizerSpec.unitsConvert (Scenario.window 300)
              (Scenario.commandFor "F1" "Z" None) shown st1
              Scenario.field1 Scenario.robotZ r1 Hinv1 eq_refl eq_refl Hframe1 Hloaded1)
    as [Habsent _].
  destruct (Habsent eq_refl) as [Hdetached Hrecorded].
  destruct (robot_follows_pose VisualizerSpec.unitsConvert (Scenario.window 400)
              (Scenario.commandFor "F1" "Z" (Some Scenario.pose)) hidden st2
              Scenario.field1 Scenario.robotZ r2 Hinv2 eq_refl eq_refl Hframe2 Hloaded2)
    as [_ Hpresent].
  destruct (Hpresent Scenario.pose eq_refl)
    as (Hattached & _ & [Hposition Hrotation] & _ & Hloads & _).
  exists st1, r1, st2, r2. repeat (split; [assumption|]). exact Hloads.
Defined.

(** ** Replacing a node *)

Section ReplacementFacts.

Import Three Visualizer VisualizerSpec.

Variable convert : R -> string -> string -> R.

Lemma setRobotPosition_none (cmd : Command) (st : State) :
  robot (assets st) = None -> setRobotPosition cmd st = st.
Proof. unfold setRobotPosition. intros ->. reflexivity. Qed.

(** Children the cone block leaves in the group are old children or new
    cones. *)
Lemma updateAllCones_children (cmd : Command) (st : State) (x : nat) :
  In x (fieldCoordinateChildren (scene (updateAllCones cmd st))) ->
  In x (fieldCoordinateChildren (scene st)) \/ (nextId (assets st) <= x)%nat.
Proof.
  unfold updateAllCones.
  pose proof (updateCones_ids (pose_green cmd) (greenCones (scene st))
                              (fieldCoordinateChildren (scene st)) (nextId (assets st))) as H1.
  destruct (updateCones (pose_green cmd) (greenCones (scene st))
                        (fieldCoordinateChildren (scene st)) (nextId (assets st)))
    as [[green ch1] n1].
  pose proof (updateCones_ids (pose_blue cmd) (blueCones (scene st)) ch1 n1) as H2.
  destruct (updateCones (pose_blue cmd) (blueCones (scene st)) ch1 n1) as [[blue ch2] n2].
  pose proof (updateCones_ids (pose_yellow cmd) (yellowCones (scene st)) ch2 n2) as H3.
  destruct (updateCones (pose_yellow cmd) (yellowCones (scene st)) ch2 n2)
    as [[yellow ch3] n3].
  destruct H1 as (Hn1 & _ & Hch1 & _). destruct H2 as (Hn2 & _ & Hch2 & _).
  destruct H3 as (Hn3 & _ & Hch3 & _).
  cbn [scene fieldCoordinateChildren]. intro Hin.
  destruct (Hch3 x Hin) as [Hin2 | ?]; [|right; lia].
  destruct (Hch2 x Hin2) as [Hin1 | ?]; [|right; lia].
  destruct (Hch1 x Hin1) as [Hin0 | ?]; [left; exact Hin0 | right; lia].
Qed.

(** A robot node that is being replaced is out of the group when the frame
    reaches the camera block. *)
Lemma beforeCamera_robot_replaced (env : Env) (cmd : Command) (st : State)
      (fieldConfig : Config3d_Field) (robotConfig : Config3d_Robot) (r : RobotNode) :
  sceneInvariant st ->
  robot (assets st) = Some r ->
  String.eqb (opt_robot (options cmd)) (lastRobotTitle (assets st)) = false ->
  ~ In (robot_id r)
       (fieldCoordinateChildren
          (scene (beforeCamera convert env cmd fieldConfig robotConfig st))).
Proof.
  intros Hinv Hr Htitle. unfold beforeCamera.
  pose proof (checkFrcData_effect env st) as H1.
  destruct (checkFrcData env st) as [newFrcData st1]. cbn [fst snd] in *.
  destruct H1 as (Hs1 & Hv1 & Hp1 & Hf1 & Hr1 & Hvis1 & Hc1 & Hrt1 & Hft1 & Hn1).
  set (st2 := addField (opt_field (options cmd)) fieldConfig st1).
  destruct (addField_effect (opt_field (options cmd)) fieldConfig st1)
    as (Hv2 & Hp2 & Hf2 & Hr2 & Hvis2 & Hc2 & Hrt2 & Hn2 & Hfc2 & Hcc2).
  fold st2 in Hv2, Hp2, Hf2, Hr2, Hvis2, Hc2, Hrt2, Hn2, Hfc2, Hcc2.
  set (st3 := addRobot (opt_robot (options cmd)) robotConfig newFrcData st2).
  destruct (addRobot_effect (opt_robot (options cmd)) robotConfig newFrcData st2)
    as (Hv3 & Hp3 & Hf3 & Hr3 & Hvis3 & Hc3 & Hn3 & Hcc3 & Hfc3).
  fold st3 in Hv3, Hp3, Hf3, Hr3, Hvis3, Hc3, Hn3, Hcc3, Hfc3.
  rewrite Hrt2, Hrt1, Htitle in Hr3, Hfc3. cbn [negb orb] in Hr3, Hfc3.
  rewrite Hr2, Hr1, Hr, Hvis2, Hvis1, Hfc2, Hs1 in Hfc3.
  set (st4 := updateFieldCoordinates convert fieldConfig cmd st3).
  assert (Hr4 : robot (assets st4) = None) by exact Hr3.
  rewrite (setRobotPosition_none cmd st4 Hr4).
  destruct Hinv as (_ & Hnd & _ & _ & _ & Hattached).
  destruct (Hattached r Hr) as (Hlt & _ & Hiff).
  intro Hin. apply updateAllCones_children in Hin.
  change (fieldCoordinateChildren (scene st4)) with (fieldCoordinateChildren (scene st3)) in Hin.
  change (nextId (assets st4)) with (nextId (assets st3)) in Hin.
  rewrite Hn3, Hn2, Hn1, Hfc3 in Hin.
  destruct Hin as [Hin | Hge]; [|lia].
  destruct (lastRobotVisible (assets st)) eqn:Hvis.
  - exact (removeChild_gone _ _ Hnd Hin).
  - apply Hiff in Hin. discriminate Hin.
Qed.

(** C2 (amended).  In a rendered frame that starts from a state satisfying
    the scene invariant (every reachable state does) and whose requested
    field (robot) title
    differs from the last one, the previously installed field (robot) node
    is not a child of its coordinate group when the frame ends, although
    the load just issued for the new title is still pending; the field
    slot keeps referring to the detached node and the robot slot is
    emptied. *)
Theorem replaced_node_detached
        (env : Env) (cmd : Command) (st st' : State)
        (fieldConfig : Config3d_Field) (robotConfig : Config3d_Robot)
        (Hinv : sceneInvariant st)
        (Hfield : findField env (opt_field (options cmd)) = Some fieldConfig)
        (Hrobot : findRobot env (opt_robot (options cmd)) = Some robotConfig)
        (Hframe : renderScene convert env cmd st = Some st') :
  (forall f,
      field (assets st) = Some f ->
      String.eqb (opt_field (options cmd)) (lastFieldTitle (assets st)) = false ->
      ~ In (field_id f) (coordinateChildren (scene st'))
      /\ field (assets st') = Some f
      /\ In (FieldLoad fieldConfig) (pending (assets st')))
  /\ (forall r,
         robot (assets st) = Some r ->
         String.eqb (opt_robot (options cmd)) (lastRobotTitle (assets st)) = false ->
         ~ In (robot_id r) (fieldCoordinateChildren (scene st'))
         /\ robot (assets st') = None
         /\ In (RobotLoad robotConfig) (pending (assets st'))).
Proof.
  destruct (renderScene_assets convert env cmd st st' fieldConfig robotConfig
                               Hfield Hrobot Hframe)
    as (Hpending & Hslot & Hnode & _ & _ & Hchildren).
  cbv zeta in Hpending, Hnode, Hchildren. split.
  - intros f Hf Htitle. rewrite Htitle, Hf in Hchildren. cbn [negb] in Hchildren.
    split; [|split].
    + rewrite Hchildren. apply removeChild_gone. apply Hinv.
    + rewrite Hslot. exact Hf.
    + rewrite Hpending. unfold pendingAfter. rewrite Htitle. cbn [negb].
      apply in_or_app. left. apply in_or_app. right. left. reflexivity.
  - intros r Hr Htitle. rewrite Htitle in Hnode. cbn [negb orb] in Hnode.
    split; [|split].
    + rewrite (renderScene_beforeCamera convert env cmd st fieldConfig robotConfig
                                        Hfield Hrobot) in Hframe.
      apply setCamera_assets in Hframe. destruct Hframe as (_ & _ & ->).
      apply beforeCamera_robot_replaced; assumption.
    + exact Hnode.
    + rewrite Hpending. unfold pendingAfter. rewrite Htitle. cbn [negb orb].
      apply in_or_app. right. left. reflexivity.
Qed.

End ReplacementFacts.

(** In the example session, requesting field "F2" detaches the node of
    "F1" in the frame that issues the load. *)
Lemma replaced_node_detached_witness :
  let st := Scenario.stateAfter Scenario.robotShown in
  let cmd := Scenario.commandFor "F2" "Z" (Some Scenario.pose) in
  exists st' f,
    VisualizerSpec.sceneInvariant st
    /\ Visualizer.renderScene VisualizerSpec.unitsConvert (Scenario.window 300) cmd st = Some st'
    /\ Visualizer.field (Visualizer.assets st) = Some f
    /\ ~ In (Visualizer.field_id f) (Visualizer.coordinateChildren (Visualizer.scene st'))
    /\ In (Visualizer.FieldLoad Scenario.field2)
          (Visualizer.pending (Visualizer.assets st')).
Proof.
  intros st cmd.
  assert (Hinv : VisualizerSpec.sceneInvariant st).
  { apply stateAfter_invariant. evaluate. discriminate. }
  assert (Hframe : exists st', Visualizer.renderScene VisualizerSpec.unitsConvert
                                 (Scenario.window 300) cmd st = Some st').
  { eexists. evaluate. reflexivity. }
  assert (Hslot : exists f, Visualizer.field (Visualizer.assets st) = Some f).
  { eexists. evaluate. reflexivity. }
  destruct Hframe as (st' & Hframe). destruct Hslot as (f & Hslot).
  exists st', f. split; [exact Hinv|]. split; [exact Hframe|]. split; [exact Hslot|].
  destruct (replaced_node_detached VisualizerSpec.unitsConvert (Scenario.window 300) cmd
              st st' Scenario.field2 Scenario.robotZ Hinv eq_refl eq_refl Hframe)
    as [Hfield _].
  destruct (Hfield f Hslot) as (Hgone & _ & Hpending); [evaluate; reflexivity|].
  split; [exact Hgone | exact Hpending].
Defined.

(** C2 as stated fails on the code: in the example session the node of
    field "F1" is attached; the frame that requests field "F2" removes it,
    and while the load of "F2" is pending no field node is attached. *)
Lemma previous_node_gap_counterexample :
  let before := Scenario.stateAfter Scenario.robotShown in
  let during := Scenario.stateAfter Scenario.fieldReplaced in
  Visualizer.run VisualizerSpec.unitsConvert Visualizer.initial Scenario.fieldReplaced
  = Some during
  /\ Visualizer.coordinateChildren (Visualizer.scene before) = [0%nat]
  /\ option_map Visualizer.field_id (Visualizer.field (Visualizer.assets before)) = Some 0%nat
  /\ Visualizer.lastFieldTitle (Visualizer.assets during) = "F2"
  /\ Visualizer.pending (Visualizer.assets during) = [Visualizer.FieldLoad Scenario.field2]
  /\ Visualizer.coordinateChildren (Visualizer.scene during) = [].
Proof.
  cbv zeta. split; [apply stateAfter_run; evaluate; discriminate|].
  repeat split; evaluate; reflexivity.
Qed.

(** ** Completion of a robot load *)

Section LoadFacts.

Import Three Visualizer VisualizerSpec.

Variable convert : R -> string -> string -> R.

(** C1 (amended).  The completion callback of a robot-model load does not
    compare the title it was loading for with the title now requested:
    whenever a pending robot load completes, the callback installs a new
    node built from the descriptor the load was issued for as the robot
    node, with that descriptor's camera mounts, and attaches it to the
    field coordinate group exactly when the robot was last visible; the
    last requested title is left as it is.  A robot load that completes
    afterwards replaces the slot's node in the same way, so the slot then
    holds the node of the load that completed last. *)
Theorem robot_load_installed
        (st : State) (k : nat) (robotConfig : Config3d_Robot)
        (Hpending : nth_error (pending (assets st)) k = Some (RobotLoad robotConfig)) :
  let st' := completeLoad convert k st in
  (exists node,
      robot (assets st') = Some node
      /\ robot_id node = nextId (assets st)
      /\ model_source node = robot_path robotConfig
      /\ model_transform node
         = mkTransform (vector3_of (robot_position robotConfig))
                       (getQuaternionFromRotSeq convert (robot_rotations robotConfig)))
  /\ robotCameras (assets st') = map (cameraObject convert) (cameras robotConfig)
  /\ lastRobotTitle (assets st') = lastRobotTitle (assets st)
  /\ fieldCoordinateChildren (scene st')
     = (if lastRobotVisible (assets st)
        then addChild (nextId (assets st)) (fieldCoordinateChildren (scene st))
        else fieldCoordinateChildren (scene st))
  /\ pending (assets st') = removeNth k (pending (assets st))
  /\ shouldRender (scheduler st') = true
  /\ (forall k' later,
         nth_error (pending (assets st')) k' = Some (RobotLoad later) ->
         exists node',
           robot (assets (completeLoad convert k' st')) = Some node'
           /\ robot_id node' = S (nextId (assets st))
           /\ model_source node' = robot_path later).
Proof.
  assert (Hstep : completeLoad convert k st
                  = robotLoaded convert robotConfig (dropPending k st))
    by (unfold completeLoad; rewrite Hpending; reflexivity).
  intro st'. subst st'. rewrite Hstep.
  split; [eexists; repeat split|].
  split; [reflexivity|]. split; [reflexivity|]. split; [reflexivity|].
  split; [reflexivity|]. split; [reflexivity|].
  intros k' later Hlater. unfold completeLoad. rewrite Hlater.
  eexists. repeat split.
Qed.

End LoadFacts.

(** In the example session the load of robot "A" is pending when robot
    "B" is requested; its completion installs the node of "A". *)
Lemma robot_load_installed_witness :
  let st := Scenario.stateAfter Scenario.robotSuperseded in
  Visualizer.lastRobotTitle (Visualizer.assets st) = "B"
  /\ nth_error (Visualizer.pending (Visualizer.assets st)) 0
     = Some (Visualizer.RobotLoad Scenario.robotA)
  /\ exists node,
      Visualizer.robot
        (Visualizer.assets (Visualizer.completeLoad VisualizerSpec.unitsConvert 0 st))
      = Some node
      /\ Visualizer.model_source node = "robots/a.glb".
Proof.
  intro st.
  assert (Hpending : nth_error (Visualizer.pending (Visualizer.assets st)) 0
                     = Some (Visualizer.RobotLoad Scenario.robotA))
    by (evaluate; reflexivity).
  split; [evaluate; reflexivity|]. split; [exact Hpending|].
  destruct (robot_load_installed VisualizerSpec.unitsConvert st 0 Scenario.robotA Hpending)
    as [(node & Hnode & _ & Hsource & _) _].
  exists node. split; [exact Hnode | exact Hsource].
Defined.

(** C1 as stated fails on the code: in the example session robot "B" has
    superseded robot "A" while the load of "A" is pending.  When that load
    completes its node is installed and attached, and after the load of
    "B" completes two robot nodes are children of the field coordinate
    group. *)
Lemma stale_load_counterexample :
  let st := Scenario.stateAfter Scenario.robotSuperseded in
  let afterA := Visualizer.completeLoad VisualizerSpec.unitsConvert 0 st in
  let afterB := Visualizer.completeLoad VisualizerSpec.unitsConvert 0 afterA in
  Visualizer.run VisualizerSpec.unitsConvert Visualizer.initial Scenario.robotSuperseded
  = Some st
  /\ Visualizer.lastRobotTitle (Visualizer.assets st) = "B"
  /\ Visualizer.pending (Visualizer.assets st)
     = [Visualizer.RobotLoad Scenario.robotA; Visualizer.RobotLoad Scenario.robotB]
  /\ Visualizer.fieldCoordinateChildren (Visualizer.scene st) = []
  /\ option_map Visualizer.model_source (Visualizer.robot (Visualizer.assets afterA))
     = Some "robots/a.glb"
  /\ Visualizer.fieldCoordinateChildren (Visualizer.scene afterA) = [2%nat]
  /\ option_map Visualizer.model_source (Visualizer.robot (Visualizer.assets afterB))
     = Some "robots/b.glb"
  /\ Visualizer.fieldCoordinateChildren (Visualizer.scene afterB) = [2%nat; 3%nat].
Proof.
  cbv zeta. split; [apply stateAfter_run; evaluate; discriminate|].
  repeat split; evaluate; reflexivity.
Qed.

(** ** Camera selection *)

Section CameraFacts.

Import Three Visualizer VisualizerSpec.

Variable convert : R -> string -> string -> R.




End CameraFacts.



(** * Further properties of the controller *)

(** ** Trails *)

Section TrailCoverage.

Import Odometry OdometrySpec OdometryCoverage.
Local Open Scope Q_scope.

Variable convert : Q -> string -> string -> Q.
Variable getNumberArray : string -> Bound -> Bound -> option LogData.
Variable UNIT_DISTANCE UNIT_ROTATION : string.

Lemma pushAt_length (i : nat) (p : Translation2d) (trails : list (list Translation2d)) :
  length (pushAt i p trails) = length trails.
Proof.
  revert i. induction trails as [|tr rest IH]; intros [|i]; cbn [pushAt length];
    try reflexivity.
  rewrite IH. reflexivity.
Qed.

Lemma pushAt_nth (i j : nat) (p : Translation2d) (trails : list (list Translation2d)) :
  nth_error (pushAt i p trails) j
  = if (i =? j)%nat then option_map (fun tr => tr ++ [p]) (nth_error trails j)
    else nth_error trails j.
Proof.
  revert i j. induction trails as [|tr rest IH]; intros i j.
  - replace (pushAt i p []) with (@nil (list Translation2d)) by (destruct i; reflexivity).
    destruct j; cbn [nth_error option_map]; destruct (i =? _)%nat; reflexivity.
  - destruct i as [|i], j as [|j]; cbn [pushAt nth_error Nat.eqb option_map];
      try reflexivity.
    apply IH.
Qed.

(** The inner loop over the poses [first .. first + count - 1] of one value. *)
Lemma pushPoses_nth (point : nat -> Translation2d) (count : nat) :
  forall (first : nat) (trails : list (list Translation2d)) (j : nat),
    nth_error (fold_left (fun acc i => pushAt i (point i) acc) (seq first count) trails) j
    = if ((first <=? j) && (j <? first + count))%nat
      then option_map (fun tr => tr ++ [point j]) (nth_error trails j)
      else nth_error trails j.
Proof.
  induction count as [|count IH]; intros first trails j; cbn [seq fold_left].
  - replace (j <? first + 0)%nat with (j <? first)%nat by (f_equal; lia).
    destruct (first <=? j)%nat eqn:E1, (j <? first)%nat eqn:E2; cbn [andb]; try reflexivity.
    apply Nat.leb_le in E1. apply Nat.ltb_lt in E2. lia.
  - rewrite IH, pushAt_nth.
    destruct (Nat.eqb_spec first j), (Nat.leb_spec (S first) j),
      (Nat.ltb_spec j (S first + count)), (Nat.leb_spec first j),
      (Nat.ltb_spec j (first + S count)); cbn [andb]; try lia; subst;
      reflexivity.
Qed.

Lemma pushPoses_length (point : nat -> Translation2d) (l : list nat) :
  forall trails,
    length (fold_left (fun acc i => pushAt i (point i) acc) l trails) = length trails.
Proof.
  induction l as [|i l IH]; intro trails; cbn [fold_left]; [reflexivity|].
  rewrite IH. apply pushAt_length.
Qed.

Lemma pushTrailValue_length (trails : list (list Translation2d)) (v : list Q) :
  length (pushTrailValue convert UNIT_DISTANCE trails v) = length trails.
Proof.
  unfold pushTrailValue. destruct (_ =? 0)%nat; [|reflexivity].
  apply (pushPoses_length (fun i => (convert (at_index v (i * 3)) UNIT_DISTANCE "meters",
                                     convert (at_index v (i * 3 + 1)) UNIT_DISTANCE "meters"))).
Qed.

Lemma pushTrailValue_nth (trails : list (list Translation2d)) (v : list Q) (j : nat) :
  nth_error (pushTrailValue convert UNIT_DISTANCE trails v) j
  = if holdsPose j v
    then option_map (fun tr => tr ++ [trailPoint convert UNIT_DISTANCE j v])
                    (nth_error trails j)
    else nth_error trails j.
Proof.
  unfold pushTrailValue, holdsPose.
  destruct (length v mod 3 =? 0)%nat; cbn [andb]; [|reflexivity].
  rewrite (pushPoses_nth (fun i => trailPoint convert UNIT_DISTANCE i v)).
  cbn [Nat.leb Nat.add andb]. reflexivity.
Qed.

(** The trails after the whole value loop. *)
Lemma pushTrailValues_nth (values : list (list Q)) :
  forall (trails : list (list Translation2d)) (j : nat),
    nth_error (fold_left (pushTrailValue convert UNIT_DISTANCE) values trails) j
    = option_map
        (fun tr => tr ++ map (trailPoint convert UNIT_DISTANCE j) (filter (holdsPose j) values))
        (nth_error trails j).
Proof.
  induction values as [|v values IH]; intros trails j; cbn [fold_left filter map].
  - destruct (nth_error trails j); cbn [option_map]; [rewrite app_nil_r|]; reflexivity.
  - rewrite IH, pushTrailValue_nth.
    destruct (holdsPose j v); [|reflexivity].
    destruct (nth_error trails j); cbn [option_map map]; [|reflexivity].
    rewrite <- app_assoc. reflexivity.
Qed.

Lemma pushTrailValues_length (values : list (list Q)) :
  forall trails,
    length (fold_left (pushTrailValue convert UNIT_DISTANCE) values trails) = length trails.
Proof.
  induction values as [|v values IH]; intro trails; cbn [fold_left]; [reflexivity|].
  rewrite IH. apply pushTrailValue_length.
Qed.

Lemma getTrails_length (time : Q) (key : string) (currentRobotData : list Pose2d) :
  length (getTrails convert getNumberArray UNIT_DISTANCE time key currentRobotData)
  = length currentRobotData.
Proof.
  unfold getTrails. destruct (getNumberArray key _ _).
  - rewrite pushTrailValues_length. apply length_map.
  - apply length_map.
Qed.

(** X1.  The trail of the robot at position [i] of the decoded pose array
    holds, in log order, one point per trimmed trail sample whose length is
    a multiple of 3 and which encodes more than [i] poses: the converted
    (x, y) of that sample's [i]-th pose.  Without trail data every trail is
    empty, and there is always exactly one trail per decoded pose. *)
Theorem getTrails_by_index (time : Q) (key : string) (currentRobotData : list Pose2d) :
  let trails := getTrails convert getNumberArray UNIT_DISTANCE time key currentRobotData in
  length trails = length currentRobotData
  /\ (forall i, (i < length currentRobotData)%nat ->
       nth_error trails i
       = Some match getNumberArray key (Finite (time - TRAIL_LENGTH_SECS))
                                   (Finite (time + TRAIL_LENGTH_SECS)) with
              | Some trailLogData =>
                  map (trailPoint convert UNIT_DISTANCE i)
                      (filter (holdsPose i) (map snd (trimTrail time trailLogData)))
              | None => []
              end).
Proof.
  intro trails. subst trails. split; [apply getTrails_length|].
  intros i Hi. unfold getTrails.
  assert (Hempty : nth_error (map (fun _ : Pose2d => @nil Translation2d) currentRobotData) i
                   = Some []).
  { rewrite nth_error_map. destruct (nth_error currentRobotData i) eqn:E; [reflexivity|].
    apply nth_error_None in E. lia. }
  destruct (getNumberArray key _ _); [|exact Hempty].
  rewrite pushTrailValues_nth, Hempty. reflexivity.
Qed.

End TrailCoverage.

(** ** The field loop and the command *)

Section CommandCoverage.

Import Odometry OdometrySpec OdometryCoverage.
Local Open Scope Q_scope.

Variable convert : Q -> string -> string -> Q.
Variable getNumberArray : string -> Bound -> Bound -> option LogData.
Variable UNIT_DISTANCE UNIT_ROTATION : string.
Variable getEnabledData : option EnabledData.

Lemma checkEnabled_raises (enabledFilter : bool) (enabledData : option EnabledData)
      (timestamp : Q) :
  checkEnabled enabledFilter enabledData timestamp = None
  <-> enabledFilter = true /\ enabledData = None.
Proof.
  unfold checkEnabled. destruct enabledFilter.
  - destruct enabledData as [e|].
    + split; [|intros [_ H]; discriminate].
      destruct (find _ (rev e)) as [[t b]|]; discriminate.
    + split; [split; reflexivity | reflexivity].
  - split; [discriminate | intros [H _]; discriminate].
Qed.

Lemma resample_returns (enabledFilter : bool) (enabledData : option EnabledData)
      (c : Q) (d : LogData) :
  ~ (enabledFilter = true /\ enabledData = None) ->
  exists out, resample enabledFilter enabledData c d = Some out.
Proof.
  intros Hnot. induction d as [|[t v] rest [more IH]]; [eexists; reflexivity|].
  cbn [resample]. destruct (checkEnabled enabledFilter enabledData t) eqn:E.
  - rewrite IH. eexists; reflexivity.
  - apply checkEnabled_raises in E. contradiction.
Qed.

(** The sample loop raises exactly when the enabled filter is on, there is
    no enabled data, and there is at least one raw sample. *)
Lemma resample_raises (enabledFilter : bool) (enabledData : option EnabledData)
      (c : Q) (d : LogData) :
  resample enabledFilter enabledData c d = None
  <-> enabledFilter = true /\ enabledData = None /\ d <> [].
Proof.
  split.
  - intros H.
    assert (Hraise : enabledFilter = true /\ enabledData = None).
    { destruct enabledFilter; [destruct enabledData as [e|]|].
      - destruct (resample_returns true (Some e) c d) as [out E];
          [intros [_ F]; discriminate | congruence].
      - split; reflexivity.
      - destruct (resample_returns false enabledData c d) as [out E];
          [intros [F _]; discriminate | congruence]. }
    destruct Hraise as [-> ->]. repeat split.
    intros ->. discriminate.
  - intros (-> & -> & Hd). destruct d as [|[t v] rest]; [congruence|]. reflexivity.
Qed.

Lemma heatmapField_raises (enabledFilter : bool) (key : string) :
  heatmapField convert getNumberArray UNIT_DISTANCE getEnabledData enabledFilter key = None
  <-> enabledFilter = true /\ getEnabledData = None
      /\ exists d, getNumberArray key NegInfinity Infinity = Some d /\ d <> [].
Proof.
  unfold heatmapField.
  destruct (getNumberArray key NegInfinity Infinity) as [d|].
  - rewrite resample_raises. split.
    + intros (-> & E & Hd). repeat split; [exact E | exists d; split; [reflexivity | exact Hd]].
    + intros (-> & E & d' & [= <-] & Hd). repeat split; assumption.
  - split; [discriminate | intros (_ & _ & d & F & _); discriminate].
Qed.

Ltac field_cases type :=
  destruct (String.eqb_spec type "Robot") as [->|];
  [|destruct (String.eqb_spec type "Ghost") as [->|];
    [|destruct (String.eqb_spec type "Trajectory") as [->|];
      [|destruct (String.eqb_spec type "Vision Target") as [->|];
        [|destruct (String.eqb_spec type "Heatmap") as [->|];
          [|destruct (String.eqb_spec type "Heatmap (Enabled)") as [->|];
            [|destruct (String.eqb_spec type "Arrow (Front)") as [->|];
              [|destruct (String.eqb_spec type "Arrow (Center)") as [->|];
                [|destruct (String.eqb_spec type "Arrow (Back)") as [->|]]]]]]]]].

Lemma collectField_raises (time : Q) (acc : Collected) (field : string * string) :
  collectField convert getNumberArray UNIT_DISTANCE UNIT_ROTATION getEnabledData
               time acc field = None
  <-> raisingField getNumberArray getEnabledData field.
Proof.
  destruct field as [key type]. unfold raisingField, collectField. cbn [fst snd].
  destruct acc as [r tr g tj vt hm af ac ab].
  field_cases type; cbn [String.eqb Ascii.eqb Bool.eqb orb andb];
    try (split; [discriminate | intros [F _]; congruence]).
  - destruct (heatmapField _ _ _ _ false key) eqn:E.
    + split; [discriminate | intros [F _]; discriminate].
    + apply heatmapField_raises in E. destruct E as [F _]. discriminate.
  - destruct (heatmapField _ _ _ _ true key) eqn:E.
    + split; [discriminate|]. intros (_ & He & Hd).
      assert (F : heatmapField convert getNumberArray UNIT_DISTANCE getEnabledData true key
                  = None) by (apply heatmapField_raises; auto).
      congruence.
    + apply heatmapField_raises in E. destruct E as (_ & He & Hd).
      split; auto.
Qed.

Lemma collectFields_raises (time : Q) (fields : list (string * string)) :
  forall acc,
    collectFields convert getNumberArray UNIT_DISTANCE UNIT_ROTATION getEnabledData
                  time acc fields = None
    <-> Exists (raisingField getNumberArray getEnabledData) fields.
Proof.
  induction fields as [|f rest IH]; intros acc; cbn [collectFields].
  - split; [discriminate | intros H; inversion H].
  - destruct (collectField _ _ _ _ _ time acc f) as [acc'|] eqn:E.
    + rewrite IH. split; [apply Exists_cons_tl|].
      intros H. inversion H as [? ? Hf|]; subst; [|assumption].
      apply (collectField_raises time acc) in Hf. congruence.
    + apply collectField_raises in E. split; [intros _; apply Exists_cons_hd, E | reflexivity].
Qed.


Variable getIsRedAlliance : bool.
Variable ALLIANCE_BUMPERS ALLIANCE_ORIGIN : string.

(** X2.  [getCommand] raises exactly when the field list holds a
    "Heatmap (Enabled)" field whose key has at least one logged sample while
    the log has no enabled data; in every other case it returns a command. *)
Theorem getCommand_raises (fields : list (string * string)) (time : Q) :
  getCommand convert getNumberArray UNIT_DISTANCE UNIT_ROTATION getEnabledData
             getIsRedAlliance ALLIANCE_BUMPERS ALLIANCE_ORIGIN fields time = None
  <-> getEnabledData = None
      /\ exists key d, In (key, "Heatmap (Enabled)") fields
                       /\ getNumberArray key NegInfinity Infinity = Some d /\ d <> [].
Proof.
  unfold getCommand.
  destruct (collectFields _ _ _ _ _ time nothingCollected fields) as [c|] eqn:E.
  - split; [discriminate|]. intros (He & key & d & Hin & Hd & Hne). exfalso.
    assert (F : collectFields convert getNumberArray UNIT_DISTANCE UNIT_ROTATION
                              getEnabledData time nothingCollected fields = None).
    { apply collectFields_raises, Exists_exists. exists (key, "Heatmap (Enabled)").
      split; [exact Hin|]. repeat split; [exact He|]. exists d. split; assumption. }
    congruence.
  - apply collectFields_raises, Exists_exists in E.
    destruct E as ([key type] & Hin & Ht & He & d & Hd & Hne). cbn [fst snd] in *. subst type.
    split; [intros _|reflexivity]. split; [exact He|]. exists key, d. repeat split; assumption.
Qed.

Lemma appendCollected_assoc (a b c : Collected) :
  appendCollected (appendCollected a b) c = appendCollected a (appendCollected b c).
Proof. unfold appendCollected. cbn. rewrite <- !app_assoc. reflexivity. Qed.

Lemma collectedBy_cons (time : Q) (f : string * string) (rest : list (string * string)) :
  collectedBy convert getNumberArray UNIT_DISTANCE UNIT_ROTATION getEnabledData time (f :: rest)
  = appendCollected
      (collectedBy convert getNumberArray UNIT_DISTANCE UNIT_ROTATION getEnabledData time [f])
      (collectedBy convert getNumberArray UNIT_DISTANCE UNIT_ROTATION getEnabledData time rest).
Proof.
  unfold collectedBy, appendCollected. cbn [robotData trailData ghostData trajectoryData
    visionTargetData heatmapData arrowFrontData arrowCenterData arrowBackData filter].
  f_equal;
    match goal with
    | |- context [if ?b then _ else _] => destruct b
    end; cbn [flat_map map app]; rewrite ?app_nil_r; reflexivity.
Qed.

Lemma collectField_by_type (time : Q) (acc acc' : Collected) (field : string * string) :
  collectField convert getNumberArray UNIT_DISTANCE UNIT_ROTATION getEnabledData
               time acc field = Some acc' ->
  acc' = appendCollected acc
           (collectedBy convert getNumberArray UNIT_DISTANCE UNIT_ROTATION getEnabledData
                        time [field]).
Proof.
  destruct field as [key type]. destruct acc as [r tr g tj vt hm af ac ab].
  unfold collectField, collectedBy, appendCollected, isHeatmap, samplesOf, hasType,
    trailsOf, decoded.
  cbn [robotData trailData ghostData trajectoryData visionTargetData heatmapData
       arrowFrontData arrowCenterData arrowBackData filter fst snd].
  field_cases type;
    cbn [String.eqb Ascii.eqb Bool.eqb orb andb flat_map map app fst snd];
    rewrite ?app_nil_r;
    try (intros [= <-]; reflexivity).
  - destruct (heatmapField _ _ _ _ false key); [|discriminate].
    intros [= <-]. reflexivity.
  - destruct (heatmapField _ _ _ _ true key); [|discriminate].
    intros [= <-]. reflexivity.
Qed.

Lemma collectFields_by_type (time : Q) (fields : list (string * string)) :
  forall acc c,
    collectFields convert getNumberArray UNIT_DISTANCE UNIT_ROTATION getEnabledData
                  time acc fields = Some c ->
    c = appendCollected acc
          (collectedBy convert getNumberArray UNIT_DISTANCE UNIT_ROTATION getEnabledData
                       time fields).
Proof.
  induction fields as [|f rest IH]; intros acc c; cbn [collectFields].
  - intros [= <-]. destruct acc. unfold appendCollected. cbn. rewrite !app_nil_r. reflexivity.
  - destruct (collectField _ _ _ _ _ time acc f) as [acc'|] eqn:E; [|discriminate].
    intros H. apply IH in H. apply collectField_by_type in E.
    rewrite collectedBy_cons, <- appendCollected_assoc, <- E. exact H.
Qed.

Lemma getCommand_collected (fields : list (string * string)) (time : Q) (cmd : Command) :
  getCommand convert getNumberArray UNIT_DISTANCE UNIT_ROTATION getEnabledData
             getIsRedAlliance ALLIANCE_BUMPERS ALLIANCE_ORIGIN fields time = Some cmd ->
  let c := collectedBy convert getNumberArray UNIT_DISTANCE UNIT_ROTATION getEnabledData
                       time fields in
  poses cmd = {| robot := robotData c;
                 trail := trailData c;
                 ghost := ghostData c;
                 trajectory := trajectoryData c;
                 visionTarget := visionTargetData c;
                 heatmap := filterHeatmap (heatmapData c);
                 arrowFront := arrowFrontData c;
                 arrowCenter := arrowCenterData c;
                 arrowBack := arrowBackData c |}.
Proof.
  unfold getCommand.
  destruct (collectFields _ _ _ _ _ time nothingCollected fields) as [c|] eqn:E; [|discriminate].
  intros [= <-]. apply collectFields_by_type in E. subst c. reflexivity.
Qed.

(** X3.  Every array of a returned command is assembled by field type, in
    field order: the robot, ghost, vision-target and arrow arrays concatenate
    the decoded poses of the fields of their type, the trajectory array holds
    one decoded path per "Trajectory" field, the trail array concatenates the
    trails of the "Robot" fields, and the heatmap is the filter applied to
    the samples of all "Heatmap" and "Heatmap (Enabled)" fields together.
    Fields of any other type contribute nothing. *)
Theorem getCommand_by_type (fields : list (string * string)) (time : Q) (cmd : Command)
        (Hcmd : getCommand convert getNumberArray UNIT_DISTANCE UNIT_ROTATION getEnabledData
                           getIsRedAlliance ALLIANCE_BUMPERS ALLIANCE_ORIGIN fields time
                = Some cmd) :
  let decoded := decoded convert getNumberArray UNIT_DISTANCE UNIT_ROTATION time in
  let ofType := fun type => filter (hasType type) fields in
  robot (poses cmd) = flat_map decoded (ofType "Robot")
  /\ trail (poses cmd)
     = flat_map (trailsOf convert getNumberArray UNIT_DISTANCE UNIT_ROTATION time)
                (ofType "Robot")
  /\ ghost (poses cmd) = flat_map decoded (ofType "Ghost")
  /\ trajectory (poses cmd) = map decoded (ofType "Trajectory")
  /\ visionTarget (poses cmd) = flat_map decoded (ofType "Vision Target")
  /\ heatmap (poses cmd)
     = filterHeatmap
         (flat_map (samplesOf convert getNumberArray UNIT_DISTANCE getEnabledData)
                   (filter isHeatmap fields))
  /\ arrowFront (poses cmd) = flat_map decoded (ofType "Arrow (Front)")
  /\ arrowCenter (poses cmd) = flat_map decoded (ofType "Arrow (Center)")
  /\ arrowBack (poses cmd) = flat_map decoded (ofType "Arrow (Back)").
Proof.
  apply getCommand_collected in Hcmd. cbv zeta in *. rewrite Hcmd.
  repeat split; reflexivity.
Qed.

(** X4.  In a returned command the trail array is aligned with the robot
    array: there are as many trails as robot poses, whatever the trail
    data. *)
Theorem getCommand_trail_per_robot (fields : list (string * string)) (time : Q)
        (cmd : Command)
        (Hcmd : getCommand convert getNumberArray UNIT_DISTANCE UNIT_ROTATION getEnabledData
                           getIsRedAlliance ALLIANCE_BUMPERS ALLIANCE_ORIGIN fields time
                = Some cmd) :
  length (trail (poses cmd)) = length (robot (poses cmd)).
Proof.
  apply getCommand_collected in Hcmd. cbv zeta in Hcmd. rewrite Hcmd.
  cbn [trail robot collectedBy trailData robotData].
  induction (filter (hasType "Robot") fields) as [|f rest IH]; [reflexivity|].
  cbn [flat_map]. rewrite !length_app, IH. f_equal.
  unfold trailsOf. apply getTrails_length.
Qed.

End CommandCoverage.

(** In the example log the command holds one trajectory, for the one
    "Trajectory" field; the "Note" field contributes nothing. *)
Lemma getCommand_by_type_witness :
  exists cmd,
    Odometry.getCommand OdometryScenario.convert OdometryScenario.log "meters" "radians"
                        None false "blue" "blue" OdometryScenario.fields 1
    = Some cmd
    /\ length (Odometry.trajectory (Odometry.poses cmd)) = 1%nat
    /\ length (Odometry.robot (Odometry.poses cmd)) = 2%nat.
Proof.
  assert (H : exists cmd,
             Odometry.getCommand OdometryScenario.convert OdometryScenario.log
                                 "meters" "radians" None false "blue" "blue"
                                 OdometryScenario.fields 1
             = Some cmd)
    by (eexists; vm_compute; reflexivity).
  destruct H as [cmd Hcmd]. exists cmd. split; [exact Hcmd|].
  destruct (getCommand_by_type OdometryScenario.convert OdometryScenario.log
                               "meters" "radians" None false "blue" "blue"
                               OdometryScenario.fields 1 cmd Hcmd)
    as (Hr & _ & _ & Ht & _).
  rewrite Hr, Ht. split; reflexivity.
Defined.

(** In the example log the two robots have one trail each. *)
Lemma getCommand_trail_per_robot_witness :
  exists cmd,
    Odometry.getCommand OdometryScenario.convert OdometryScenario.log "meters" "radians"
                        None false "blue" "blue" OdometryScenario.fields 1
    = Some cmd
    /\ length (Odometry.trail (Odometry.poses cmd))
       = length (Odometry.robot (Odometry.poses cmd)).
Proof.
  assert (H : exists cmd,
             Odometry.getCommand OdometryScenario.convert OdometryScenario.log
                                 "meters" "radians" None false "blue" "blue"
                                 OdometryScenario.fields 1
             = Some cmd)
    by (eexists; vm_compute; reflexivity).
  destruct H as [cmd Hcmd]. exists cmd. split; [exact Hcmd|].
  exact (getCommand_trail_per_robot OdometryScenario.convert OdometryScenario.log
                                    "meters" "radians" None false "blue" "blue"
                                    OdometryScenario.fields 1 cmd Hcmd).
Defined.

(** ** Sorting and filtering the heatmap samples *)

Section SortCoverage.

Import Odometry OdometrySpec OdometryCoverage.
Local Open Scope Q_scope.

Lemma insert_permutation (s : HeatmapSample) (l : list HeatmapSample) :
  Permutation (s :: l) (insertByTimestamp s l).
Proof.
  induction l as [|x rest IH]; cbn [insertByTimestamp]; [reflexivity|].
  destruct (Qlt_bool (timestamp s) (timestamp x)); [reflexivity|].
  rewrite perm_swap. apply perm_skip, IH.
Qed.

Lemma ascending_cons (x : HeatmapSample) (l : list HeatmapSample) :
  ascending (x :: l) <-> Forall (fun y => timestamp x <= timestamp y) l /\ ascending l.
Proof.
  revert x. induction l as [|y rest IH]; intros x.
  - cbn. split; [intros _; split; [constructor | exact I] | intros _; split; exact I].
  - change (ascending (x :: y :: rest))
      with (timestamp x <= timestamp y /\ ascending (y :: rest)).
    split.
    + intros [Hxy Hrest]. split; [|exact Hrest]. constructor; [exact Hxy|].
      apply IH in Hrest. destruct Hrest as [Hall _].
      eapply Forall_impl; [|exact Hall]. intros z Hz. cbn beta in *.
      eapply Qle_trans; eassumption.
    + intros [Hall Hrest]. split; [|exact Hrest]. inversion Hall; assumption.
Qed.

Lemma insert_ascending (s : HeatmapSample) (l : list HeatmapSample) :
  ascending l -> ascending (insertByTimestamp s l).
Proof.
  induction l as [|x rest IH]; intros Hl; cbn [insertByTimestamp].
  - cbn. split; exact I.
  - destruct (Qlt_bool (timestamp s) (timestamp x)) eqn:E.
    + apply Qlt_bool_iff in E.
      change (timestamp s <= timestamp x /\ ascending (x :: rest)).
      split; [apply Qlt_le_weak, E | exact Hl].
    + apply Qlt_bool_false_iff in E.
      apply ascending_cons in Hl. destruct Hl as [Hall Hrest].
      apply ascending_cons. split; [|apply IH, Hrest].
      eapply Permutation_Forall; [apply insert_permutation|].
      constructor; assumption.
Qed.

(** Samples of one timestamp keep their order: the new sample goes behind
    the ones with its timestamp that are already there. *)
Lemma insert_stable (t : Q) (s : HeatmapSample) (l : list HeatmapSample) :
  ascending l ->
  filter (simultaneous t) (insertByTimestamp s l)
  = filter (simultaneous t) l ++ (if simultaneous t s then [s] else []).
Proof.
  induction l as [|x rest IH]; intros Hl; cbn [insertByTimestamp].
  - cbn [filter app]. destruct (simultaneous t s); reflexivity.
  - apply ascending_cons in Hl. destruct Hl as [Hall Hrest].
    destruct (Qlt_bool (timestamp s) (timestamp x)) eqn:E.
    + apply Qlt_bool_iff in E.
      assert (Hs : filter (simultaneous t) (s :: x :: rest)
                   = (if simultaneous t s then [s] else [])
                       ++ filter (simultaneous t) (x :: rest)).
      { cbn [filter]. destruct (simultaneous t s); reflexivity. }
      rewrite Hs. clear Hs.
      destruct (simultaneous t s) eqn:Es; [|cbn [app]; rewrite app_nil_r; reflexivity].
      assert (Hnone : filter (simultaneous t) (x :: rest) = []).
      { unfold simultaneous in Es. apply Qeq_bool_iff in Es.
        assert (Hx : forall y, In y (x :: rest) -> simultaneous t y = false).
        { intros y Hy. unfold simultaneous.
          destruct (Qeq_bool (timestamp y) t) eqn:Ey; [|reflexivity].
          apply Qeq_bool_iff in Ey. exfalso.
          assert (Hxy : timestamp x <= timestamp y).
          { destruct Hy as [<- | Hy]; [apply Qle_refl|].
            rewrite Forall_forall in Hall. apply Hall, Hy. }
          rewrite Es in E. rewrite Ey in Hxy.
          exact (Qlt_not_le _ _ E Hxy). }
        clear - Hx. induction (x :: rest) as [|y more IHm]; [reflexivity|].
        cbn [filter]. rewrite (Hx y (or_introl eq_refl)).
        apply IHm. intros z Hz. apply Hx. right. exact Hz. }
      rewrite Hnone. reflexivity.
    + cbn [filter]. rewrite (IH Hrest).
      destruct (simultaneous t x); reflexivity.
Qed.

Lemma sort_invariant (l : list HeatmapSample) :
  forall acc,
    ascending acc ->
    let sorted := fold_left (fun acc s => insertByTimestamp s acc) l acc in
    Permutation (acc ++ l) sorted
    /\ ascending sorted
    /\ forall t, filter (simultaneous t) sorted = filter (simultaneous t) (acc ++ l).
Proof.
  induction l as [|s rest IH]; intros acc Hacc; cbn [fold_left]; cbv zeta.
  - rewrite app_nil_r. repeat split; [reflexivity | exact Hacc].
  - destruct (IH (insertByTimestamp s acc) (insert_ascending s acc Hacc)) as (Hp & Ha & Hs).
    cbv zeta in *. repeat split.
    + eapply Permutation_trans; [|exact Hp].
      eapply Permutation_trans; [symmetry; apply Permutation_middle|].
      change (Permutation ((s :: acc) ++ rest) (insertByTimestamp s acc ++ rest)).
      apply Permutation_app_tail, insert_permutation.
    + exact Ha.
    + intros t. rewrite Hs, !filter_app, (insert_stable t s acc Hacc).
      rewrite <- app_assoc. f_equal. cbn [filter]. destruct (simultaneous t s); reflexivity.
Qed.

(** X5.  [sortByTimestamp] is the stable sort by timestamp: its result is a
    rearrangement of the input, has ascending timestamps, and lists the
    samples of any one timestamp in their input order. *)
Theorem sortByTimestamp_stable (l : list HeatmapSample) :
  Permutation l (sortByTimestamp l)
  /\ ascending (sortByTimestamp l)
  /\ forall t, filter (simultaneous t) (sortByTimestamp l) = filter (simultaneous t) l.
Proof.
  unfold sortByTimestamp. apply (sort_invariant l []). exact I.
Qed.

End SortCoverage.

Section FilterCoverage.

Import Odometry OdometrySpec OdometryCoverage.
Local Open Scope Q_scope.

Lemma keptStep_keptFrom (l : list HeatmapSample) :
  forall kept lastTimestamp,
    fst (fold_left keptStep l (kept, lastTimestamp)) = kept ++ keptFrom lastTimestamp l.
Proof.
  induction l as [|s rest IH]; intros kept lastTimestamp; cbn [fold_left keptFrom].
  - cbn [fst]. rewrite app_nil_r. reflexivity.
  - unfold keptStep at 2. cbn [fst snd]. destruct (keepSample lastTimestamp s).
    + rewrite IH, <- app_assoc. reflexivity.
    + apply IH.
Qed.

Lemma keptSamples_keptFrom (l : list HeatmapSample) : keptSamples l = keptFrom 0 l.
Proof. unfold keptSamples. rewrite keptStep_keptFrom. reflexivity. Qed.

Lemma keptFrom_spaced (l : list HeatmapSample) :
  forall lastTimestamp, spacedFrom lastTimestamp (keptFrom lastTimestamp l).
Proof.
  induction l as [|s rest IH]; intros lastTimestamp; cbn [keptFrom]; [exact I|].
  destruct (keepSample lastTimestamp s) eqn:E; [|apply IH].
  cbn [spacedFrom]. split; [apply keepSample_iff, E | apply IH].
Qed.

Lemma keptFrom_incl (l : list HeatmapSample) :
  forall lastTimestamp s, In s (keptFrom lastTimestamp l) -> In s l.
Proof.
  induction l as [|x rest IH]; intros lastTimestamp s; cbn [keptFrom]; [intros []|].
  destruct (keepSample lastTimestamp x).
  - intros [<- | H]; [left; reflexivity | right; eapply IH, H].
  - intros H. right. eapply IH, H.
Qed.

Lemma keptFrom_idempotent (l : list HeatmapSample) :
  forall lastTimestamp,
    keptFrom lastTimestamp (keptFrom lastTimestamp l) = keptFrom lastTimestamp l.
Proof.
  induction l as [|s rest IH]; intros lastTimestamp; cbn [keptFrom]; [reflexivity|].
  destruct (keepSample lastTimestamp s) eqn:E; [|apply IH].
  cbn [keptFrom]. rewrite E, IH. reflexivity.
Qed.

Lemma spaced_not_before (l : list HeatmapSample) :
  forall previous s, spacedFrom previous l -> In s l -> previous <= timestamp s.
Proof.
  induction l as [|x rest IH]; intros previous s Hl; [intros []|].
  cbn [spacedFrom] in Hl. destruct Hl as [Hx Hrest].
  assert (Hpx : previous <= timestamp x).
  { unfold HEATMAP_DT in Hx. destruct Hx as [Hx | Hx]; Lqa.lra. }
  intros [<- | Hs]; [exact Hpx|].
  eapply Qle_trans; [exact Hpx | apply (IH _ _ Hrest Hs)].
Qed.

Lemma spaced_ascending (l : list HeatmapSample) :
  forall previous, spacedFrom previous l -> ascending l.
Proof.
  induction l as [|x rest IH]; intros previous Hl; [exact I|].
  cbn [spacedFrom] in Hl. destruct Hl as [_ Hrest].
  apply ascending_cons. split; [|eapply IH, Hrest].
  apply Forall_forall. intros y Hy. eapply spaced_not_before; eassumption.
Qed.

Lemma spaced_threshold (l : list HeatmapSample) :
  forall previous,
    previous == 0 \/ HEATMAP_DT <= previous ->
    spacedFrom previous l ->
    Forall (fun s => timestamp s == 0 \/ HEATMAP_DT <= timestamp s) l.
Proof.
  induction l as [|x rest IH]; intros previous Hp Hl; [constructor|].
  cbn [spacedFrom] in Hl. destruct Hl as [Hx Hrest].
  assert (Hnow : timestamp x == 0 \/ HEATMAP_DT <= timestamp x).
  { unfold HEATMAP_DT in *. destruct Hp as [Hp | Hp], Hx as [Hx | Hx];
      [left | right | right | right]; Lqa.lra. }
  constructor; [exact Hnow | eapply IH; eassumption].
Qed.

(** X6.  The heatmap of a sample list holds the values of samples of the
    list, taken in timestamp order, in which every sample is either
    simultaneous with the one before it or at least [HEATMAP_DT] later, the
    first one being measured from time 0; so no sample with a negative
    timestamp or one strictly between 0 and [HEATMAP_DT] is ever drawn.
    Filtering the kept samples again keeps all of them. *)
Theorem filterHeatmap_spacing (l : list HeatmapSample) :
  let kept := keptSamples (sortByTimestamp l) in
  filterHeatmap l = map value kept
  /\ (forall s, In s kept -> In s l)
  /\ ascending kept
  /\ spacedFrom 0 kept
  /\ Forall (fun s => timestamp s == 0 \/ HEATMAP_DT <= timestamp s) kept
  /\ filterHeatmap kept = filterHeatmap l.
Proof.
  cbv zeta. rewrite keptSamples_keptFrom.
  assert (Hf : forall l', filterHeatmap l' = map value (keptFrom 0 (sortByTimestamp l'))).
  { intros l'. unfold filterHeatmap. rewrite filterSorted_kept. cbn [fst].
    rewrite keptSamples_keptFrom. reflexivity. }
  pose proof (keptFrom_spaced (sortByTimestamp l) 0) as Hspaced.
  pose proof (spaced_ascending _ _ Hspaced) as Hasc.
  split; [apply Hf|]. split; [|split; [exact Hasc|split; [exact Hspaced|split]]].
  - intros s Hs. apply keptFrom_incl in Hs.
    eapply Permutation_in; [symmetry; apply sort_invariant with (acc := []); exact I|].
    exact Hs.
  - eapply spaced_threshold; [left; reflexivity | exact Hspaced].
  - rewrite !Hf. rewrite (sort_ascending _ Hasc), keptFrom_idempotent. reflexivity.
Qed.

End FilterCoverage.

(** ** Heatmap generation at the ends of the data *)

Section ResampleCoverage.

Import Odometry OdometrySpec OdometryCoverage.
Local Open Scope Q_scope.

Lemma resample_last (enabledFilter : bool) (enabledData : option EnabledData) (c t : Q)
      (v v' : list Q) (d : LogData) :
  resample enabledFilter enabledData c (d ++ [(t, v)])
  = resample enabledFilter enabledData c (d ++ [(t, v')]).
Proof.
  induction d as [|[t0 v0] rest IH].
  - cbn [app resample].
    rewrite !(generateSamples_none c t t) by apply Qle_refl. reflexivity.
  - cbn [app resample]. rewrite IH.
    destruct rest as [|[t1 v1] rest']; reflexivity.
Qed.

(** X7.  A raw sample contributes heatmap samples only for the time up to a
    later next sample: when the next timestamp is not later, nothing is
    generated, and the values of the last raw sample of the log never reach
    the heatmap. *)
Theorem resample_needs_later_sample (enabledFilter : bool)
        (enabledData : option EnabledData) (c : Q) :
  (forall timestamp nextTimestamp v,
      nextTimestamp <= timestamp -> generateSamples c timestamp nextTimestamp v = [])
  /\ (forall t v, enabledFilter = false \/ enabledData <> None ->
        resample enabledFilter enabledData c [(t, v)] = Some [])
  /\ (forall d t v v',
        resample enabledFilter enabledData c (d ++ [(t, v)])
        = resample enabledFilter enabledData c (d ++ [(t, v')])).
Proof.
  split; [|split].
  - intros timestamp nextTimestamp v. apply generateSamples_none.
  - intros t v H. cbn [resample].
    destruct (checkEnabled enabledFilter enabledData t) as [ok|] eqn:E.
    + rewrite generateSamples_none by apply Qle_refl. destruct ok; reflexivity.
    + apply checkEnabled_raises in E. destruct E as [-> ->].
      destruct H as [H | H]; [discriminate | congruence].
  - intros d t v v'. apply resample_last.
Qed.

Lemma checkEnabled_never (e : EnabledData) (t : Q) :
  Forall (fun x => snd x = false) e -> checkEnabled true (Some e) t = Some false.
Proof.
  intros H. unfold checkEnabled.
  destruct (find _ (rev e)) as [[t' b]|] eqn:E; [|reflexivity].
  apply find_some in E. destruct E as [Hin _]. apply in_rev in Hin.
  rewrite Forall_forall in H. apply H in Hin. cbn [snd] in Hin. subst b. reflexivity.
Qed.


(** X8.  With the enabled filter on and enabled data present, the sample
    loop returns, and it pushes only samples the unfiltered loop pushes too;
    when no entry of the enabled data is set, it pushes nothing. *)
Theorem resample_enabled_filter (e : EnabledData) (c : Q) (d : LogData) :
  exists filtered unfiltered,
    resample true (Some e) c d = Some filtered
    /\ resample false None c d = Some unfiltered
    /\ incl filtered unfiltered
    /\ (Forall (fun x => snd x = false) e -> filtered = []).
Proof.
  induction d as [|[t v] rest (filtered & unfiltered & Hf & Hu & Hincl & Hnever)].
  - exists [], []. repeat split; [apply incl_refl].
  - cbn [resample]. rewrite Hf, Hu.
    destruct (checkEnabled true (Some e) t) as [ok|] eqn:E.
    + cbn [checkEnabled]. eexists _, _. split; [reflexivity|]. split; [reflexivity|]. split.
      * apply incl_app_app; [|exact Hincl].
        destruct ok; [apply incl_refl | intros x []].
      * intros He. rewrite (checkEnabled_never e t He) in E. injection E as <-.
        rewrite (Hnever He). reflexivity.
    + apply checkEnabled_raises in E. destruct E as [_ F]. discriminate.
Qed.

End ResampleCoverage.

(** ** Alliance selection *)

Section AllianceCoverage.

Import Odometry OdometrySpec OdometryCoverage.
Local Open Scope Q_scope.

Variable convert : Q -> string -> string -> Q.
Variable getNumberArray : string -> Bound -> Bound -> option LogData.
Variable UNIT_DISTANCE UNIT_ROTATION : string.
Variable getEnabledData : option EnabledData.
Variable ALLIANCE_BUMPERS ALLIANCE_ORIGIN : string.
Variable ALLIANCE_KEYS : list string.

Lemma resolveAlliance_red (red : bool) (selector : string) :
  resolveAlliance red selector = true
  <-> selector = "red" \/ (selector = "auto" /\ red = true).
Proof.
  unfold resolveAlliance.
  destruct (String.eqb_spec selector "auto") as [-> | Hauto].
  - split; [intros ->; right; split; reflexivity|].
    intros [F | [_ H]]; [discriminate | exact H].
  - destruct (String.eqb_spec selector "blue") as [-> | Hblue].
    + split; [discriminate|]. intros [F | [F _]]; discriminate.
    + destruct (String.eqb_spec selector "red") as [-> | Hred].
      * split; [intros _; left; reflexivity | reflexivity].
      * split; [discriminate|]. intros [F | [F _]]; contradiction.
Qed.

(** X9.  The controller asks for the alliance keys when one of its two
    selectors is "auto" and for no key otherwise, and in the latter case
    the command does not depend on the logged alliance.  A side of the
    command is red exactly when its selector is "red", or is "auto" with a
    red logged alliance; any other selector value gives blue. *)
Theorem alliance_fields_needed (fields : list (string * string)) (time : Q) :
  (ALLIANCE_BUMPERS = "auto" \/ ALLIANCE_ORIGIN = "auto" ->
   getAdditionalActiveFields ALLIANCE_BUMPERS ALLIANCE_ORIGIN ALLIANCE_KEYS = ALLIANCE_KEYS)
  /\ (ALLIANCE_BUMPERS <> "auto" -> ALLIANCE_ORIGIN <> "auto" ->
      getAdditionalActiveFields ALLIANCE_BUMPERS ALLIANCE_ORIGIN ALLIANCE_KEYS = []
      /\ forall red red',
           getCommand convert getNumberArray UNIT_DISTANCE UNIT_ROTATION getEnabledData
                      red ALLIANCE_BUMPERS ALLIANCE_ORIGIN fields time
           = getCommand convert getNumberArray UNIT_DISTANCE UNIT_ROTATION getEnabledData
                        red' ALLIANCE_BUMPERS ALLIANCE_ORIGIN fields time)
  /\ (forall red cmd,
        getCommand convert getNumberArray UNIT_DISTANCE UNIT_ROTATION getEnabledData
                   red ALLIANCE_BUMPERS ALLIANCE_ORIGIN fields time = Some cmd ->
        (allianceRedBumpers cmd = true
         <-> ALLIANCE_BUMPERS = "red" \/ (ALLIANCE_BUMPERS = "auto" /\ red = true))
        /\ (allianceRedOrigin cmd = true
            <-> ALLIANCE_ORIGIN = "red" \/ (ALLIANCE_ORIGIN = "auto" /\ red = true))).
Proof.
  unfold getAdditionalActiveFields, getCommand. split; [|split].
  - intros [-> | ->]; [reflexivity|]. rewrite orb_true_r. reflexivity.
  - intros Hb Ho. apply String.eqb_neq in Hb, Ho.
    unfold resolveAlliance. rewrite Hb, Ho. split; reflexivity.
  - intros red cmd.
    destruct (collectFields _ _ _ _ _ time nothingCollected fields); [|discriminate].
    intros [= <-]. cbn [allianceRedBumpers allianceRedOrigin].
    split; apply resolveAlliance_red.
Qed.

End AllianceCoverage.

(** * Further properties of the visualizer *)

(** ** Rotation sequences as rotations *)

Section RotationCoverage.

Import Three Visualizer VisualizerSpec VisualizerCoverage.
Local Open Scope R_scope.

Variable convert : R -> string -> string -> R.

Lemma getQuaternionFromRotSeq_app (first second : list Config3d_Rotation) :
  getQuaternionFromRotSeq convert (first ++ second)
  = multiplyQuaternions (getQuaternionFromRotSeq convert second)
                        (getQuaternionFromRotSeq convert first).
Proof.
  unfold getQuaternionFromRotSeq at 1. rewrite fold_left_app.
  apply rotationLoop_start.
Qed.

(** X10.  The quaternion of a concatenated rotation sequence is the product
    of the second part's quaternion with the first part's, so a vector is
    turned by the first part and then by the second.  A camera mount is
    therefore turned by the two fixed rotations (-90 degrees about z, then
    -90 degrees about y) before the rotations its configuration declares. *)
Theorem rotation_sequences_compose (first second : list Config3d_Rotation) :
  getQuaternionFromRotSeq convert (first ++ second)
  = multiplyQuaternions (getQuaternionFromRotSeq convert second)
                        (getQuaternionFromRotSeq convert first)
  /\ (forall v,
        rotateTranslationByRotation v (getQuaternionFromRotSeq convert (first ++ second))
        = rotateTranslationByRotation
            (rotateTranslationByRotation v (getQuaternionFromRotSeq convert first))
            (getQuaternionFromRotSeq convert second))
  /\ (forall camera v,
        rotateTranslationByRotation v (t_quaternion (cameraObject convert camera))
        = rotateTranslationByRotation
            (rotateTranslationByRotation
               (rotateTranslationByRotation
                  v (unitRotation convert (mkRotation "z" (-90))))
               (unitRotation convert (mkRotation "y" (-90))))
            (getQuaternionFromRotSeq convert (camera_rotations camera))).
Proof.
  split; [apply getQuaternionFromRotSeq_app|]. split.
  - intros v. rewrite getQuaternionFromRotSeq_app. apply rotate_product.
  - intros camera v. unfold cameraObject. cbn [t_quaternion].
    rewrite getQuaternionFromRotSeq_app, rotate_product. f_equal.
    change extraRotations with ([mkRotation "z" (-90)] ++ [mkRotation "y" (-90)]).
    rewrite getQuaternionFromRotSeq_app, rotate_product.
    unfold getQuaternionFromRotSeq. cbn [fold_left]. unfold premultiply.
    rewrite !multiplyQuaternions_identity_r. reflexivity.
Qed.

Lemma normSquared_product (a b : Quaternion) :
  normSquared (multiplyQuaternions a b) = normSquared a * normSquared b.
Proof. destruct a, b. unfold normSquared, multiplyQuaternions. cbn. ring. Qed.

Lemma unitRotation_norm (rotation : Config3d_Rotation) :
  knownAxis rotation -> normSquared (unitRotation convert rotation) = 1.
Proof.
  unfold knownAxis, unitRotation, setFromAxisAngle, axisVector, normSquared.
  cbn [qx qy qz qw vx vy vz].
  set (h := convert (Q2R (degrees rotation)) "degrees" "radians" / 2).
  pose proof (sin2_cos2 h) as H. unfold Rsqr in H.
  intros [-> | [-> | ->]]; cbn [String.eqb Ascii.eqb Bool.eqb]; lra.
Qed.

Lemma getQuaternionFromRotSeq_norm (rotations : list Config3d_Rotation) :
  Forall knownAxis rotations ->
  normSquared (getQuaternionFromRotSeq convert rotations) = 1.
Proof.
  induction 1 as [|r rest Hr Hrest IH].
  - unfold getQuaternionFromRotSeq, normSquared. cbn. ring.
  - change (r :: rest) with ([r] ++ rest).
    rewrite getQuaternionFromRotSeq_app, normSquared_product, IH.
    unfold getQuaternionFromRotSeq at 1. cbn [fold_left]. unfold premultiply.
    rewrite multiplyQuaternions_identity_r, (unitRotation_norm r Hr). ring.
Qed.

Lemma rotation_length (v : Vector3) (q : Quaternion) :
  lengthSquared (rotateTranslationByRotation v q)
  = normSquared q * normSquared q * lengthSquared v.
Proof.
  destruct v, q.
  unfold lengthSquared, normSquared, rotateTranslationByRotation, multiply, invert,
    multiplyQuaternions.
  cbn. ring.
Qed.

Lemma invert_unit (q : Quaternion) :
  normSquared q = 1 -> multiplyQuaternions (invert q) q = identity.
Proof.
  destruct q as [x y z w]. unfold normSquared, invert, multiplyQuaternions, identity.
  cbn. intros H. apply quaternion_eq; cbn; try ring. lra.
Qed.

Lemma rotate_identity (v : Vector3) : rotateTranslationByRotation v identity = v.
Proof.
  destruct v. unfold rotateTranslationByRotation, multiply, invert, multiplyQuaternions,
    identity. cbn. f_equal; ring.
Qed.

(** X11.  A rotation sequence over the axes x, y and z gives a quaternion of
    unit norm.  Turning a vector by it keeps the vector's length, and
    turning the result by the inverted quaternion gives the vector back, so
    [invert] is the inverse rotation for every such sequence. *)
Theorem rotation_sequence_unit (rotations : list Config3d_Rotation)
        (Haxes : Forall knownAxis rotations) :
  let q := getQuaternionFromRotSeq convert rotations in
  normSquared q = 1
  /\ multiplyQuaternions (invert q) q = identity
  /\ forall v,
       lengthSquared (rotateTranslationByRotation v q) = lengthSquared v
       /\ rotateTranslationByRotation (rotateTranslationByRotation v q) (invert q) = v.
Proof.
  cbv zeta. pose proof (getQuaternionFromRotSeq_norm rotations Haxes) as Hn.
  split; [exact Hn|]. split; [apply invert_unit, Hn|]. intros v. split.
  - rewrite rotation_length, Hn. ring.
  - rewrite <- rotate_product, (invert_unit _ Hn). apply rotate_identity.
Qed.

End RotationCoverage.

(** A quarter turn about x followed by an eighth turn about z. *)
Lemma rotation_sequence_unit_witness :
  let rotations := [Visualizer.mkRotation "x" 90; Visualizer.mkRotation "z" 45] in
  Forall VisualizerCoverage.knownAxis rotations
  /\ VisualizerCoverage.normSquared
       (Visualizer.getQuaternionFromRotSeq VisualizerSpec.unitsConvert rotations) = 1%R.
Proof.
  intros rotations.
  assert (H : Forall VisualizerCoverage.knownAxis rotations).
  { constructor; [left; reflexivity|]. constructor; [right; right; reflexivity|].
    constructor. }
  split; [exact H|].
  apply (rotation_sequence_unit VisualizerSpec.unitsConvert rotations H).
Defined.

(** ** Redraw scheduling *)

Section ScheduleCoverage.

Import Three Visualizer VisualizerSpec VisualizerCoverage.

Variable convert : R -> string -> string -> R.

Lemma list_eqb_refl {A : Type} (eqb : A -> A -> bool) (l : list A) :
  (forall x, eqb x x = true) -> list_eqb eqb l l = true.
Proof.
  intros H. induction l as [|x rest IH]; [reflexivity|].
  cbn [list_eqb]. rewrite H, IH. reflexivity.
Qed.

Lemma option_eqb_refl {A : Type} (eqb : A -> A -> bool) (o : option A) :
  (forall x, eqb x x = true) -> option_eqb eqb o o = true.
Proof. intros H. destruct o; [apply H | reflexivity]. Qed.

Lemma triple_eqb_refl (t : Triple) : triple_eqb t t = true.
Proof. destruct t as [[a b] c]. unfold triple_eqb. rewrite !Qeq_bool_refl. reflexivity. Qed.

Lemma rotation_eqb_refl (r : Config3d_Rotation) : rotation_eqb r r = true.
Proof. unfold rotation_eqb. rewrite String.eqb_refl, Qeq_bool_refl. reflexivity. Qed.

Lemma camera_eqb_refl (c : Config3d_Camera) : camera_eqb c c = true.
Proof.
  unfold camera_eqb.
  rewrite String.eqb_refl, (list_eqb_refl _ _ rotation_eqb_refl), triple_eqb_refl,
    !Qeq_bool_refl.
  reflexivity.
Qed.

Lemma robotConfig_eqb_refl (c : Config3d_Robot) : robotConfig_eqb c c = true.
Proof.
  unfold robotConfig_eqb.
  rewrite !String.eqb_refl, (list_eqb_refl _ _ rotation_eqb_refl), triple_eqb_refl,
    (list_eqb_refl _ _ camera_eqb_refl).
  reflexivity.
Qed.

Lemma fieldConfig_eqb_refl (c : Config3d_Field) : fieldConfig_eqb c c = true.
Proof.
  unfold fieldConfig_eqb.
  rewrite !String.eqb_refl, (list_eqb_refl _ _ rotation_eqb_refl), !Qeq_bool_refl.
  reflexivity.
Qed.

Lemma frcData_eqb_refl (d : FRCData) : frcData_eqb d d = true.
Proof.
  unfold frcData_eqb.
  rewrite (list_eqb_refl _ _ fieldConfig_eqb_refl), (list_eqb_refl _ _ robotConfig_eqb_refl).
  reflexivity.
Qed.

Lemma pose3d_eqb_refl (p : Pose3d) : pose3d_eqb p p = true.
Proof.
  unfold pose3d_eqb. rewrite triple_eqb_refl.
  destruct (rotation p) as [[[w x] y] z]. rewrite !Qeq_bool_refl. reflexivity.
Qed.

Lemma command_eqb_refl (c : Command) : command_eqb c c = true.
Proof.
  unfold command_eqb.
  rewrite !String.eqb_refl, (option_eqb_refl _ _ pose3d_eqb_refl),
    !(list_eqb_refl _ _ pose3d_eqb_refl).
  reflexivity.
Qed.

(** X12.  [render] stores the command and answers with the aspect ratio of
    the last camera block; it never touches assets, scene or camera, and it
    never withdraws a pending redraw request.  Sending the command that is
    already stored changes nothing at all, so it requests no redraw. *)
Theorem render_stores_command (cmd : option Command) (st : State) :
  let st' := fst (render cmd st) in
  snd (render cmd st) = lastAspectRatio (view st)
  /\ command (scheduler st') = cmd
  /\ assets st' = assets st /\ scene st' = scene st /\ view st' = view st
  /\ (shouldRender (scheduler st) = true -> shouldRender (scheduler st') = true)
  /\ (option_eqb command_eqb cmd (command (scheduler st)) = false ->
      shouldRender (scheduler st') = true)
  /\ fst (render (command (scheduler st)) st) = st.
Proof.
  cbv zeta. unfold render. cbn [fst snd scheduler assets scene view command shouldRender].
  repeat split.
  - intros H. rewrite H. destruct (negb _); reflexivity.
  - intros H. rewrite H. reflexivity.
  - rewrite (option_eqb_refl _ _ command_eqb_refl). cbn [negb].
    destruct st as [[] ? ? ?]. reflexivity.
Qed.

Lemma settled_no_trigger (env : Env) (s : Scheduler) :
  triggersSettled env s -> checkTriggers env s = s.
Proof.
  intros (Hmode & Hw & Hh & (ratio & Hd & Hq) & Hk). unfold checkTriggers.
  assert (H1 : match preferences env with
               | Some mode =>
                   if negb (String.eqb mode (lastPrefsMode s))
                   then mkScheduler (command s) true (lastFrameTime s) (lastWidth s)
                                    (lastHeight s) (lastDevicePixelRatio s)
                                    (lastIsDark s) mode
                   else s
               | None => s
               end = s).
  { destruct (preferences env) as [mode|]; [|reflexivity].
    rewrite Hmode, String.eqb_refl. reflexivity. }
  rewrite H1, Hw, Hh, Hd, Hk. cbn [option_eqb].
  rewrite !Z.eqb_refl, Hq, eqb_reflx. reflexivity.
Qed.

Lemma option_eqb_Some {A : Type} (eqb : A -> A -> bool) (x : A) (o : option A) :
  option_eqb eqb (Some x) o = true -> exists y, o = Some y /\ eqb x y = true.
Proof. destruct o as [y|]; [intros H; exists y; auto | discriminate]. Qed.

Lemma size_check_settles (env : Env) (s : Scheduler) :
  match preferences env with
  | Some mode => mode = lastPrefsMode s
  | None => True
  end ->
  triggersSettled env
    (if negb (option_eqb Z.eqb (Some (clientWidth env)) (lastWidth s))
        || negb (option_eqb Z.eqb (Some (clientHeight env)) (lastHeight s))
        || negb (option_eqb Qeq_bool (Some (devicePixelRatio env)) (lastDevicePixelRatio s))
        || negb (option_eqb Bool.eqb (Some (isDark env)) (lastIsDark s))
     then mkScheduler (command s) true (lastFrameTime s)
                      (Some (clientWidth env)) (Some (clientHeight env))
                      (Some (devicePixelRatio env)) (Some (isDark env)) (lastPrefsMode s)
     else s).
Proof.
  intros Hmode.
  destruct (negb (option_eqb Z.eqb (Some (clientWidth env)) (lastWidth s))
            || negb (option_eqb Z.eqb (Some (clientHeight env)) (lastHeight s))
            || negb (option_eqb Qeq_bool (Some (devicePixelRatio env))
                                (lastDevicePixelRatio s))
            || negb (option_eqb Bool.eqb (Some (isDark env)) (lastIsDark s))) eqn:E.
  - unfold triggersSettled.
    cbn [lastWidth lastHeight lastDevicePixelRatio lastIsDark lastPrefsMode].
    split; [exact Hmode|]. repeat split.
    exists (devicePixelRatio env). split; [reflexivity | apply Qeq_bool_refl].
  - apply orb_false_elim in E. destruct E as [E Hk].
    apply orb_false_elim in E. destruct E as [E Hd].
    apply orb_false_elim in E. destruct E as [Hw Hh].
    apply negb_false_iff in Hw, Hh, Hd, Hk.
    apply option_eqb_Some in Hw, Hh, Hd, Hk.
    destruct Hw as (w & Hw & Ew), Hh as (h & Hh & Eh), Hd as (d & Hd & Ed),
             Hk as (k & Hk & Ek).
    apply Z.eqb_eq in Ew, Eh. apply eqb_prop in Ek. subst w h k.
    unfold triggersSettled. split; [exact Hmode|]. repeat split; try assumption.
    exists d. split; assumption.
Qed.

Lemma checkTriggers_settles (env : Env) (s : Scheduler) :
  triggersSettled env (checkTriggers env s).
Proof.
  unfold checkTriggers. apply size_check_settles.
  destruct (preferences env) as [mode|]; [|exact I].
  destruct (String.eqb_spec mode (lastPrefsMode s)) as [E | E]; cbn [negb];
    [exact E | reflexivity].
Qed.

Lemma checkTriggers_settled (env : Env) (s : Scheduler) :
  checkTriggers env (checkTriggers env s) = checkTriggers env s.
Proof. apply settled_no_trigger, checkTriggers_settles. Qed.

Lemma settled_window (env env' : Env) (s : Scheduler) :
  sameWindow env env' -> triggersSettled env s -> triggersSettled env' s.
Proof.
  intros (Hp & Hw & Hh & Hd & Hk). unfold triggersSettled. rewrite Hp, Hw, Hh, Hd, Hk.
  exact (fun H => H).
Qed.

Lemma checkTriggers_window (env env' : Env) (s : Scheduler) :
  sameWindow env env' -> checkTriggers env' s = checkTriggers env s.
Proof.
  intros (Hp & Hw & Hh & Hd & Hk). unfold checkTriggers. rewrite Hp, Hw, Hh, Hd, Hk.
  reflexivity.
Qed.

Lemma checkFrcData_scheduler (env : Env) (st : State) :
  scheduler (snd (checkFrcData env st)) = scheduler st.
Proof. unfold checkFrcData. cbn [snd]. destruct (negb _); reflexivity. Qed.

Lemma addField_scheduler (fieldTitle : string) (fieldConfig : Config3d_Field) (st : State) :
  scheduler (addField fieldTitle fieldConfig st) = scheduler st.
Proof. unfold addField. destruct (negb _); reflexivity. Qed.

Lemma addRobot_scheduler (robotTitle : string) (robotConfig : Config3d_Robot)
      (newFrcData : bool) (st : State) :
  scheduler (addRobot robotTitle robotConfig newFrcData st) = scheduler st.
Proof. unfold addRobot. destruct (_ || _); reflexivity. Qed.

Lemma setRobotPosition_scheduler (cmd : Command) (st : State) :
  scheduler (setRobotPosition cmd st) = scheduler st.
Proof. unfold setRobotPosition. destruct (robot (assets st)); reflexivity. Qed.

Lemma updateAllCones_scheduler (cmd : Command) (st : State) :
  scheduler (updateAllCones cmd st) = scheduler st.
Proof.
  unfold updateAllCones.
  destruct (updateCones (pose_green cmd) _ _ _) as [[green ch1] n1].
  destruct (updateCones (pose_blue cmd) _ _ _) as [[blue ch2] n2].
  destruct (updateCones (pose_yellow cmd) _ _ _) as [[yellow ch3] n3].
  reflexivity.
Qed.

Lemma controlsUpdate_twice (moved : bool) (s : Scheduler) :
  controlsUpdate moved (controlsUpdate moved s) = controlsUpdate moved s.
Proof. destruct moved; reflexivity. Qed.

Lemma controlsUpdate_request (moved : bool) (s : Scheduler) :
  shouldRender s = false -> shouldRender (controlsUpdate moved s) = moved.
Proof. intros H. destruct moved; [reflexivity | exact H]. Qed.

Lemma controlsUpdate_keeps (moved : bool) (s : Scheduler) :
  command (controlsUpdate moved s) = command s
  /\ lastFrameTime (controlsUpdate moved s) = lastFrameTime s
  /\ forall env, triggersSettled env s -> triggersSettled env (controlsUpdate moved s).
Proof.
  destruct moved; (split; [reflexivity|]); (split; [reflexivity|]);
    intros env H; exact H.
Qed.

(** The camera block touches the scheduler only through
    [controls.update()]. *)
Lemma setCamera_scheduler (moved : bool) (robotConfig : Config3d_Robot) (st st' : State) :
  setCamera moved robotConfig st = Some st' ->
  scheduler st'
  = (if controlsUpdated st st' then controlsUpdate moved (scheduler st) else scheduler st).
Proof.
  unfold setCamera, controlsUpdated.
  destruct (resetCameraIndex (cameraIndex (view st)) (robotCameras (assets st)) <? 0)%Z.
  - intros [= <-]. cbn [scheduler view controlsEnabled cameraIndex andb].
    destruct (controlsEnabled (view st)); cbn [Bool.eqb negb orb];
      destruct (negb (_ =? lastCameraIndex (view st))%Z);
      rewrite ?controlsUpdate_twice; reflexivity.
  - destruct (nth_error (cameras robotConfig) _); [|discriminate].
    intros [= <-]. cbn [scheduler view controlsEnabled cameraIndex andb orb].
    rewrite orb_false_r. reflexivity.
Qed.

Lemma beforeCamera_scheduler (env : Env) (cmd : Command) (st : State)
      (fieldConfig : Config3d_Field) (robotConfig : Config3d_Robot) :
  scheduler (beforeCamera convert env cmd fieldConfig robotConfig st) = scheduler st.
Proof.
  unfold beforeCamera.
  pose proof (checkFrcData_scheduler env st) as H0.
  destruct (checkFrcData env st) as [newFrcData st1]. cbn [snd] in H0.
  rewrite updateAllCones_scheduler, setRobotPosition_scheduler.
  unfold updateFieldCoordinates. cbn [scheduler].
  rewrite addRobot_scheduler, addField_scheduler. exact H0.
Qed.

(** Without the field or the robot configuration nothing is drawn. *)
Lemma renderScene_missing (env : Env) (cmd : Command) (st : State) :
  findField env (opt_field (options cmd)) = None
  \/ findRobot env (opt_robot (options cmd)) = None ->
  renderScene convert env cmd st = Some st.
Proof.
  unfold renderScene. intros [-> | ->]; [reflexivity|].
  destruct (findField env _); reflexivity.
Qed.

Lemma renderScene_scheduler (env : Env) (cmd : Command) (st st' : State)
      (fieldConfig : Config3d_Field) (robotConfig : Config3d_Robot) :
  findField env (opt_field (options cmd)) = Some fieldConfig ->
  findRobot env (opt_robot (options cmd)) = Some robotConfig ->
  renderScene convert env cmd st = Some st' ->
  scheduler st'
  = (if controlsUpdated st st'
     then controlsUpdate (controlsMoved env) (scheduler st)
     else scheduler st).
Proof.
  intros Hfield Hrobot.
  rewrite (renderScene_beforeCamera convert env cmd st fieldConfig robotConfig Hfield Hrobot).
  intros H. apply setCamera_scheduler in H. rewrite H, beforeCamera_scheduler.
  destruct (beforeCamera_assets convert env cmd st fieldConfig robotConfig) as (Hview & _).
  unfold controlsUpdated. rewrite Hview. reflexivity.
Qed.

Lemma updateAllCones_catalog (cmd : Command) (st : State) :
  lastFrcDataString (assets (updateAllCones cmd st)) = lastFrcDataString (assets st).
Proof.
  unfold updateAllCones.
  destruct (updateCones (pose_green cmd) _ _ _) as [[green ch1] n1].
  destruct (updateCones (pose_blue cmd) _ _ _) as [[blue ch2] n2].
  destruct (updateCones (pose_yellow cmd) _ _ _) as [[yellow ch3] n3].
  reflexivity.
Qed.

Lemma setRobotPosition_titles (cmd : Command) (st : State) :
  let a' := assets (setRobotPosition cmd st) in
  lastFrcDataString a' = lastFrcDataString (assets st)
  /\ lastFieldTitle a' = lastFieldTitle (assets st)
  /\ lastRobotTitle a' = lastRobotTitle (assets st).
Proof.
  cbv zeta. unfold setRobotPosition. destruct (robot (assets st)); repeat split.
Qed.

Lemma addRobot_titles (robotTitle : string) (robotConfig : Config3d_Robot)
      (newFrcData : bool) (st : State) :
  let a' := assets (addRobot robotTitle robotConfig newFrcData st) in
  lastFrcDataString a' = lastFrcDataString (assets st)
  /\ lastFieldTitle a' = lastFieldTitle (assets st)
  /\ lastRobotTitle a' = robotTitle.
Proof.
  cbv zeta. unfold addRobot.
  destruct (String.eqb_spec robotTitle (lastRobotTitle (assets st))) as [E | E];
    cbn [negb orb]; [destruct newFrcData|]; repeat split; auto.
Qed.

Lemma addField_titles (fieldTitle : string) (fieldConfig : Config3d_Field) (st : State) :
  let a' := assets (addField fieldTitle fieldConfig st) in
  lastFrcDataString a' = lastFrcDataString (assets st)
  /\ lastFieldTitle a' = fieldTitle
  /\ lastRobotTitle a' = lastRobotTitle (assets st).
Proof.
  cbv zeta. unfold addField.
  destruct (String.eqb_spec fieldTitle (lastFieldTitle (assets st))) as [E | E];
    cbn [negb]; repeat split; auto.
Qed.

Lemma checkFrcData_catalog (env : Env) (st : State) :
  option_eqb frcData_eqb (frcData env)
             (lastFrcDataString (assets (snd (checkFrcData env st)))) = true.
Proof.
  unfold checkFrcData. cbn [snd].
  destruct (option_eqb frcData_eqb (frcData env) (lastFrcDataString (assets st))) eqn:E;
    cbn [negb]; [exact E|].
  cbn [assets lastFrcDataString]. apply option_eqb_refl, frcData_eqb_refl.
Qed.

Lemma beforeCamera_titles (env : Env) (cmd : Command) (st : State)
      (fieldConfig : Config3d_Field) (robotConfig : Config3d_Robot) :
  let a' := assets (beforeCamera convert env cmd fieldConfig robotConfig st) in
  option_eqb frcData_eqb (frcData env) (lastFrcDataString a') = true
  /\ lastFieldTitle a' = opt_field (options cmd)
  /\ lastRobotTitle a' = opt_robot (options cmd).
Proof.
  cbv zeta. unfold beforeCamera.
  pose proof (checkFrcData_catalog env st) as H0.
  destruct (checkFrcData env st) as [newFrcData st1]. cbn [snd] in H0.
  set (st2 := addField (opt_field (options cmd)) fieldConfig st1).
  set (st3 := addRobot (opt_robot (options cmd)) robotConfig newFrcData st2).
  set (st4 := updateFieldCoordinates convert fieldConfig cmd st3).
  set (st5 := setRobotPosition cmd st4).
  destruct (addField_titles (opt_field (options cmd)) fieldConfig st1) as (F1 & F2 & F3).
  destruct (addRobot_titles (opt_robot (options cmd)) robotConfig newFrcData st2)
    as (R1 & R2 & R3).
  destruct (setRobotPosition_titles cmd st4) as (P1 & P2 & P3).
  destruct (updateAllCones_assets cmd st5) as (_ & _ & _ & _ & C1 & C2 & _).
  cbv zeta in *. fold st2 in F1, F2, F3. fold st3 in R1, R2, R3. fold st5 in P1, P2, P3.
  assert (U : assets st4 = assets st3) by reflexivity.
  rewrite updateAllCones_catalog, C1, C2, P1, P2, P3, U, R1, R2, R3, F1, F2.
  repeat split. exact H0.
Qed.

(** What the camera block leaves in the camera state. *)
Lemma setCamera_view (moved : bool) (robotConfig : Config3d_Robot) (st st' : State) :
  setCamera moved robotConfig st = Some st' ->
  let index := cameraIndex (view st') in
  lastCameraIndex (view st') = index
  /\ controlsEnabled (view st') = (index <? 0)%Z
  /\ ((index < 0)%Z
      \/ ((0 <= index < Z.of_nat (length (robotCameras (assets st))))%Z
          /\ nth_error (cameras robotConfig) (Z.to_nat index) <> None)).
Proof.
  cbv zeta. unfold setCamera, resetCameraIndex.
  destruct (Z.leb_spec (Z.of_nat (length (robotCameras (assets st)))) (cameraIndex (view st)))
    as [Hreset | Hreset].
  - change ((-1 <? 0)%Z) with true. cbv iota. intros [= <-].
    cbn [view cameraIndex lastCameraIndex controlsEnabled].
    repeat split. left. lia.
  - destruct (Z.ltb_spec (cameraIndex (view st)) 0) as [Hneg | Hpos].
    + intros [= <-]. cbn [view cameraIndex lastCameraIndex controlsEnabled].
      split; [reflexivity|]. split; [symmetry; apply Z.ltb_lt, Hneg|]. left. exact Hneg.
    + destruct (nth_error (cameras robotConfig) (Z.to_nat (cameraIndex (view st)))) eqn:E;
        [|discriminate].
      intros [= <-]. cbn [view cameraIndex lastCameraIndex controlsEnabled].
      split; [reflexivity|]. split; [symmetry; apply Z.ltb_ge, Hpos|].
      right. split; [lia|]. rewrite E. discriminate.
Qed.

(** The camera block run again on the camera state it left, with the same
    mounts and configuration, does not call [controls.update()]. *)
Lemma setCamera_again (moved moved' : bool) (robotConfig : Config3d_Robot)
      (st st' st1 : State) :
  setCamera moved robotConfig st = Some st' ->
  view st1 = view st' ->
  robotCameras (assets st1) = robotCameras (assets st) ->
  exists st'', setCamera moved' robotConfig st1 = Some st''
               /\ scheduler st'' = scheduler st1.
Proof.
  intros Hcam Hview Hmounts.
  destruct (setCamera_view _ _ _ _ Hcam) as (Hlast & Hcontrols & Hrange).
  cbv zeta in *. unfold setCamera, resetCameraIndex.
  rewrite Hview, Hmounts, Hlast, Hcontrols.
  set (index := cameraIndex (view st')) in *.
  assert (Hkeep : (Z.of_nat (length (robotCameras (assets st))) <=? index)%Z = false).
  { apply Z.leb_gt. destruct Hrange as [H | [H _]]; lia. }
  rewrite Hkeep, eqb_reflx, Z.eqb_refl. cbn [negb].
  destruct (index <? 0)%Z eqn:Hneg.
  - eexists. split; reflexivity.
  - destruct Hrange as [H | [_ Hdeclared]]; [apply Z.ltb_ge in Hneg; lia|].
    destruct (nth_error (cameras robotConfig) (Z.to_nat index)); [|congruence].
    eexists. split; reflexivity.
Qed.

(** A second scene update, for the same command and catalog, leaves the
    scheduler alone. *)
Lemma renderScene_again (env env' : Env) (cmd : Command) (st st' : State)
      (fieldConfig : Config3d_Field) (robotConfig : Config3d_Robot) (s1 : Scheduler) :
  findField env (opt_field (options cmd)) = Some fieldConfig ->
  findRobot env (opt_robot (options cmd)) = Some robotConfig ->
  frcData env' = frcData env ->
  renderScene convert env cmd st = Some st' ->
  exists st'',
    renderScene convert env' cmd (mkState s1 (assets st') (scene st') (view st')) = Some st''
    /\ scheduler st'' = s1.
Proof.
  intros Hfield Hrobot Hdata Hscene.
  assert (Hfield' : findField env' (opt_field (options cmd)) = Some fieldConfig)
    by (unfold findField in *; rewrite Hdata; exact Hfield).
  assert (Hrobot' : findRobot env' (opt_robot (options cmd)) = Some robotConfig)
    by (unfold findRobot in *; rewrite Hdata; exact Hrobot).
  rewrite (renderScene_beforeCamera convert env cmd st fieldConfig robotConfig Hfield Hrobot)
    in Hscene.
  rewrite (renderScene_beforeCamera convert env' cmd _ fieldConfig robotConfig
                                    Hfield' Hrobot').
  destruct (setCamera_assets _ _ _ _ Hscene) as (Hassets & _).
  destruct (beforeCamera_titles env cmd st fieldConfig robotConfig) as (Hcatalog & _ & Htitle).
  cbv zeta in Hcatalog, Htitle. rewrite <- Hassets in Hcatalog, Htitle.
  set (st1 := mkState s1 (assets st') (scene st') (view st')).
  destruct (beforeCamera_assets convert env' cmd st1 fieldConfig robotConfig)
    as (Hview & _ & _ & _ & _ & Hmounts & _).
  cbv zeta in Hmounts. unfold checkFrcData in Hmounts. cbn [fst] in Hmounts.
  change (assets st1) with (assets st') in Hmounts.
  rewrite Htitle, String.eqb_refl, Hdata, Hcatalog in Hmounts. cbn [negb orb] in Hmounts.
  rewrite Hassets in Hmounts.
  destruct (setCamera_again (controlsMoved env) (controlsMoved env') robotConfig _ st'
              (beforeCamera convert env' cmd fieldConfig robotConfig st1)
              Hscene Hview Hmounts) as (st'' & Hsome & Hscheduler).
  exists st''. split; [exact Hsome|].
  rewrite Hscheduler. apply beforeCamera_scheduler.
Qed.

Lemma state_eta (st : State) :
  mkState (scheduler st) (assets st) (scene st) (view st) = st.
Proof. destruct st. reflexivity. Qed.

(** A frame on a settled scheduler with no redraw request returns the state
    as it is. *)
Lemma renderFrame_no_request (env : Env) (st : State) :
  checkTriggers env (scheduler st) = scheduler st ->
  shouldRender (scheduler st) = false ->
  renderFrame convert env st = Some st.
Proof.
  intros Hs Hr. unfold renderFrame. rewrite Hs, state_eta, Hr. cbn [negb].
  destruct (command (scheduler st)); [|reflexivity].
  destruct (hidden env); [reflexivity|].
  destruct (_ && _); reflexivity.
Qed.

(** The outcome of a frame: stopped at one of the gates, or past them with
    the request cleared and the time recorded. *)
Lemma renderFrame_cases (env : Env) (st st' : State) :
  renderFrame convert env st = Some st' ->
  let s := checkTriggers env (scheduler st) in
  (st' = mkState s (assets st) (scene st) (view st)
   /\ (command s = None \/ hidden env = true
       \/ option_eqb String.eqb (preferences env) (Some "efficiency")
          && Qlt_bool (inject_Z (now env - lastFrameTime s)) (1000 / EFFICIENCY_MAX_FPS)%Q
          = true
       \/ shouldRender s = false))
  \/ (exists cmd s0,
        command s = Some cmd /\ hidden env = false /\ shouldRender s = true
        /\ s0 = mkScheduler (command s) false (now env) (lastWidth s)
                            (lastHeight s) (lastDevicePixelRatio s)
                            (lastIsDark s) (lastPrefsMode s)
        /\ renderScene convert env cmd (mkState s0 (assets st) (scene st) (view st))
           = Some st').
Proof.
  cbv zeta. unfold renderFrame.
  destruct (command (checkTriggers env (scheduler st))) as [cmd|] eqn:Hc;
    [|intros [= <-]; left; split; [reflexivity | left; reflexivity]].
  destruct (hidden env) eqn:Hh;
    [intros [= <-]; left; split; [reflexivity | right; left; reflexivity]|].
  destruct (_ && _) eqn:Ht;
    [intros [= <-]; left; split; [reflexivity | right; right; left; reflexivity]|].
  destruct (shouldRender (checkTriggers env (scheduler st))) eqn:Hr; cbn [negb];
    [|intros [= <-]; left; split; [reflexivity | right; right; right; reflexivity]].
  intros H. right. exists cmd. eexists.
  split; [reflexivity|]. split; [reflexivity|]. split; [reflexivity|].
  split; [reflexivity | exact H].
Qed.

(** The scheduler a frame that got past the gates ends with. *)
Lemma passed_frame_scheduler (env : Env) (cmd : Command) (s0 : Scheduler) (st st' : State) :
  renderScene convert env cmd (mkState s0 (assets st) (scene st) (view st)) = Some st' ->
  (scheduler st' = s0
   /\ (findField env (opt_field (options cmd)) = None
       \/ findRobot env (opt_robot (options cmd)) = None
       \/ controlsUpdated st st' && controlsMoved env = false))
  \/ (scheduler st' = controlsUpdate true s0
      /\ controlsUpdated st st' = true /\ controlsMoved env = true
      /\ exists fieldConfig robotConfig,
           findField env (opt_field (options cmd)) = Some fieldConfig
           /\ findRobot env (opt_robot (options cmd)) = Some robotConfig).
Proof.
  intros Hscene.
  destruct (findField env (opt_field (options cmd))) as [fieldConfig|] eqn:Hfield.
  2:{ left. rewrite renderScene_missing in Hscene by (left; exact Hfield).
      injection Hscene as <-. split; [reflexivity | left; reflexivity]. }
  destruct (findRobot env (opt_robot (options cmd))) as [robotConfig|] eqn:Hrobot.
  2:{ left. rewrite renderScene_missing in Hscene by (right; exact Hrobot).
      injection Hscene as <-. split; [reflexivity | right; left; reflexivity]. }
  pose proof (renderScene_scheduler env cmd _ st' fieldConfig robotConfig
                                    Hfield Hrobot Hscene) as Hs.
  change (controlsUpdated (mkState s0 (assets st) (scene st) (view st)) st')
    with (controlsUpdated st st') in Hs.
  cbn [scheduler] in Hs.
  destruct (controlsUpdated st st'); [|left; split; [exact Hs | right; right; reflexivity]].
  destruct (controlsMoved env).
  - right. split; [exact Hs|]. repeat split. exists fieldConfig, robotConfig. split; reflexivity.
  - left. split; [exact Hs | right; right; reflexivity].
Qed.

(** X13.  After a frame the redraw triggers are settled for the window the
    frame saw.  If the frame ends with no redraw request, every later frame
    in a window of the same size, pixel ratio, theme and render mode
    returns the state unchanged, whatever the clock, the visibility and the
    asset catalog have become.  A frame ends with a request pending in two
    cases only.  Either it stopped at a gate: then it left assets, scene,
    camera and frame time alone, and the same frame again does the same.
    Or it drew and [controls.update()], called by the camera block,
    dispatched "change": then the next frame that draws in the same window
    with the same catalog ends with no request, so the camera block asks
    for at most one more drawn frame. *)
Theorem frame_settles (env : Env) (st st' : State)
        (Hframe : renderFrame convert env st = Some st') :
  triggersSettled env (scheduler st')
  /\ (shouldRender (scheduler st') = false ->
      forall env', sameWindow env env' -> renderFrame convert env' st' = Some st')
  /\ (shouldRender (scheduler st') = true ->
      (assets st' = assets st /\ scene st' = scene st /\ view st' = view st
       /\ lastFrameTime (scheduler st') = lastFrameTime (scheduler st)
       /\ renderFrame convert env st' = Some st')
      \/ (controlsMoved env = true /\ controlsUpdated st st' = true
          /\ lastFrameTime (scheduler st') = now env
          /\ forall env',
               sameWindow env env' -> frcData env' = frcData env -> hidden env' = false ->
               option_eqb String.eqb (preferences env') (Some "efficiency")
               && Qlt_bool (inject_Z (now env' - now env)) (1000 / EFFICIENCY_MAX_FPS)%Q
               = false ->
               exists st'',
                 renderFrame convert env' st' = Some st''
                 /\ shouldRender (scheduler st'') = false)).
Proof.
  pose proof (renderFrame_cases env st st' Hframe) as Hcases. cbv zeta in Hcases.
  pose proof (checkTriggers_settles env (scheduler st)) as Hs.
  destruct (checkTriggers_keeps env (scheduler st)) as (_ & Htime & _).
  set (s := checkTriggers env (scheduler st)) in *.
  assert (Hsettled : triggersSettled env (scheduler st')).
  { destruct Hcases as [[-> _] | (cmd & s0 & _ & _ & _ & Hs0 & Hscene)]; [exact Hs|].
    assert (Hs0' : triggersSettled env s0) by (rewrite Hs0; exact Hs).
    destruct (passed_frame_scheduler env cmd s0 st st' Hscene) as [[-> _] | [-> _]];
      [exact Hs0' | exact Hs0']. }
  split; [exact Hsettled|]. split.
  { intros Hr env' Hw. apply renderFrame_no_request; [|exact Hr].
    apply settled_no_trigger. eapply settled_window; eassumption. }
  intros Hpending.
  destruct Hcases as [[-> Hgate] | (cmd & s0 & Hcmd & Hvisible & Hrequest & Hs0 & Hscene)].
  - left. cbn [scheduler assets scene view]. repeat split; [exact Htime|].
    unfold renderFrame. cbn [scheduler assets scene view].
    fold s. rewrite (settled_no_trigger env s Hs).
    destruct (command s) as [cmd|]; [|reflexivity].
    destruct (hidden env); [reflexivity|].
    destruct (_ && _); [reflexivity|].
    destruct (shouldRender s); [|reflexivity].
    destruct Hgate as [F | [F | [F | F]]]; discriminate.
  - right.
    destruct (passed_frame_scheduler env cmd s0 st st' Hscene)
      as [[Hsch _] | (Hsch & Hupdated & Hmoved & fieldConfig & robotConfig & Hfield & Hrobot)].
    { rewrite Hsch, Hs0 in Hpending. discriminate. }
    split; [exact Hmoved|]. split; [exact Hupdated|].
    split; [rewrite Hsch, Hs0; reflexivity|].
    intros env' Hwindow Hdata Hvisible' Hrate.
    assert (Hcmd' : command (scheduler st') = Some cmd)
      by (rewrite Hsch, Hs0; exact Hcmd).
    assert (Hrate' : option_eqb String.eqb (preferences env') (Some "efficiency")
                     && Qlt_bool (inject_Z (now env' - lastFrameTime (scheduler st')))
                                 (1000 / EFFICIENCY_MAX_FPS)%Q = false)
      by (rewrite Hsch, Hs0; exact Hrate).
    destruct (renderFrame_requested convert env' cmd st' Hcmd' Hvisible' Hrate' Hpending)
      as (s1 & _ & Hclear & _ & Hframe').
    destruct (renderScene_again env env' cmd _ st' fieldConfig robotConfig s1
                                Hfield Hrobot Hdata Hscene) as (st'' & Hscene' & Hsch').
    exists st''. split; [rewrite Hframe'; exact Hscene'|].
    rewrite Hsch'. exact Hclear.
Qed.

End ScheduleCoverage.

(** The first frame after the first command draws and ends with no request:
    the frame after it changes nothing.  The frame after [set3DCamera(0)],
    with the robot shown, switches the controls off and ends with the
    request that "change" made; the next frame ends with none. *)
Lemma frame_settles_witness :
  let st := Scenario.stateAfter CoverageScenario.commandSent in
  let shown := Visualizer.set3DCamera 0 (Scenario.stateAfter Scenario.robotShown) in
  (exists st',
     Visualizer.renderFrame VisualizerSpec.unitsConvert (Scenario.window 100) st = Some st'
     /\ Visualizer.shouldRender (Visualizer.scheduler st') = false
     /\ Visualizer.renderFrame VisualizerSpec.unitsConvert (Scenario.window 200) st' = Some st')
  /\ (exists st' st'',
        Visualizer.renderFrame VisualizerSpec.unitsConvert (Scenario.window 300) shown
        = Some st'
        /\ Visualizer.controlsEnabled (Visualizer.view st') = false
        /\ Visualizer.shouldRender (Visualizer.scheduler st') = true
        /\ Visualizer.renderFrame VisualizerSpec.unitsConvert (Scenario.window 400) st'
           = Some st''
        /\ Visualizer.shouldRender (Visualizer.scheduler st'') = false).
Proof.
  intros st shown. split.
  - assert (H : exists st', Visualizer.renderFrame VisualizerSpec.unitsConvert
                              (Scenario.window 100) st = Some st'
                            /\ Visualizer.shouldRender (Visualizer.scheduler st') = false)
      by (eexists; split; evaluate; reflexivity).
    destruct H as (st' & Hframe & Hidle). exists st'.
    split; [exact Hframe|]. split; [exact Hidle|].
    apply (proj1 (proj2 (frame_settles VisualizerSpec.unitsConvert (Scenario.window 100)
                                       st st' Hframe)) Hidle).
    repeat split.
  - assert (H : exists st', Visualizer.renderFrame VisualizerSpec.unitsConvert
                              (Scenario.window 300) shown = Some st'
                            /\ Visualizer.controlsEnabled (Visualizer.view st') = false
                            /\ Visualizer.shouldRender (Visualizer.scheduler st') = true)
      by (eexists; split; [|split]; evaluate; reflexivity).
    destruct H as (st' & Hframe & Hfixed & Hpending).
    assert (Horbit : Visualizer.controlsEnabled (Visualizer.view shown) = true)
      by (evaluate; reflexivity).
    destruct (proj2 (proj2 (frame_settles VisualizerSpec.unitsConvert (Scenario.window 300)
                                          shown st' Hframe)) Hpending)
      as [(_ & _ & Hview & _) | (_ & _ & _ & Hnext)].
    + rewrite Hview, Horbit in Hfixed. discriminate Hfixed.
    + destruct (Hnext (Scenario.window 400)) as (st'' & Hframe' & Hidle);
        [repeat split | reflexivity | reflexivity | reflexivity|].
      exists st', st''. repeat split; assumption.
Defined.

Section RequestCoverage.

Import Three Visualizer VisualizerSpec VisualizerCoverage.

Variable convert : R -> string -> string -> R.

(** X14.  A redraw request is cleared only by a frame that gets past the
    gates.  From a state with a pending request, an event that is not a
    frame keeps the request, and so does a frame that stops at a gate (no
    command, hidden view, frame-rate limit), which leaves assets, scene,
    camera and frame time alone.  A frame that gets past the gates records
    its time.  If the field or the robot title is not in the catalog, it
    draws nothing and the request is consumed all the same.  Otherwise it
    updates the scene, and it ends with a request pending exactly when the
    camera block called [controls.update()] and that dispatched
    "change". *)
Theorem redraw_request_cleared_by_frame (e : Event) (st st' : State)
        (Hstep : step convert st e = Some st')
        (Hrequest : shouldRender (scheduler st) = true) :
  (shouldRender (scheduler st') = true
   /\ (isFrame e = true ->
       assets st' = assets st /\ scene st' = scene st /\ view st' = view st
       /\ lastFrameTime (scheduler st') = lastFrameTime (scheduler st)))
  \/ (exists env cmd,
        e = Frame env /\ command (scheduler st) = Some cmd /\ hidden env = false
        /\ lastFrameTime (scheduler st') = now env
        /\ ((findField env (opt_field (options cmd)) = None
             \/ findRobot env (opt_robot (options cmd)) = None)
            /\ shouldRender (scheduler st') = false
            /\ assets st' = assets st /\ scene st' = scene st /\ view st' = view st
            \/ (exists fieldConfig robotConfig,
                  findField env (opt_field (options cmd)) = Some fieldConfig
                  /\ findRobot env (opt_robot (options cmd)) = Some robotConfig)
               /\ shouldRender (scheduler st')
                  = controlsUpdated st st' && controlsMoved env)).
Proof.
  destruct e as [cmd | index | | env | k | k]; cbn [step isFrame] in *.
  - injection Hstep as <-. left. split; [|discriminate].
    unfold render. cbn [fst scheduler shouldRender]. rewrite Hrequest.
    destruct (negb _); reflexivity.
  - injection Hstep as <-. left. split; [reflexivity | discriminate].
  - injection Hstep as <-. left. split; [reflexivity | discriminate].
  - destruct (checkTriggers_keeps env (scheduler st)) as (Hc & Htime & Hkeep).
    apply (renderFrame_cases convert) in Hstep. cbv zeta in Hstep.
    destruct Hstep as [[-> _] | (cmd & s0 & Hcmd & Hvisible & _ & Hs0 & Hscene)].
    + left. cbn [scheduler assets scene view]. split; [apply Hkeep, Hrequest|].
      intros _. repeat split. exact Htime.
    + right. exists env, cmd. rewrite <- Hc.
      split; [reflexivity|]. split; [exact Hcmd|]. split; [exact Hvisible|].
      destruct (findField env (opt_field (options cmd))) as [fieldConfig|] eqn:Hfield;
        [destruct (findRobot env (opt_robot (options cmd))) as [robotConfig|] eqn:Hrobot|].
      * pose proof (renderScene_scheduler convert env cmd _ st' fieldConfig robotConfig
                                          Hfield Hrobot Hscene) as Hsch.
        change (controlsUpdated (mkState s0 (assets st) (scene st) (view st)) st')
          with (controlsUpdated st st') in Hsch.
        cbn [scheduler] in Hsch. rewrite Hsch.
        split.
        { destruct (controlsUpdated st st'); [destruct (controlsMoved env)|];
            rewrite Hs0; reflexivity. }
        right. split; [exists fieldConfig, robotConfig; split; reflexivity|].
        destruct (controlsUpdated st st'); [destruct (controlsMoved env)|];
          rewrite Hs0; reflexivity.
      * rewrite (renderScene_missing convert) in Hscene by (right; exact Hrobot).
        injection Hscene as <-. cbn [scheduler assets scene view]. rewrite Hs0.
        split; [reflexivity|]. left. repeat split. right. reflexivity.
      * rewrite (renderScene_missing convert) in Hscene by (left; exact Hfield).
        injection Hscene as <-. cbn [scheduler assets scene view]. rewrite Hs0.
        split; [reflexivity|]. left. repeat split. left. reflexivity.
  - injection Hstep as <-. left. split; [|discriminate].
    unfold completeLoad.
    destruct (nth_error (pending (assets st)) k) as [[fieldConfig | robotConfig]|];
      [reflexivity | reflexivity | exact Hrequest].
  - injection Hstep as <-. left. split; [exact Hrequest | discriminate].
Qed.

End RequestCoverage.

(** The first frame after the first command gets past the gates: it
    clears the request and records its time. *)
Lemma redraw_request_cleared_by_frame_witness :
  let st := Scenario.stateAfter CoverageScenario.commandSent in
  exists st',
    Visualizer.step VisualizerSpec.unitsConvert st (Visualizer.Frame (Scenario.window 100))
    = Some st'
    /\ Visualizer.shouldRender (Visualizer.scheduler st) = true
    /\ Visualizer.shouldRender (Visualizer.scheduler st') = false
    /\ Visualizer.lastFrameTime (Visualizer.scheduler st') = 100%Z.
Proof.
  intros st.
  assert (H : exists st', Visualizer.step VisualizerSpec.unitsConvert st
                            (Visualizer.Frame (Scenario.window 100)) = Some st'
                          /\ Visualizer.shouldRender (Visualizer.scheduler st') = false)
    by (eexists; split; evaluate; reflexivity).
  destruct H as (st' & Hstep & Hcleared).
  assert (Hrequest : Visualizer.shouldRender (Visualizer.scheduler st) = true)
    by (evaluate; reflexivity).
  exists st'. split; [exact Hstep|]. split; [exact Hrequest|]. split; [exact Hcleared|].
  destruct (redraw_request_cleared_by_frame VisualizerSpec.unitsConvert
              (Visualizer.Frame (Scenario.window 100)) st st' Hstep Hrequest)
    as [[Hkept _] | (env & cmd & He & _ & _ & Htime & _)].
  - rewrite Hcleared in Hkept. discriminate Hkept.
  - injection He as <-. exact Htime.
Defined.

(** ** When loads are issued *)

Section LoadCoverage.

Import Three Visualizer VisualizerSpec VisualizerCoverage.

Variable convert : R -> string -> string -> R.

Lemma dropPending_assets (k : nat) (st : State) :
  let a' := assets (dropPending k st) in
  pending a' = removeNth k (pending (assets st))
  /\ lastFrcDataString a' = lastFrcDataString (assets st)
  /\ lastFieldTitle a' = lastFieldTitle (assets st)
  /\ lastRobotTitle a' = lastRobotTitle (assets st)
  /\ robot a' = robot (assets st)
  /\ field a' = field (assets st).
Proof. cbv zeta. unfold dropPending. repeat split. Qed.

(** X15.  A rendered frame issues a load only for what changed: a field
    load when the field title differs from the last one, a robot load when
    the robot title differs or the asset catalog is new, in that order and
    nothing else.  It records the titles and the catalog it saw, so a frame
    that follows the failure of any pending load, with the same command and
    catalog, issues no load: a failed load is never tried again, and a
    robot or field slot that was empty stays empty. *)
Theorem loads_follow_changes
        (env : Env) (cmd : Command) (st st' : State)
        (fieldConfig : Config3d_Field) (robotConfig : Config3d_Robot)
        (Hfield : findField env (opt_field (options cmd)) = Some fieldConfig)
        (Hrobot : findRobot env (opt_robot (options cmd)) = Some robotConfig)
        (Hframe : renderScene convert env cmd st = Some st') :
  let a := assets st in
  let a' := assets st' in
  let fieldChanged := negb (String.eqb (opt_field (options cmd)) (lastFieldTitle a)) in
  let robotChanged :=
    negb (String.eqb (opt_robot (options cmd)) (lastRobotTitle a))
    || negb (option_eqb frcData_eqb (frcData env) (lastFrcDataString a)) in
  pending a'
  = pending a ++ (if fieldChanged then [FieldLoad fieldConfig] else [])
              ++ (if robotChanged then [RobotLoad robotConfig] else [])
  /\ lastFieldTitle a' = opt_field (options cmd)
  /\ lastRobotTitle a' = opt_robot (options cmd)
  /\ option_eqb frcData_eqb (frcData env) (lastFrcDataString a') = true
  /\ forall k st'',
       renderScene convert env cmd (dropPending k st') = Some st'' ->
       pending (assets st'') = removeNth k (pending a')
       /\ field (assets st'') = field a'
       /\ (robot a' = None -> robot (assets st'') = None).
Proof.
  cbv zeta.
  assert (Htitles : option_eqb frcData_eqb (frcData env) (lastFrcDataString (assets st')) = true
                    /\ lastFieldTitle (assets st') = opt_field (options cmd)
                    /\ lastRobotTitle (assets st') = opt_robot (options cmd)).
  { pose proof Hframe as H.
    rewrite (renderScene_beforeCamera convert env cmd st fieldConfig robotConfig Hfield Hrobot)
      in H.
    apply setCamera_assets in H. destruct H as [-> _]. apply beforeCamera_titles. }
  destruct Htitles as (Hd & Hf & Hr).
  destruct (renderScene_assets convert env cmd st st' fieldConfig robotConfig
                               Hfield Hrobot Hframe) as (Hp & _).
  split; [|split; [exact Hf|split; [exact Hr|split; [exact Hd|]]]].
  - rewrite Hp. unfold pendingAfter, checkFrcData. cbn [fst]. rewrite <- app_assoc.
    reflexivity.
  - intros k st'' Hnext.
    destruct (dropPending_assets k st') as (D1 & D2 & D3 & D4 & D5 & D6). cbv zeta in *.
    destruct (renderScene_assets convert env cmd (dropPending k st') st''
                                 fieldConfig robotConfig Hfield Hrobot Hnext)
      as (Np & Nf & Nr & _).
    cbv zeta in *. unfold pendingAfter, checkFrcData in *. cbn [fst] in *.
    rewrite D2, D3, D4, Hd, Hf, Hr, !String.eqb_refl in *. cbn [negb orb] in *.
    rewrite !app_nil_r in Np. rewrite Np, Nf, Nr, D1, D5, D6.
    repeat split. intros ->. reflexivity.
Qed.

End LoadCoverage.

(** The first frame issues the field load and the robot load. *)
Lemma loads_follow_changes_witness :
  let st := Scenario.stateAfter CoverageScenario.commandSent in
  exists st',
    Visualizer.renderScene VisualizerSpec.unitsConvert (Scenario.window 100)
                           CoverageScenario.coneCommand st = Some st'
    /\ Visualizer.pending (Visualizer.assets st')
       = [Visualizer.FieldLoad Scenario.field1; Visualizer.RobotLoad Scenario.robotZ]
    /\ Visualizer.lastRobotTitle (Visualizer.assets st') = "Z".
Proof.
  intros st.
  assert (H : exists st', Visualizer.renderScene VisualizerSpec.unitsConvert
                            (Scenario.window 100) CoverageScenario.coneCommand st = Some st')
    by (eexists; evaluate; reflexivity).
  destruct H as [st' Hframe]. exists st'. split; [exact Hframe|].
  destruct (loads_follow_changes VisualizerSpec.unitsConvert (Scenario.window 100)
              CoverageScenario.coneCommand st st' Scenario.field1 Scenario.robotZ
              eq_refl eq_refl Hframe) as (Hp & _ & Hr & _).
  split; [rewrite Hp; reflexivity | exact Hr].
Defined.

(** ** When a frame raises *)

Section RaiseCoverage.

Import Three Visualizer VisualizerSpec VisualizerCoverage.

Variable convert : R -> string -> string -> R.

Lemma setCamera_raises (moved : bool) (robotConfig : Config3d_Robot) (st : State) :
  setCamera moved robotConfig st = None
  <-> (0 <= cameraIndex (view st) < Z.of_nat (length (robotCameras (assets st))))%Z
      /\ (Z.of_nat (length (cameras robotConfig)) <= cameraIndex (view st))%Z.
Proof.
  unfold setCamera, resetCameraIndex.
  destruct (Z.leb_spec (Z.of_nat (length (robotCameras (assets st)))) (cameraIndex (view st)))
    as [Hreset | Hreset].
  - cbn [Z.ltb Z.compare]. split; [discriminate | lia].
  - destruct (Z.ltb_spec (cameraIndex (view st)) 0) as [Hneg | Hneg].
    + split; [discriminate | lia].
    + destruct (nth_error (cameras robotConfig) (Z.to_nat (cameraIndex (view st)))) eqn:E.
      * split; [discriminate|]. intros [_ H].
        assert (Hsome : nth_error (cameras robotConfig) (Z.to_nat (cameraIndex (view st)))
                        <> None) by congruence.
        apply nth_error_Some in Hsome. lia.
      * apply nth_error_None in E. split; [intros _; lia | reflexivity].
Qed.

(** X16.  The rendering part of a frame raises in one case only: the
    camera block reads the resolution of a camera the current robot
    configuration does not declare.  This happens exactly when both
    configurations are found, the frame does not reload the robot (same
    robot title, same catalog), and the selected camera index is within the
    mounted cameras but not within the declared ones.  Such a state is
    reached when a superseded robot load completes after the load that
    superseded it. *)
Theorem frame_raises_in_camera_block (env : Env) (cmd : Command) (st : State) :
  (renderScene convert env cmd st = None
   <-> exists fieldConfig robotConfig,
         findField env (opt_field (options cmd)) = Some fieldConfig
         /\ findRobot env (opt_robot (options cmd)) = Some robotConfig
         /\ opt_robot (options cmd) = lastRobotTitle (assets st)
         /\ option_eqb frcData_eqb (frcData env) (lastFrcDataString (assets st)) = true
         /\ (0 <= cameraIndex (view st) < Z.of_nat (length (robotCameras (assets st))))%Z
         /\ (Z.of_nat (length (cameras robotConfig)) <= cameraIndex (view st))%Z)
  /\ run unitsConvert initial CoverageScenario.staleMounts <> None
  /\ run unitsConvert initial CoverageScenario.staleMountsFrame = None.
Proof.
  split; [|split; [evaluate; discriminate | evaluate; reflexivity]].
  assert (Hcam : forall fieldConfig robotConfig,
             findField env (opt_field (options cmd)) = Some fieldConfig ->
             findRobot env (opt_robot (options cmd)) = Some robotConfig ->
             (renderScene convert env cmd st = None
              <-> opt_robot (options cmd) = lastRobotTitle (assets st)
                  /\ option_eqb frcData_eqb (frcData env) (lastFrcDataString (assets st)) = true
                  /\ (0 <= cameraIndex (view st)
                      < Z.of_nat (length (robotCameras (assets st))))%Z
                  /\ (Z.of_nat (length (cameras robotConfig)) <= cameraIndex (view st))%Z)).
  { intros fieldConfig robotConfig Hfield Hrobot.
    rewrite (renderScene_beforeCamera convert env cmd st fieldConfig robotConfig Hfield Hrobot).
    rewrite setCamera_raises.
    destruct (beforeCamera_assets convert env cmd st fieldConfig robotConfig)
      as (Hv & _ & _ & _ & _ & Hm & _).
    cbv zeta in Hv, Hm. rewrite Hv, Hm. unfold checkFrcData. cbn [fst].
    destruct (String.eqb_spec (opt_robot (options cmd)) (lastRobotTitle (assets st)))
      as [E | E]; cbn [negb orb].
    - destruct (option_eqb frcData_eqb (frcData env) (lastFrcDataString (assets st)));
        cbn [negb length Z.of_nat].
      + split; [intros [H1 H2]; auto | intros (_ & _ & H1 & H2); auto].
      + split; [intros [H1 H2]; lia | intros (_ & F & _); discriminate].
    - cbn [length Z.of_nat]. split; [intros [H1 H2]; lia | intros (F & _); contradiction]. }
  destruct (findField env (opt_field (options cmd))) as [fieldConfig|] eqn:Hfield.
  - destruct (findRobot env (opt_robot (options cmd))) as [robotConfig|] eqn:Hrobot.
    + rewrite (Hcam fieldConfig robotConfig eq_refl eq_refl). split.
      * intros H. exists fieldConfig, robotConfig. auto.
      * intros (f & r & [= <-] & [= <-] & H). exact H.
    + unfold renderScene. rewrite Hfield, Hrobot.
      split; [discriminate | intros (f & r & _ & F & _); discriminate].
  - unfold renderScene. rewrite Hfield.
    split; [discriminate | intros (f & r & F & _); discriminate].
Qed.

End RaiseCoverage.

(** ** Camera mounts belong to a robot node *)

Section MountCoverage.

Import Three Visualizer VisualizerSpec VisualizerCoverage.

Variable convert : R -> string -> string -> R.

Lemma renderScene_mounts (env : Env) (cmd : Command) (st st' : State) :
  renderScene convert env cmd st = Some st' ->
  (robot (assets st) = None -> robotCameras (assets st) = []) ->
  robot (assets st') = None -> robotCameras (assets st') = [].
Proof.
  intros Hscene Hst.
  destruct (findField env (opt_field (options cmd))) as [fieldConfig|] eqn:Hfield;
    [destruct (findRobot env (opt_robot (options cmd))) as [robotConfig|] eqn:Hrobot|].
  - destruct (renderScene_assets convert env cmd st st' fieldConfig robotConfig
                                 Hfield Hrobot Hscene) as (_ & _ & Hr & _ & Hm & _).
    cbv zeta in Hr, Hm. rewrite Hr, Hm.
    destruct (_ || _); [reflexivity|].
    destruct (robot (assets st)) as [r|]; [|intros _; apply Hst; reflexivity].
    destruct (pose_robot cmd); discriminate.
  - unfold renderScene in Hscene. rewrite Hfield, Hrobot in Hscene.
    injection Hscene as <-. exact Hst.
  - unfold renderScene in Hscene. rewrite Hfield in Hscene.
    injection Hscene as <-. exact Hst.
Qed.

Lemma step_mounts (e : Event) (st st' : State) :
  step convert st e = Some st' ->
  (robot (assets st) = None -> robotCameras (assets st) = []) ->
  robot (assets st') = None -> robotCameras (assets st') = [].
Proof.
  destruct e as [cmd | index | | env | k | k]; cbn [step]; intros Hstep Hst.
  - injection Hstep as <-. exact Hst.
  - injection Hstep as <-. exact Hst.
  - injection Hstep as <-. exact Hst.
  - apply renderFrame_renders in Hstep.
    destruct Hstep as [(Ha & _) | (cmd & st0 & _ & Ha & _ & _ & Hscene)].
    + rewrite Ha. exact Hst.
    + apply (renderScene_mounts env cmd st0 st' Hscene). rewrite Ha. exact Hst.
  - injection Hstep as <-. unfold completeLoad.
    destruct (nth_error (pending (assets st)) k) as [[fieldConfig | robotConfig]|];
      [exact Hst | discriminate | exact Hst].
  - injection Hstep as <-. exact Hst.
Qed.

Lemma run_mounts (events : list Event) :
  forall st st',
    run convert st events = Some st' ->
    (robot (assets st) = None -> robotCameras (assets st) = []) ->
    robot (assets st') = None -> robotCameras (assets st') = [].
Proof.
  induction events as [|e rest IH]; intros st st'; cbn [run].
  - intros [= <-] H. exact H.
  - destruct (step convert st e) as [st1|] eqn:E; [|discriminate].
    intros Hrun Hst. apply (IH st1 st' Hrun). exact (step_mounts e st st1 E Hst).
Qed.

(** X17.  In every reachable state the camera mounts belong to a robot
    node: while no robot node is installed there is no mount.  A frame
    rendered while no robot node is installed therefore never raises,
    installs none and never selects a fixed view: it resets a non-negative
    camera index to -1 and leaves the orbit controls enabled. *)
Theorem mounts_need_robot (st : State) (Hreach : reachable convert st) :
  (robot (assets st) = None -> robotCameras (assets st) = [])
  /\ forall env cmd fieldConfig robotConfig,
       findField env (opt_field (options cmd)) = Some fieldConfig ->
       findRobot env (opt_robot (options cmd)) = Some robotConfig ->
       robot (assets st) = None ->
       exists st',
         renderScene convert env cmd st = Some st'
         /\ robot (assets st') = None
         /\ (cameraIndex (view st') < 0)%Z
         /\ (0 <= cameraIndex (view st) -> cameraIndex (view st') = (-1))%Z
         /\ controlsEnabled (view st') = true
         /\ canvasFixed (view st') = false
         /\ lastAspectRatio (view st') = None.
Proof.
  assert (Hmounts : robot (assets st) = None -> robotCameras (assets st) = []).
  { destruct Hreach as [events Hrun]. apply (run_mounts events initial st Hrun).
    reflexivity. }
  split; [exact Hmounts|].
  intros env cmd fieldConfig robotConfig Hfield Hrobot Hnone.
  rewrite (renderScene_beforeCamera convert env cmd st fieldConfig robotConfig Hfield Hrobot).
  destruct (beforeCamera_assets convert env cmd st fieldConfig robotConfig)
    as (Hv & _ & _ & Hr & _ & Hm & _).
  cbv zeta in Hv, Hr, Hm.
  assert (Hr' : robot (assets (beforeCamera convert env cmd fieldConfig robotConfig st)) = None).
  { rewrite Hr, Hnone. destruct (_ || _); reflexivity. }
  assert (Hm' : robotCameras (assets (beforeCamera convert env cmd fieldConfig robotConfig st))
                = []).
  { rewrite Hm, (Hmounts Hnone). destruct (_ || _); reflexivity. }
  set (st5 := beforeCamera convert env cmd fieldConfig robotConfig st) in *.
  unfold setCamera, resetCameraIndex. rewrite Hm', Hv. cbn [length Z.of_nat].
  destruct (Z.leb_spec 0 (cameraIndex (view st))) as [Hi | Hi].
  - cbn [Z.ltb Z.compare]. eexists. split; [reflexivity|].
    cbn [assets view cameraIndex controlsEnabled canvasFixed lastAspectRatio].
    repeat split; auto; lia.
  - destruct (Z.ltb_spec (cameraIndex (view st)) 0) as [Hn | Hn]; [|lia].
    eexists. split; [reflexivity|].
    cbn [assets view cameraIndex controlsEnabled canvasFixed lastAspectRatio].
    repeat split; auto; lia.
Qed.

End MountCoverage.

(** The constructor's state has neither robot node nor mount. *)
Lemma mounts_need_robot_witness :
  Visualizer.reachable VisualizerSpec.unitsConvert Visualizer.initial
  /\ Visualizer.robotCameras (Visualizer.assets Visualizer.initial) = [].
Proof.
  assert (H : Visualizer.reachable VisualizerSpec.unitsConvert Visualizer.initial)
    by (exists []; reflexivity).
  split; [exact H|].
  apply (mounts_need_robot VisualizerSpec.unitsConvert Visualizer.initial H). reflexivity.
Defined.

(** ** Cones *)

Section ConeCoverage.

Import Three Visualizer VisualizerSpec VisualizerCoverage.

Variable convert : R -> string -> string -> R.

Lemma map_fst_combine {A B : Type} (a : list A) :
  forall b : list B, length a = length b -> map fst (combine a b) = a.
Proof.
  induction a as [|x a IH]; intros [|y b] H; try discriminate; [reflexivity|].
  cbn [combine map fst]. rewrite IH; [reflexivity | injection H as H; exact H].
Qed.

Lemma map_snd_combine {A B : Type} (a : list A) :
  forall b : list B, length a = length b -> map snd (combine a b) = b.
Proof.
  induction a as [|x a IH]; intros [|y b] H; try discriminate; [reflexivity|].
  cbn [combine map snd]. rewrite IH; [reflexivity | injection H as H; exact H].
Qed.

Lemma NoDup_app_disjoint {A : Type} (a b : list A) (x : A) :
  NoDup (a ++ b) -> In x a -> ~ In x b.
Proof.
  induction a as [|y a IH]; intros Hnd Hin; [destruct Hin|].
  cbn [app] in Hnd. inversion Hnd as [|? ? Hy Hrest]; subst.
  destruct Hin as [-> | Hin]; [|apply IH; assumption].
  intros Hb. apply Hy, in_or_app. right. exact Hb.
Qed.

Lemma removeAll_gone (popped : list Cone) :
  forall (children : list nat) (x : nat),
    NoDup children ->
    In x (map cone_id popped) ->
    ~ In x (fold_left (fun ch c => removeChild (cone_id c) ch) popped children).
Proof.
  induction popped as [|c rest IH]; intros children x Hnd Hin; [destruct Hin|].
  cbn [fold_left]. destruct (in_dec Nat.eq_dec x (map cone_id rest)) as [Hrest | Hrest].
  - apply IH; [apply removeChild_NoDup, Hnd | exact Hrest].
  - destruct Hin as [<- | Hin]; [|contradiction].
    intros H. apply removeAll_In in H. revert H. apply removeChild_gone, Hnd.
Qed.

Lemma updated_length (poseData : list Pose3d) (objectArray : list Cone) (next : nat) :
  let n := length poseData in
  length poseData
  = length (firstn n objectArray
            ++ map (fun id => mkCone id (mkTransform origin identity))
                   (seq next (n - length (firstn n objectArray)))).
Proof.
  cbv zeta. rewrite length_app, length_map, length_seq, length_firstn. lia.
Qed.

Lemma updateCones_transforms (poseData : list Pose3d) (objectArray : list Cone)
      (children : list nat) (next : nat) :
  map cone_transform (fst (fst (updateCones poseData objectArray children next)))
  = map poseTransform poseData.
Proof.
  unfold updateCones. cbn [fst]. rewrite map_map. cbn [cone_transform].
  rewrite <- (map_map fst poseTransform), map_fst_combine; [reflexivity|].
  apply updated_length.
Qed.

Lemma updateCones_identities (poseData : list Pose3d) (objectArray : list Cone)
      (children : list nat) (next : nat) :
  map cone_id (fst (fst (updateCones poseData objectArray children next)))
  = firstn (length poseData) (map cone_id objectArray)
    ++ seq next (length poseData - length objectArray).
Proof.
  unfold updateCones. cbn [fst]. rewrite map_map. cbn [cone_id].
  rewrite <- (map_map snd cone_id), map_snd_combine by apply updated_length.
  rewrite map_app, created_ids, firstn_map, length_firstn. do 2 f_equal. lia.
Qed.

Lemma poses_placed (poseData : list Pose3d) :
  Forall2 placedAt poseData (map poseTransform poseData).
Proof.
  induction poseData as [|pose rest IH]; cbn [map]; constructor;
    [apply poseTransform_placed | exact IH].
Qed.

(** The transforms that show a pose list are determined by it. *)
Lemma placed_transforms (poseData : list Pose3d) (transforms : list Transform) :
  Forall2 placedAt poseData transforms ->
  transforms
  = map (fun pose =>
           let '(x, y, z) := position pose in
           let '(w, i, j, k) := rotation pose in
           mkTransform (mkVector3 (Q2R x) (Q2R y) (Q2R z))
                       (mkQuaternion (Q2R i) (Q2R j) (Q2R k) (Q2R w)))
        poseData.
Proof.
  induction 1 as [|pose t poses ts Hplaced _ IH]; [reflexivity|].
  cbn [map]. rewrite <- IH. f_equal.
  destruct pose as [[[x y] z] [[[w i] j] k]], t as [p q].
  destruct Hplaced as [Hp Hq]. cbn [t_position t_quaternion position rotation] in *.
  rewrite Hp, Hq. reflexivity.
Qed.

(** X18.  [updateCones] makes the cone array show the pose list: afterwards
    there is one cone per pose, and cone [i] sits at the position (x, y, z)
    of pose [i] with the rotation that pose [i] lists scalar first, as
    (w, x, y, z).  The first cones keep their identity, missing ones are
    created with new identities, and surplus ones are dropped from the
    array.  If the old cones were distinct children of the group, allocated
    before [next], then the new array's cones are distinct children of the
    group and every dropped cone has been detached from it. *)
Theorem updateCones_shows_poses (poseData : list Pose3d) (objectArray : list Cone)
        (children : list nat) (next : nat)
        (Hdistinct : NoDup (map cone_id objectArray))
        (Hchildren : NoDup children)
        (Hattached : forall c, In c objectArray -> In (cone_id c) children)
        (Hallocated : forall c, In c objectArray -> (cone_id c < next)%nat) :
  let array' := fst (fst (updateCones poseData objectArray children next)) in
  let children' := snd (fst (updateCones poseData objectArray children next)) in
  let next' := snd (updateCones poseData objectArray children next) in
  Forall2 placedAt poseData (map cone_transform array')
  /\ map cone_id array'
     = firstn (length poseData) (map cone_id objectArray)
       ++ seq next (length poseData - length objectArray)
  /\ next' = (next + (length poseData - length objectArray))%nat
  /\ NoDup (map cone_id array')
  /\ NoDup children'
  /\ (forall c, In c array' -> In (cone_id c) children')
  /\ (forall c, In c (skipn (length poseData) objectArray) -> ~ In (cone_id c) children').
Proof.
  cbv zeta.
  pose proof (updateCones_identities poseData objectArray children next) as Hids.
  assert (Hsplit : map cone_id objectArray
                   = map cone_id (firstn (length poseData) objectArray)
                     ++ map cone_id (skipn (length poseData) objectArray)).
  { rewrite <- map_app, firstn_skipn. reflexivity. }
  assert (Hold : forall x, In x (map cone_id objectArray) -> (x < next)%nat).
  { intros x Hx. apply in_map_iff in Hx. destruct Hx as (c & <- & Hc). apply Hallocated, Hc. }
  split; [rewrite updateCones_transforms; apply poses_placed|]. split; [exact Hids|]. split; [|split; [|split; [|split]]].
  - unfold updateCones. cbn [snd]. rewrite length_firstn. lia.
  - rewrite Hids. apply NoDup_app.
    + rewrite firstn_map. rewrite Hsplit in Hdistinct.
      apply NoDup_app_remove_r in Hdistinct. exact Hdistinct.
    + apply seq_NoDup.
    + intros x Hx Hseq. apply in_firstn in Hx. apply Hold in Hx.
      apply in_seq in Hseq. lia.
  - unfold updateCones. cbn [fst snd]. apply addAll_NoDup, removeAll_NoDup, Hchildren.
  - intros c Hc. apply (in_map cone_id) in Hc. rewrite Hids in Hc.
    unfold updateCones. cbn [fst snd]. apply addAll_In. rewrite created_ids, length_firstn.
    apply in_app_or in Hc. destruct Hc as [Hkept | Hnew].
    + right. rewrite firstn_map in Hkept. apply removeAll_other.
      * rewrite map_rev, <- in_rev. rewrite Hsplit in Hdistinct.
        apply (NoDup_app_disjoint _ _ _ Hdistinct Hkept).
      * apply in_map_iff in Hkept. destruct Hkept as (c0 & <- & Hc0).
        apply Hattached. apply in_firstn in Hc0. exact Hc0.
    + left. apply in_seq in Hnew. apply in_seq. lia.
  - intros c Hc. unfold updateCones. cbn [fst snd]. rewrite addAll_In, created_ids.
    intros [Hnew | Hleft].
    + apply in_seq in Hnew. apply in_skipn in Hc. apply Hallocated in Hc. lia.
    + revert Hleft. apply removeAll_gone; [exact Hchildren|].
      rewrite map_rev, <- in_rev. apply in_map, Hc.
Qed.

Lemma updateAllCones_cones (cmd : Command) (st : State) :
  let sc' := scene (updateAllCones cmd st) in
  map cone_transform (greenCones sc') = map poseTransform (pose_green cmd)
  /\ map cone_transform (blueCones sc') = map poseTransform (pose_blue cmd)
  /\ map cone_transform (yellowCones sc') = map poseTransform (pose_yellow cmd).
Proof.
  cbv zeta. unfold updateAllCones.
  pose proof (updateCones_transforms (pose_green cmd) (greenCones (scene st))
                (fieldCoordinateChildren (scene st)) (nextId (assets st))) as Hg.
  destruct (updateCones (pose_green cmd) _ _ _) as [[green ch1] n1].
  pose proof (updateCones_transforms (pose_blue cmd) (blueCones (scene st)) ch1 n1) as Hb.
  destruct (updateCones (pose_blue cmd) _ _ _) as [[blue ch2] n2].
  pose proof (updateCones_transforms (pose_yellow cmd) (yellowCones (scene st)) ch2 n2) as Hy.
  destruct (updateCones (pose_yellow cmd) _ _ _) as [[yellow ch3] n3].
  cbn [fst scene greenCones blueCones yellowCones] in *. auto.
Qed.

Lemma setCamera_cones (moved : bool) (robotConfig : Config3d_Robot) (st st' : State) :
  setCamera moved robotConfig st = Some st' ->
  greenCones (scene st') = greenCones (scene st)
  /\ blueCones (scene st') = blueCones (scene st)
  /\ yellowCones (scene st') = yellowCones (scene st)
  /\ fieldCoordinateTransform (scene st') = fieldCoordinateTransform (scene st).
Proof.
  unfold setCamera. destruct (_ <? 0)%Z.
  - intros [= <-]. repeat split.
  - destruct (nth_error (cameras robotConfig) _); [|discriminate].
    intros [= <-]. repeat split.
Qed.

(** X19.  After a rendered frame the three cone arrays show the three pose
    lists of the command: cone [i] of a colour sits at the position
    (x, y, z) of pose [i] of that colour, with the rotation the pose lists
    scalar first.  The field coordinate group has the frame of the
    command's alliance for the field found: for "blue" no rotation and a
    translation by minus half the field's width and height, converted from
    inches to meters; for any other alliance a half-turn about z, the
    quaternion (0, 0, 1, 0), and the translation by plus half the width and
    height. *)
Theorem frame_shows_cones
        (env : Env) (cmd : Command) (st st' : State)
        (fieldConfig : Config3d_Field) (robotConfig : Config3d_Robot)
        (Hfield : findField env (opt_field (options cmd)) = Some fieldConfig)
        (Hrobot : findRobot env (opt_robot (options cmd)) = Some robotConfig)
        (Hframe : renderScene convert env cmd st = Some st') :
  Forall2 placedAt (pose_green cmd) (map cone_transform (greenCones (scene st')))
  /\ Forall2 placedAt (pose_blue cmd) (map cone_transform (blueCones (scene st')))
  /\ Forall2 placedAt (pose_yellow cmd) (map cone_transform (yellowCones (scene st')))
  /\ (let halfWidth := convert (Q2R (widthInches fieldConfig / 2)) "inches" "meters" in
      let halfHeight := convert (Q2R (heightInches fieldConfig / 2)) "inches" "meters" in
      fieldCoordinateTransform (scene st')
      = if String.eqb (opt_alliance (options cmd)) "blue"
        then mkTransform (mkVector3 (- halfWidth) (- halfHeight) 0) identity
        else mkTransform (mkVector3 halfWidth halfHeight 0) (mkQuaternion 0 0 1 0))%R.
Proof.
  rewrite (renderScene_beforeCamera convert env cmd st fieldConfig robotConfig Hfield Hrobot)
    in Hframe.
  apply setCamera_cones in Hframe. destruct Hframe as (-> & -> & -> & ->).
  unfold beforeCamera. destruct (checkFrcData env st) as [newFrcData st1].
  set (st5 := setRobotPosition cmd _).
  destruct (updateAllCones_cones cmd st5) as (Hg & Hb & Hy). cbv zeta in *.
  rewrite Hg, Hb, Hy.
  split; [apply poses_placed|]. split; [apply poses_placed|]. split; [apply poses_placed|].
  assert (Hcones : fieldCoordinateTransform (scene (updateAllCones cmd st5))
                   = fieldCoordinateTransform (scene st5)).
  { unfold updateAllCones.
    destruct (updateCones (pose_green cmd) _ _ _) as [[green ch1] n1].
    destruct (updateCones (pose_blue cmd) _ _ _) as [[blue ch2] n2].
    destruct (updateCones (pose_yellow cmd) _ _ _) as [[yellow ch3] n3].
    reflexivity. }
  rewrite Hcones.
  assert (Hrobotpose : fieldCoordinateTransform (scene st5)
                       = fieldCoordinates convert fieldConfig (opt_alliance (options cmd))).
  { subst st5. unfold setRobotPosition. destruct (robot (assets _)); reflexivity. }
  rewrite Hrobotpose. unfold fieldCoordinates.
  destruct (String.eqb (opt_alliance (options cmd)) "blue").
  - rewrite no_turn. f_equal. f_equal; ring.
  - rewrite half_turn. f_equal. f_equal; ring.
Qed.

End ConeCoverage.

(** One attached cone and two poses: the cone is kept, one is created, and
    both sit at (1, 2, 0) with the identity rotation. *)
Lemma updateCones_shows_poses_witness :
  let cone := Visualizer.mkCone 0 (Visualizer.mkTransform Visualizer.origin Three.identity) in
  let poseData := [Scenario.pose; Scenario.pose] in
  let placed := Visualizer.mkTransform (Three.mkVector3 (Q2R 1) (Q2R 2) (Q2R 0))
                                       (Three.mkQuaternion (Q2R 0) (Q2R 0) (Q2R 0) (Q2R 1)) in
  NoDup (map Visualizer.cone_id [cone]) /\ NoDup [0%nat]
  /\ map Visualizer.cone_id (fst (fst (Visualizer.updateCones poseData [cone] [0%nat] 1)))
     = [0%nat; 1%nat]
  /\ map Visualizer.cone_transform
         (fst (fst (Visualizer.updateCones poseData [cone] [0%nat] 1)))
     = [placed; placed].
Proof.
  intros cone poseData placed.
  assert (H1 : NoDup (map Visualizer.cone_id [cone]))
    by (constructor; [intros [] | constructor]).
  assert (H2 : NoDup [0%nat]) by (constructor; [intros [] | constructor]).
  split; [exact H1|]. split; [exact H2|].
  destruct (updateCones_shows_poses poseData [cone] [0%nat] 1 H1 H2) as (Hplaced & Hids & _).
  - intros c [<- | []]. left. reflexivity.
  - intros c [<- | []]. cbn. lia.
  - split; [rewrite Hids; reflexivity|].
    rewrite (placed_transforms _ _ Hplaced). reflexivity.
Defined.

(** The first frame creates one green and two yellow cones at (1, 2, 0)
    with the identity rotation, and puts the field coordinate group in the
    red frame of the field, 651 by 315 inches. *)
Lemma frame_shows_cones_witness :
  let placed := Visualizer.mkTransform (Three.mkVector3 (Q2R 1) (Q2R 2) (Q2R 0))
                                       (Three.mkQuaternion (Q2R 0) (Q2R 0) (Q2R 0) (Q2R 1)) in
  exists st',
    Visualizer.renderScene VisualizerSpec.unitsConvert (Scenario.window 100)
                           CoverageScenario.coneCommand Visualizer.initial = Some st'
    /\ map Visualizer.cone_transform (Visualizer.greenCones (Visualizer.scene st')) = [placed]
    /\ map Visualizer.cone_transform (Visualizer.yellowCones (Visualizer.scene st'))
       = [placed; placed]
    /\ Visualizer.fieldCoordinateTransform (Visualizer.scene st')
       = Visualizer.mkTransform
           (Three.mkVector3 (Q2R (651 / 2) * (254 / 10000)) (Q2R (315 / 2) * (254 / 10000)) 0)
           (Three.mkQuaternion 0 0 1 0).
Proof.
  intros placed.
  assert (H : exists st', Visualizer.renderScene VisualizerSpec.unitsConvert
                            (Scenario.window 100) CoverageScenario.coneCommand
                            Visualizer.initial = Some st')
    by (eexists; evaluate; reflexivity).
  destruct H as [st' Hframe]. exists st'. split; [exact Hframe|].
  destruct (frame_shows_cones VisualizerSpec.unitsConvert (Scenario.window 100)
              CoverageScenario.coneCommand Visualizer.initial st'
              Scenario.field1 Scenario.robotZ eq_refl eq_refl Hframe)
    as (Hg & _ & Hy & Hfield).
  split; [rewrite (placed_transforms _ _ Hg); reflexivity|].
  split; [rewrite (placed_transforms _ _ Hy); reflexivity|].
  rewrite Hfield. reflexivity.
Defined.

(** ** Load completion *)

Section CompletionCoverage.

Import Three Visualizer VisualizerSpec VisualizerCoverage.

Variable convert : R -> string -> string -> R.

(** X20.  The completion of a load only adds to the scene: every child of
    the two coordinate groups stays a child, and cones and camera state are
    untouched.  A completed field load installs a new node, made from the
    configuration the load was issued for, as a child of the coordinate
    group and requests a redraw, whatever field title is current by then; a
    field node that was attached before stays attached beside it.  A
    completion for a load that is not pending changes nothing. *)
Theorem load_completion_only_adds (k : nat) (st : State) :
  let st' := completeLoad convert k st in
  (forall id, In id (coordinateChildren (scene st)) ->
              In id (coordinateChildren (scene st')))
  /\ (forall id, In id (fieldCoordinateChildren (scene st)) ->
                 In id (fieldCoordinateChildren (scene st')))
  /\ greenCones (scene st') = greenCones (scene st)
  /\ blueCones (scene st') = blueCones (scene st)
  /\ yellowCones (scene st') = yellowCones (scene st)
  /\ view st' = view st
  /\ (nth_error (pending (assets st)) k = None -> st' = st)
  /\ (forall fieldConfig,
        nth_error (pending (assets st)) k = Some (FieldLoad fieldConfig) ->
        field (assets st')
        = Some {| field_id := nextId (assets st);
                  field_source := field_path fieldConfig;
                  field_quaternion :=
                    getQuaternionFromRotSeq convert (field_rotations fieldConfig) |}
        /\ In (nextId (assets st)) (coordinateChildren (scene st'))
        /\ pending (assets st') = removeNth k (pending (assets st))
        /\ shouldRender (scheduler st') = true
        /\ lastFieldTitle (assets st') = lastFieldTitle (assets st)
        /\ robot (assets st') = robot (assets st)
        /\ (sceneInvariant st ->
            forall old, field (assets st) = Some old ->
                        In (field_id old) (coordinateChildren (scene st)) ->
                        In (field_id old) (coordinateChildren (scene st'))
                        /\ field_id old <> nextId (assets st))).
Proof.
  cbv zeta. unfold completeLoad.
  destruct (nth_error (pending (assets st)) k) as [[fieldConfig | robotConfig]|] eqn:E.
  - unfold fieldLoaded, dropPending, set_shouldRender.
    cbn [scene assets view scheduler coordinateChildren fieldCoordinateChildren greenCones
         blueCones yellowCones field nextId pending shouldRender lastFieldTitle robot].
    assert (Hstay : forall id, In id (coordinateChildren (scene st)) ->
                               In id (addChild (nextId (assets st))
                                               (coordinateChildren (scene st)))).
    { intros id Hid. apply addChild_In. right. exact Hid. }
    split; [exact Hstay|]. split; [auto|]. repeat (split; [reflexivity|]).
    split; [discriminate|].
    intros ? [= <-]. repeat (split; [reflexivity|]).
    split; [apply addChild_In; left; reflexivity|]. repeat (split; [reflexivity|]).
    intros (_ & _ & Hid & _) old Hold Hin. split; [apply Hstay, Hin|].
    apply Hid in Hin. lia.
  - unfold robotLoaded, dropPending, set_shouldRender.
    cbn [scene assets view scheduler coordinateChildren fieldCoordinateChildren greenCones
         blueCones yellowCones field nextId pending shouldRender lastRobotVisible].
    split; [auto|]. split.
    { intros id Hid. destruct (lastRobotVisible (assets st)); [|exact Hid].
      apply addChild_In. right. exact Hid. }
    repeat (split; [reflexivity|]). split; [discriminate|]. intros ? [=].
  - split; [auto|]. split; [auto|]. repeat (split; [reflexivity|]).
    intros ? [=].
Qed.

End CompletionCoverage.
